(** * Position-responsive 3D soundscape: the render pipeline and the pose filter

    A shallow embedding of the Python sources
    [audio_engine.py], [eq_reverb.py], [crosstalk.py], [hrtf_engine.py],
    [dsp_pipeline.py] and [sensor_fusion.py], of the DMA half of
    [stm32_controller_sim.py] and of the audio callback of [main.py],
    followed by the properties established about them.

    The program computes on numpy [float64] values.  Every function below is
    written once, over an arithmetic interface [Arith], and the interface has
    two instances:
    - [binary64]: IEEE 754 double precision, Rocq's primitive floats; this is
      the arithmetic the program runs on;
    - [exact]: the canonical rationals [Qc], the rounding-free reading of the
      same formulas.
    Functions the program imports from numpy, scipy and pyquaternion are
    collected in the interface [Numpy] and stay abstract. *)

From Stdlib Require Import ZArith QArith Qcanon Qround Qabs Qcabs Floats.
From Stdlib Require Import Lia Lqa List String.
From stdpp Require Import base option list gmap.

Unset Default Proof Using.
Open Scope Z_scope.

(* ===================================================================== *)
(** * Python exceptions *)
(* ===================================================================== *)

Inductive exn : Type :=
| ValueError
| ZeroDivisionError
| IndexError
| KeyError.

(** A Python call either raises or returns. *)
Definition py (T : Type) : Type := exn + T.

Definition ret {T} (x : T) : py T := inr x.
Definition raise {T} (e : exn) : py T := inl e.
Definition bind {T U} (m : py T) (k : T -> py U) : py U :=
  match m with
  | inl e => inl e
  | inr x => k x
  end.

Notation "x <- m ;; k" := (bind m (fun x => k))
  (at level 100, m at next level, right associativity).

(** Left-to-right [for] loop whose body may raise. *)
Fixpoint for_each {T S} (body : S -> T -> py S) (xs : list T) (s : S) : py S :=
  match xs with
  | [] => ret s
  | x :: xs' => s' <- body s x ;; for_each body xs' s'
  end.

(* ===================================================================== *)
(** * The arithmetic interface *)
(* ===================================================================== *)

Class Arith (A : Type) : Type := {
  of_Z : Z -> A;                 (* int -> float *)
  add : A -> A -> A;
  sub : A -> A -> A;
  mul : A -> A -> A;
  div : A -> A -> A;             (* numpy division: never raises *)
  neg : A -> A;
  absv : A -> A;
  ltb : A -> A -> bool;          (* x < y *)
  eqb : A -> A -> bool;          (* x == y *)
  maximum : A -> A -> A;         (* the reduction step of np.max *)
  py_mod : A -> A -> A;          (* x % y *)
  py_round : A -> py Z;          (* int(round(x)) *)
  py_int : A -> py Z;            (* int(x) *)
}.

Declare Scope py_scope.
Delimit Scope py_scope with py.
Notation "x + y" := (add x y) : py_scope.
Notation "x - y" := (sub x y) : py_scope.
Notation "x * y" := (mul x y) : py_scope.
Notation "x / y" := (div x y) : py_scope.
Notation "- x" := (neg x) : py_scope.
Notation "x <? y" := (ltb x y) : py_scope.
Notation "x =? y" := (eqb x y) : py_scope.

(** A decimal literal [n/d] of the source text, e.g. [lit 4 10] for [0.4].
    Numerator and denominator are small integers, exactly representable, so
    in [binary64] the correctly rounded quotient is the double the Python
    parser produces for the literal. *)
Definition lit `{Arith A} (n : Z) (d : positive) : A :=
  (of_Z n / of_Z (Z.pos d))%py.

(** ** Rounding of exact rationals, shared by both instances *)

(** Python's [round]: to the nearest integer, ties to the even one. *)
Definition Qround_half_even (q : Q) : Z :=
  let f := Qfloor q in
  match Qcompare (q - inject_Z f) (1 # 2) with
  | Lt => f
  | Gt => f + 1
  | Eq => if Z.even f then f else f + 1
  end.

(** Python's [int]: truncation toward zero. *)
Definition Qtrunc (q : Q) : Z :=
  if Qle_bool 0 q then Qfloor q else Qceiling q.

(** ** The exact instance *)

Definition Qc_ltb (x y : Qc) : bool :=
  match Qccompare x y with Lt => true | _ => false end.

Definition Qc_mod (x y : Qc) : Qc :=
  (x - y * Q2Qc (inject_Z (Qfloor (x / y)%Qc)))%Qc.

#[export] Instance exact : Arith Qc := {|
  of_Z z := Q2Qc (inject_Z z);
  add := Qcplus;
  sub := Qcminus;
  mul := Qcmult;
  div := Qcdiv;
  neg := Qcopp;
  absv := Qcabs;
  ltb := Qc_ltb;
  eqb := Qc_eq_bool;
  maximum a b := if Qc_ltb b a then a else b;
  py_mod := Qc_mod;
  py_round x := ret (Qround_half_even x);
  py_int x := ret (Qtrunc x);
|}.

(** ** The binary64 instance *)

(** The rational a finite double stands for. *)
Definition SF2Q (f : spec_float) : option Q :=
  match f with
  | S754_zero _ => Some 0%Q
  | S754_finite s m e =>
      let mag := match e with
                 | Z.neg k => Z.pos m # Pos.pow 2 k
                 | _ => inject_Z (Z.pos m * 2 ^ e)
                 end in
      Some (if s then Qopp mag else mag)
  | _ => None
  end.

Definition F2Q (x : float) : option Q := SF2Q (Prim2SF x).

(** The double nearest to [m * 2^e]. *)
Definition F_of_dyadic (m e : Z) : float :=
  SF2Prim (binary_normalize prec emax m e false).

Definition F_of_Z (z : Z) : float := F_of_dyadic z 0.

(** C's [fmod]: the exact remainder of the truncated quotient. *)
Definition F_fmod (x y : float) : float :=
  match F2Q x, F2Q y with
  | Some xq, Some yq =>
      if Qeq_bool yq 0 then nan
      else
        let r := Qred (xq - yq * inject_Z (Qtrunc (xq / yq))) in
        if Qeq_bool r 0 then (if get_sign x then neg_zero else zero)
        else F_of_dyadic (Qnum r) (- Z.log2 (Z.pos (Qden r)))
  | Some _, None => if is_nan y then nan else x
  | None, _ => nan
  end.

(** [%] on float64: [fmod], moved into the sign of the divisor. *)
Definition F_mod (x y : float) : float :=
  let m := F_fmod x y in
  if PrimFloat.eqb y 0 then m
  else if PrimFloat.eqb m 0 then (if get_sign y then neg_zero else zero)
  else if xorb (PrimFloat.ltb y 0) (PrimFloat.ltb m 0)
       then PrimFloat.add m y else m.

Definition F_maximum (a b : float) : float :=
  if is_nan a || PrimFloat.leb b a then a else b.

#[export] Instance binary64 : Arith float := {|
  of_Z := F_of_Z;
  add := PrimFloat.add;
  sub := PrimFloat.sub;
  mul := PrimFloat.mul;
  div := PrimFloat.div;
  neg := PrimFloat.opp;
  absv := PrimFloat.abs;
  ltb := PrimFloat.ltb;
  eqb := PrimFloat.eqb;
  maximum := F_maximum;
  py_mod := F_mod;
  py_round x := match F2Q x with
                | Some q => ret (Qround_half_even q)
                | None => raise ValueError
                end;
  py_int x := match F2Q x with
              | Some q => ret (Qtrunc q)
              | None => raise ValueError
              end;
|}.

(* ===================================================================== *)
(** * Imported functions *)
(* ===================================================================== *)

(** Three-vectors (world positions) and pyquaternion's [Quaternion]. *)
Definition vec3 (A : Type) : Type := (A * A * A)%type.

Record Quaternion (A : Type) : Type := {
  qw : A; qx : A; qy : A; qz : A
}.
Arguments qw {A}. Arguments qx {A}. Arguments qy {A}. Arguments qz {A}.

(** What the program calls in numpy, scipy and pyquaternion.  None of it is
    code of the repository, so it is left as an interface; [fft_kernel n k]
    stands for the root of unity [exp(-2 pi i k / n)] of the discrete Fourier
    transform, as a pair (real part, imaginary part). *)
Class Numpy (A : Type) : Type := {
  np_pi : A;
  np_sqrt : A -> A;
  np_sin : A -> A;
  np_cos : A -> A;
  np_exp : A -> A;
  np_radians : A -> A;
  np_degrees : A -> A;
  np_arcsin : A -> A;
  np_arctan2 : A -> A -> A;
  np_linalg_norm : vec3 A -> A;
  np_linalg_inv : list (list A) -> py (list (list A));
  fft_kernel : nat -> nat -> A * A;
  signal_resample : list A -> nat -> list A;
  quat_inverse : Quaternion A -> py (Quaternion A);   (* raises on the zero quaternion *)
  quat_rotate : Quaternion A -> vec3 A -> vec3 A;
}.

(* ===================================================================== *)
(** * numpy arrays as lists *)
(* ===================================================================== *)

Section Arrays.
Context {A : Type} `{Arith A}.

Definition np_zeros (n : nat) : list A := replicate n (of_Z 0).

(** [a[p : p+n]] for a non-negative start: clipped to the array. *)
Definition slice {T} (a : list T) (p n : nat) : list T := take n (drop p a).

(** An elementwise binary operation with numpy broadcasting of 1-d
    arrays: equal lengths, or one operand of length one. *)
Definition broadcast2 {T} (f : T -> T -> T) (a b : list T) : py (list T) :=
  if (length a =? length b)%nat then ret (zip_with f a b)
  else match a, b with
       | [x], _ => ret (map (f x) b)
       | _, [y] => ret (map (fun x => f x y) a)
       | _, _ => raise ValueError
       end.

(** [a += b]: the result must keep the shape of [a]. *)
Definition iadd (a b : list A) : py (list A) :=
  if (length b =? length a)%nat then ret (zip_with add a b)
  else match b with
       | [y] => ret (map (fun x => x + y)%py a)
       | _ => raise ValueError
       end.

(** [a[p : p+n] = v]. *)
Definition set_slice (a : list A) (p n : nat) (v : list A) : py (list A) :=
  let m := length (slice a p n) in
  if (length v =? m)%nat then ret (take p a ++ v ++ drop (p + m) a)
  else match v with
       | [y] => ret (take p a ++ replicate m y ++ drop (p + m) a)
       | _ => raise ValueError
       end.

(** [a[i] = v] for a non-negative index. *)
Definition set_index (a : list A) (i : nat) (v : A) : py (list A) :=
  if (i <? length a)%nat then ret (<[i := v]> a) else raise IndexError.

(** [np.max] of a flat array. *)
Definition np_max (a : list A) : py A :=
  match a with
  | [] => raise ValueError
  | x :: xs => ret (foldl maximum x xs)
  end.
End Arrays.

(* ===================================================================== *)
(** * audio_engine.py *)
(* ===================================================================== *)

Module AudioSource.
Section Defs.
Context {A : Type} `{Arith A}.

Record t : Type := {
  name : string;
  pos : vec3 A;
  audio_data : list A;
  ptr : nat
}.

Definition get_next_chunk (self : t) (chunk_size : nat) : list A * t :=
  let chunk := slice (audio_data self) (ptr self) chunk_size in
  let ptr1 := (ptr self + chunk_size)%nat in
  let ptr2 := if (length (audio_data self) <=? ptr1 + chunk_size)%nat
              then 0%nat else ptr1 in
  let chunk := if (length chunk <? chunk_size)%nat
               then chunk ++ np_zeros (chunk_size - length chunk)
               else chunk in
  (chunk, {| name := name self; pos := pos self;
             audio_data := audio_data self; ptr := ptr2 |}).

(** [k] successive calls with the same chunk size. *)
Fixpoint play (self : t) (chunk_size : nat) (k : nat) : list (list A) * t :=
  match k with
  | O => ([], self)
  | S k' =>
      let (c, self1) := get_next_chunk self chunk_size in
      let (cs, self2) := play self1 chunk_size k' in
      (c :: cs, self2)
  end.
End Defs.
Arguments t A : clear implicits.
End AudioSource.

(* ===================================================================== *)
(** * eq_reverb.py *)
(* ===================================================================== *)

Module EnvironmentDSP.
Section Defs.
Context {A : Type} `{Arith A} `{Numpy A}.

Record t : Type := {
  sample_rate : Z;
  low_gain : A;
  mid_gain : A;
  high_gain : A;
  reverb_decay : A;
  reverb_buffer : list A;
  ptr : nat
}.

Definition __init__ (sample_rate : Z) : py t :=
  n <- py_int (of_Z sample_rate * lit 5 10)%py ;;
  if n <? 0 then raise ValueError
  else ret {| sample_rate := sample_rate;
              low_gain := of_Z 1; mid_gain := of_Z 1; high_gain := of_Z 1;
              reverb_decay := lit 4 10;
              reverb_buffer := np_zeros (Z.to_nat n);
              ptr := 0%nat |}.

Definition apply_eq (self : t) (data : list A) : list A :=
  let g := (low_gain self * lit 4 10 + mid_gain self * lit 4 10
            + high_gain self * lit 2 10)%py in
  map (fun x => x * g)%py data.

Definition apply_doppler (self : t) (audio_chunk : list A)
    (relative_velocity : A) : py (list A) :=
  let c := of_Z 343 in
  if (c + relative_velocity =? of_Z 0)%py then raise ZeroDivisionError
  else
    let factor := (c / (c + relative_velocity))%py in
    if (absv (factor - of_Z 1) <? lit 1 1000)%py then ret audio_chunk
    else
      num_samples <- py_int (of_Z (Z.of_nat (length audio_chunk)) * factor)%py ;;
      if num_samples <=? 0 then ret audio_chunk
      else
        let resampled := signal_resample audio_chunk (Z.to_nat num_samples) in
        if (length audio_chunk <? length resampled)%nat
        then ret (take (length audio_chunk) resampled)
        else ret (resampled
                  ++ np_zeros (length audio_chunk - length resampled)).

(** [self] with a new reverb buffer and write cursor. *)
Definition with_reverb (self : t) (buf : list A) (p : nat) : t :=
  {| sample_rate := sample_rate self;
     low_gain := low_gain self; mid_gain := mid_gain self;
     high_gain := high_gain self;
     reverb_decay := reverb_decay self;
     reverb_buffer := buf;
     ptr := p |}.

(** The modulus is a Python [int %]: it raises on zero.  A negative
    modulus needs a block longer than the buffer, which the two array
    statements before it let through only for an empty buffer and a
    one-sample block, where the remainder is 0. *)
Definition apply_reverb (self : t) (data : list A) : py (list A * t) :=
  let n := length data in
  let window := slice (reverb_buffer self) (ptr self) n in
  out <- broadcast2 add data (map (fun b => b * reverb_decay self)%py window) ;;
  buf <- set_slice (reverb_buffer self) (ptr self) n data ;;
  let m := Z.of_nat (length (reverb_buffer self)) - Z.of_nat n in
  if m =? 0 then raise ZeroDivisionError
  else
    ret (out,
         with_reverb self buf
           (Z.to_nat ((Z.of_nat (ptr self) + Z.of_nat n) mod m))).
End Defs.
Arguments t A : clear implicits.
End EnvironmentDSP.

(* ===================================================================== *)
(** * crosstalk.py *)
(* ===================================================================== *)

Module CrosstalkCanceller.
Section Defs.
Context {A : Type} `{Arith A} `{Numpy A}.

Record t : Type := {
  c : A;
  d_direct : A;
  d_cross : A;
  delta_t : A;
  alpha : A
}.

Definition __init__ (speaker_distance_m listener_distance_m : A) : t :=
  let c := of_Z 343 in
  let d_direct := listener_distance_m in
  let d_cross := np_sqrt (listener_distance_m * listener_distance_m
                          + speaker_distance_m * speaker_distance_m)%py in
  {| c := c; d_direct := d_direct; d_cross := d_cross;
     delta_t := ((d_cross - d_direct) / c)%py;
     alpha := lit 7 10 |}.

Definition process (self : t) (l_in r_in : list A) : py (list A * list A) :=
  let boost := map (fun x => x * lit 11 10)%py in
  let feed := map (fun x => x * alpha self * lit 5 10)%py in
  l_out <- broadcast2 sub (boost l_in) (feed r_in) ;;
  r_out <- broadcast2 sub (boost r_in) (feed l_in) ;;
  max_val <- np_max (map absv (l_out ++ r_out)) ;;
  if (of_Z 1 <? max_val)%py
  then ret (map (fun x => x / max_val)%py l_out,
            map (fun x => x / max_val)%py r_out)
  else ret (l_out, r_out).
End Defs.
Arguments t A : clear implicits.
End CrosstalkCanceller.

(* ===================================================================== *)
(** * hrtf_engine.py *)
(* ===================================================================== *)

Module HRTF_Engine.
Section Defs.
Context {A : Type} `{Arith A} `{Numpy A}.

(** Complex numbers (numpy [complex128]) as pairs. *)
Definition complex : Type := (A * A)%type.
Definition of_real (a : A) : complex := (a, of_Z 0).
Definition cadd (x y : complex) : complex :=
  (fst x + fst y, snd x + snd y)%py.
Definition cmul (x y : complex) : complex :=
  (fst x * fst y - snd x * snd y, fst x * snd y + snd x * fst y)%py.
Definition conj (x : complex) : complex := (fst x, - snd x)%py.

(** The discrete Fourier sum [X[k] = sum_j x[j] * w(j k mod n)]. *)
Definition dft (w : nat -> complex) (xs : list complex) : list complex :=
  let n := length xs in
  map (fun k => foldl cadd (of_real (of_Z 0))
                  (imap (fun j x => cmul x (w ((j * k) mod n)%nat)) xs))
      (seq 0 n).

(** [scipy.fft.fft(x, n)]: [x] cut or zero-padded to [n] points. *)
Definition fft (x : list A) (n : nat) : py (list complex) :=
  if (n =? 0)%nat then raise ValueError
  else ret (dft (fft_kernel n)
              (map of_real (take n x ++ np_zeros (n - length x)))).

(** [scipy.fft.ifft(X)]. *)
Definition ifft (X : list complex) : py (list complex) :=
  let n := length X in
  if (n =? 0)%nat then raise ValueError
  else ret (map (fun z => (fst z / of_Z (Z.of_nat n),
                           snd z / of_Z (Z.of_nat n))%py)
              (dft (fun k => conj (fft_kernel n k)) X)).

Definition spectra : Type := (list complex * list complex)%type.

Record t : Type := {
  sample_rate : Z;
  fft_size : nat;
  num_azimuth : Z;
  num_elevation : Z;
  filter_length : nat;
  hrtf_db : gmap Z (gmap Z spectra)
}.

(** The body of the inner loop of [_generate_synthetic_hrtf], in three
    parts: the interaural time difference in samples, the two impulse
    responses, and the pair of spectra stored for one azimuth. *)
Definition itd_samples (sample_rate : Z) (azimuth : Z) : py Z :=
  let r := lit 875 10000 in
  let c := of_Z 343 in
  let theta := np_radians (of_Z (azimuth mod 180)) in
  let itd_sec := ((r / c) * (theta + np_sin theta))%py in
  let itd_sec := if 180 <? azimuth then (- itd_sec)%py else itd_sec in
  py_round (itd_sec * of_Z sample_rate)%py.

Definition idx_l (itd_samples : Z) : Z :=
  let base_idx := 100 in
  base_idx + (if 0 <? itd_samples then itd_samples / 2 else 0).

Definition idx_r (itd_samples : Z) : Z :=
  let base_idx := 100 in
  base_idx + (if itd_samples <? 0 then (- itd_samples) / 2 else 0).

Definition impulse_responses (sample_rate : Z) (filter_length : nat)
    (azimuth itd_samples : Z) : py (list A * list A) :=
  let ild_factor :=
    (lit 5 10 + lit 5 10 * np_cos (np_radians (of_Z azimuth)))%py in
  let ir_l := np_zeros filter_length in
  let ir_r := np_zeros filter_length in
  ir_l <- set_index ir_l (Z.to_nat (idx_l itd_samples))
            (of_Z 1 * (if 0 <=? itd_samples then of_Z 1 else ild_factor))%py ;;
  ir_r <- set_index ir_r (Z.to_nat (idx_r itd_samples))
            (of_Z 1 * (if itd_samples <=? 0 then of_Z 1 else ild_factor))%py ;;
  let coloration :=
    map (fun t => (lit 5 100 * np_exp (of_Z (- t) / of_Z 100)
                   * np_sin (of_Z 2 * np_pi * of_Z 7000 * of_Z t
                             / of_Z sample_rate))%py)
        (seqZ 0 (Z.of_nat filter_length)) in
  ir_l <- iadd ir_l coloration ;;
  ir_r <- iadd ir_r coloration ;;
  ret (ir_l, ir_r).

Definition synthetic_pair (sample_rate : Z) (fft_size filter_length : nat)
    (azimuth : Z) : py spectra :=
  itd <- itd_samples sample_rate azimuth ;;
  ir <- impulse_responses sample_rate filter_length azimuth itd ;;
  sl <- fft (fst ir) fft_size ;;
  sr <- fft (snd ir) fft_size ;;
  ret (sl, sr).

Definition _generate_synthetic_hrtf (sample_rate : Z)
    (fft_size : nat) (num_azimuth num_elevation : Z) (filter_length : nat)
    : py (gmap Z (gmap Z spectra)) :=
  for_each
    (fun db el =>
       let elevation := el * 15 - 90 in
       row <- for_each
                (fun row az =>
                   let azimuth := az * 15 in
                   sp <- synthetic_pair sample_rate fft_size
                           filter_length azimuth ;;
                   ret (<[azimuth := sp]> row))
                (seqZ 0 num_azimuth) ∅ ;;
       ret (<[elevation := row]> db))
    (seqZ 0 num_elevation) ∅.

Definition __init__ (sample_rate : Z) (fft_size : nat) : py t :=
  let num_azimuth := 24 in
  let num_elevation := 12 in
  let filter_length := 1024%nat in
  db <- _generate_synthetic_hrtf sample_rate fft_size num_azimuth
          num_elevation filter_length ;;
  ret {| sample_rate := sample_rate; fft_size := fft_size;
         num_azimuth := num_azimuth; num_elevation := num_elevation;
         filter_length := filter_length; hrtf_db := db |}.

(** The grid indices of the nearest direction. *)
Definition nearest_index (azimuth elevation : A) : py (Z * Z) :=
  let azimuth := py_mod azimuth (of_Z 360) in
  r <- py_round (azimuth / of_Z 15)%py ;;
  let az_idx := r mod 24 in
  e <- py_round ((elevation + of_Z 90) / of_Z 15)%py ;;
  let el_idx := Z.max 0 (Z.min 11 e) in
  ret (az_idx, el_idx).

(** [db[target_el][target_az]] *)
Definition db_lookup (db : gmap Z (gmap Z spectra)) (target_el target_az : Z)
    : py spectra :=
  match db !! target_el with
  | None => raise KeyError
  | Some row =>
      match row !! target_az with
      | None => raise KeyError
      | Some sp => ret sp
      end
  end.

Definition get_nearest_hrtf (self : t) (azimuth elevation : A) : py spectra :=
  idx <- nearest_index azimuth elevation ;;
  let target_az := fst idx * 15 in
  let target_el := snd idx * 15 - 90 in
  db_lookup (hrtf_db self) target_el target_az.

Definition spatialize_source (self : t) (audio_chunk : list A)
    (azimuth elevation : A) : py (list A * list A) :=
  ir <- get_nearest_hrtf self azimuth elevation ;;
  source_fft <- fft audio_chunk (fft_size self) ;;
  prod_l <- broadcast2 cmul source_fft (fst ir) ;;
  time_l <- ifft prod_l ;;
  let out_l := take (length audio_chunk) (map fst time_l) in
  prod_r <- broadcast2 cmul source_fft (snd ir) ;;
  time_r <- ifft prod_r ;;
  let out_r := take (length audio_chunk) (map fst time_r) in
  ret (out_l, out_r).
End Defs.
Arguments t A : clear implicits.
Arguments spectra A : clear implicits.
End HRTF_Engine.

(* ===================================================================== *)
(** * dsp_pipeline.py *)
(* ===================================================================== *)

Module DSPPipeline.
Section Defs.
Context {A : Type} `{Arith A} `{Numpy A}.

Record t : Type := {
  hrtf : HRTF_Engine.t A;
  ctc : CrosstalkCanceller.t A;
  env : EnvironmentDSP.t A;
  chunk_size : nat
}.

Definition __init__ (sample_rate : Z) (chunk_size : nat) : py t :=
  hrtf <- HRTF_Engine.__init__ sample_rate (chunk_size * 2) ;;
  let ctc := CrosstalkCanceller.__init__ (lit 15 10) (lit 15 10) in
  env <- EnvironmentDSP.__init__ sample_rate ;;
  ret {| hrtf := hrtf; ctc := ctc; env := env; chunk_size := chunk_size |}.

(** One entry of [sources_data]: name, chunk, world position. *)
Definition source_entry : Type := (string * (list A * vec3 A))%type.

(** The body of the loop over the sources: steps 1 to 5 and the mix. *)
Definition mix_source (self : t) (listener_pos : vec3 A)
    (inv_quat : Quaternion A) (mixed : list A * list A)
    (entry : source_entry) : py (list A * list A) :=
  let '(_, (chunk, source_pos)) := entry in
  let '(sx, sy, sz) := source_pos in
  let '(px, py_, pz) := listener_pos in
  let rel_pos := (sx - px, sy - py_, sz - pz)%py in
  let local_pos := quat_rotate inv_quat rel_pos in
  let dist := np_linalg_norm local_pos in
  let dist := if (dist <? lit 1 10)%py then lit 1 10 else dist in
  let '(lx, ly, lz) := local_pos in
  let azimuth := np_degrees (np_arctan2 lx ly) in
  let elevation := np_degrees (np_arcsin (lz / dist)%py) in
  let attenuation := (of_Z 1 / (dist + of_Z 1))%py in
  let chunk := map (fun x => x * attenuation)%py chunk in
  processed_chunk <- EnvironmentDSP.apply_doppler (env self) chunk (of_Z 0) ;;
  lr <- HRTF_Engine.spatialize_source (hrtf self) processed_chunk
          azimuth elevation ;;
  mixed_l <- iadd (fst mixed) (fst lr) ;;
  mixed_r <- iadd (snd mixed) (snd lr) ;;
  ret (mixed_l, mixed_r).

(** Step 6, the two post-mix statements: EQ and reverb of the left mix,
    then EQ and reverb of the right mix, both on [self.env]. *)
Definition post_mix (env : EnvironmentDSP.t A) (mixed : list A * list A)
    : py ((list A * list A) * EnvironmentDSP.t A) :=
  rl <- EnvironmentDSP.apply_reverb env
          (EnvironmentDSP.apply_eq env (fst mixed)) ;;
  rr <- EnvironmentDSP.apply_reverb (snd rl)
          (EnvironmentDSP.apply_eq (snd rl) (snd mixed)) ;;
  ret ((fst rl, fst rr), snd rr).

Definition process (self : t) (sources_data : list source_entry)
    (listener_pos : vec3 A) (listener_quat : Quaternion A)
    : py ((list A * list A) * t) :=
  let mixed_l := np_zeros (chunk_size self) in
  let mixed_r := np_zeros (chunk_size self) in
  inv_quat <- quat_inverse listener_quat ;;
  mixed <- for_each (mix_source self listener_pos inv_quat) sources_data
             (mixed_l, mixed_r) ;;
  post <- post_mix (env self) mixed ;;
  final <- CrosstalkCanceller.process (ctc self)
             (fst (fst post)) (snd (fst post)) ;;
  ret (final, {| hrtf := hrtf self; ctc := ctc self; env := snd post;
                 chunk_size := chunk_size self |}).

(** One rendered block per element of [blocks], the pipeline state
    carried from block to block. *)
Fixpoint render (self : t)
    (blocks : list (list source_entry * vec3 A * Quaternion A))
    : py (list (list A * list A) * t) :=
  match blocks with
  | [] => ret ([], self)
  | (sources_data, listener_pos, listener_quat) :: rest =>
      r <- process self sources_data listener_pos listener_quat ;;
      rs <- render (snd r) rest ;;
      ret (fst r :: fst rs, snd rs)
  end.
End Defs.
Arguments t A : clear implicits.
Arguments source_entry A : clear implicits.
End DSPPipeline.

(* ===================================================================== *)
(** * sensor_fusion.py *)
(* ===================================================================== *)

(** 2-d numpy arrays as lists of rows. *)
Section Matrices.
Context {A : Type} `{Arith A}.

Definition matrix : Type := list (list A).

Definition np_eye (n : nat) : matrix :=
  map (fun i => map (fun j => if (i =? j)%nat then of_Z 1 else of_Z 0)
                    (seq 0 n))
      (seq 0 n).

Definition np_zeros2 (r c : nat) : matrix := replicate r (np_zeros c).

(** [m * s] for a scalar [s]. *)
Definition mscale (m : matrix) (s : A) : matrix :=
  map (map (fun x => x * s)%py) m.

(** [m[i, j] = v]. *)
Definition mset (m : matrix) (i j : nat) (v : A) : matrix :=
  match m !! i with
  | Some row => <[i := <[j := v]> row]> m
  | None => m
  end.

Definition mget (m : matrix) (i j : nat) : A :=
  nth j (nth i m []) (of_Z 0).

Definition row_len (m : matrix) : nat :=
  match m with
  | [] => 0%nat
  | r :: _ => length r
  end.

(** [m.T] *)
Definition mT (m : matrix) : matrix :=
  map (fun j => map (fun row => nth j row (of_Z 0)) m) (seq 0 (row_len m)).

(** The inner product, accumulated from the first index upward. *)
Definition dot (u v : list A) : A :=
  foldl add (of_Z 0) (zip_with mul u v).

(** [a @ b] *)
Definition matmul (a b : matrix) : matrix :=
  map (fun row => map (fun col => dot row col) (mT b)) a.

(** [a @ v] for a vector [v]. *)
Definition matvec (a : matrix) (v : list A) : list A :=
  map (fun row => dot row v) a.

Definition madd (a b : matrix) : matrix := zip_with (zip_with add) a b.
Definition msub (a b : matrix) : matrix := zip_with (zip_with sub) a b.
End Matrices.
Arguments matrix A : clear implicits.

Module KalmanFilter3D.
Section Defs.
Context {A : Type} `{Arith A} `{Numpy A}.

Record t : Type := {
  dt : A;
  pos_state : list A;
  pos_P : matrix A;
  pos_Q : matrix A;
  pos_R : matrix A;
  pos_F : matrix A;
  pos_H : matrix A
}.

Definition __init__ (dt : A) : t :=
  let pos_F := np_eye 6 in
  let pos_F := mset pos_F 0 3 dt in
  let pos_F := mset pos_F 1 4 dt in
  let pos_F := mset pos_F 2 5 dt in
  let pos_H := np_zeros2 3 6 in
  let pos_H := mset pos_H 0 0 (of_Z 1) in
  let pos_H := mset pos_H 1 1 (of_Z 1) in
  let pos_H := mset pos_H 2 2 (of_Z 1) in
  {| dt := dt;
     pos_state := np_zeros 6;
     pos_P := mscale (np_eye 6) (of_Z 1);
     pos_Q := mscale (np_eye 6) (lit 1 100);
     pos_R := mscale (np_eye 3) (lit 15 100);
     pos_F := pos_F;
     pos_H := pos_H |}.

Definition with_state (self : t) (x : list A) (P : matrix A) : t :=
  {| dt := dt self; pos_state := x; pos_P := P;
     pos_Q := pos_Q self; pos_R := pos_R self;
     pos_F := pos_F self; pos_H := pos_H self |}.

Definition predict (self : t) : t :=
  with_state self
    (matvec (pos_F self) (pos_state self))
    (madd (matmul (matmul (pos_F self) (pos_P self)) (mT (pos_F self)))
          (pos_Q self)).

Definition update_position (self : t) (z : list A) : py t :=
  y <- broadcast2 sub z (matvec (pos_H self) (pos_state self)) ;;
  let S := madd (matmul (matmul (pos_H self) (pos_P self)) (mT (pos_H self)))
                (pos_R self) in
  S_inv <- np_linalg_inv S ;;
  let K := matmul (matmul (pos_P self) (mT (pos_H self))) S_inv in
  x <- broadcast2 add (pos_state self) (matvec K y) ;;
  ret (with_state self x
         (matmul (msub (np_eye 6) (matmul K (pos_H self))) (pos_P self))).
End Defs.
Arguments t A : clear implicits.
End KalmanFilter3D.

(* ===================================================================== *)
(** * Python dicts *)
(* ===================================================================== *)

(** A dict with string keys, as the list of its items in insertion order.
    [d[k] = v] replaces the value of a key that is present, in place, and
    appends a key that is not. *)
Fixpoint dict_set {V : Type} (d : list (string * V)) (k : string) (v : V)
    : list (string * V) :=
  match d with
  | [] => [(k, v)]
  | (k', v') :: d' =>
      if String.eqb k' k then (k', v) :: d' else (k', v') :: dict_set d' k v
  end.

(* ===================================================================== *)
(** * audio_engine.py: loading, and the engine *)
(* ===================================================================== *)

(** What [AudioSource.__init__] asks of the host: the file system,
    [librosa.load(path, sr=..., mono=True)[0]] (absent when the import of
    librosa failed) and [soundfile.read(path)[0]], which is a 2-d array of
    frames for a file of several channels and a 1-d array for a mono
    file. *)
Class Host (A : Type) : Type := {
  os_path_exists : string -> bool;
  librosa_load : option (string -> Z -> py (list A));
  sf_read : string -> py (list (list A) + list A);
}.

(** [str.lower] and [str.endswith], on the bytes of the string (only the
    ASCII capitals change). *)
Definition lower_ascii (c : Ascii.ascii) : Ascii.ascii :=
  let n := Ascii.nat_of_ascii c in
  if ((65 <=? n) && (n <=? 90))%nat then Ascii.ascii_of_nat (n + 32) else c.

Fixpoint str_lower (s : string) : string :=
  match s with
  | EmptyString => EmptyString
  | String c s' => String (lower_ascii c) (str_lower s')
  end.

Definition str_endswith (s suffix : string) : bool :=
  let n := String.length s in
  let m := String.length suffix in
  (m <=? n)%nat && String.eqb (String.substring (n - m) m s) suffix.

(** [np.mean] of one frame: the sum of the channels over their number. *)
Definition np_mean {A : Type} `{Arith A} (row : list A) : A :=
  (foldl add (of_Z 0) row / of_Z (Z.of_nat (length row)))%py.

(** [AudioSource.__init__(name, pos, audio_path, target_sr)].  The message
    printed when the file could not be loaded is not modelled. *)
Definition AudioSource__init__ {A : Type} `{Arith A} `{Host A}
    (name : string) (pos : vec3 A) (audio_path : string) (target_sr : Z)
    : py (AudioSource.t A) :=
  audio_data <-
    (if os_path_exists audio_path then
       match (if str_endswith (str_lower audio_path) ".mp3"
              then librosa_load else None) with
       | Some load => d <- load audio_path target_sr ;; ret (Some d)
       | None =>
           r <- sf_read audio_path ;;
           match r with
           | inl frames => ret (Some (map np_mean frames))
           | inr samples => ret (Some samples)
           end
       end
     else ret None) ;;
  audio_data <-
    match audio_data with
    | Some d => ret d
    | None =>
        if target_sr * 5 <? 0 then raise ValueError
        else ret (np_zeros (Z.to_nat (target_sr * 5)))
    end ;;
  ret {| AudioSource.name := name; AudioSource.pos := pos;
         AudioSource.audio_data := audio_data; AudioSource.ptr := 0%nat |}.

Module AudioEngine.
Section Defs.
Context {A : Type} `{Arith A} `{Host A}.

(** [mic_enabled] is not set by [__init__]: [None] stands for the missing
    attribute. *)
Record t : Type := {
  sample_rate : Z;
  chunk_size : nat;
  sources : list (AudioSource.t A);
  active_idx : nat;
  samples_played : Z;
  switch_threshold : Z;
  mic_enabled : option bool
}.

Definition assets : list (string * vec3 A * string) :=
  [ ("Forest", (of_Z 4, of_Z 4, of_Z 3),
     "audiopapkin-forest-ambience-296528.mp3");
    ("River", (of_Z 3, of_Z (-4), lit 2 10),
     "dragon-studio-soothing-river-flow-372456.mp3");
    ("Night", (of_Z (-5), of_Z 2, lit 5 10),
     "freesound_community-night-ambience-17064.mp3");
    ("Wind", (of_Z 0, of_Z 0, of_Z 12),
     "soundreality-wind-blowing-457954.mp3");
    ("Leaves", (of_Z 0, of_Z 1, of_Z 0),
     "musicholder-walking-on-leaves-260279.mp3") ]%string.

Definition _init_sources (sample_rate : Z) (sources : list (AudioSource.t A))
    : py (list (AudioSource.t A)) :=
  for_each
    (fun sources (asset : string * vec3 A * string) =>
       let '(name, pos, path) := asset in
       s <- AudioSource__init__ name pos path sample_rate ;;
       ret (sources ++ [s]))
    assets sources.

Definition __init__ (sample_rate : Z) (chunk_size : nat) : py t :=
  sources <- _init_sources sample_rate [] ;;
  ret {| sample_rate := sample_rate; chunk_size := chunk_size;
         sources := sources; active_idx := 0%nat; samples_played := 0;
         switch_threshold := sample_rate * 5; mic_enabled := None |}.

(** The dict with the one entry of the active source, or [None] when
    there is no source.  The message printed at a switch is not
    modelled. *)
Definition get_active_source_chunk (self : t)
    : py (option (list (DSPPipeline.source_entry A)) * t) :=
  match sources self with
  | [] => ret (None, self)
  | _ :: _ =>
      match sources self !! active_idx self with
      | None => raise IndexError
      | Some active_source =>
          let (chunk, moved) :=
            AudioSource.get_next_chunk active_source (chunk_size self) in
          let sources1 := <[active_idx self := moved]> (sources self) in
          let played := samples_played self + Z.of_nat (chunk_size self) in
          let switch := switch_threshold self <=? played in
          ret (Some [(AudioSource.name active_source,
                      (chunk, AudioSource.pos active_source))],
               {| sample_rate := sample_rate self;
                  chunk_size := chunk_size self;
                  sources := sources1;
                  active_idx :=
                    if switch
                    then ((active_idx self + 1) mod length sources1)%nat
                    else active_idx self;
                  samples_played := if switch then 0 else played;
                  switch_threshold := switch_threshold self;
                  mic_enabled := mic_enabled self |})
      end
  end.

(** [get_source_chunks] is defined twice in the class body; the second
    definition, over all the sources, replaces the first and is the one a
    call reaches. *)
Definition get_source_chunks (self : t)
    : list (DSPPipeline.source_entry A) * t :=
  let '(d, moved) :=
    foldl (fun (acc : list (DSPPipeline.source_entry A)
                      * list (AudioSource.t A)) s =>
             let (chunk, s') :=
               AudioSource.get_next_chunk s (chunk_size self) in
             (dict_set (fst acc) (AudioSource.name s)
                (chunk, AudioSource.pos s),
              snd acc ++ [s']))
          ([], []) (sources self) in
  (d, {| sample_rate := sample_rate self; chunk_size := chunk_size self;
         sources := moved; active_idx := active_idx self;
         samples_played := samples_played self;
         switch_threshold := switch_threshold self;
         mic_enabled := mic_enabled self |}).

Definition set_mic_input (self : t) (enabled : bool) : t :=
  {| sample_rate := sample_rate self; chunk_size := chunk_size self;
     sources := sources self; active_idx := active_idx self;
     samples_played := samples_played self;
     switch_threshold := switch_threshold self;
     mic_enabled := Some enabled |}.

(** Reading an attribute that was never assigned. *)
Inductive attribute_error : Type := AttributeError.

(** [draw] is what [np.random.normal(0, 0.01, chunk_size)] returns at this
    call, if it is reached. *)
Definition get_input_chunk (self : t) (draw : list A)
    : attribute_error + list A :=
  match mic_enabled self with
  | None => inl AttributeError
  | Some true => inr draw
  | Some false => inr (np_zeros (chunk_size self))
  end.
End Defs.
Arguments t A : clear implicits.
End AudioEngine.

(* ===================================================================== *)
(** * stm32_controller_sim.py: the DMA half of the controller *)
(* ===================================================================== *)

Module STM32_Controller.
Section Defs.
Context {T : Type}.

(** The fields [process_audio_dma] reads and writes.  The timer thread and
    its fields are not modelled. *)
Record t : Type := {
  sample_rate : Z;
  buffer_size : Z;
  running : bool;
  audio_dma_callback : option (T -> py T);
  dma_buffer_idx : Z;
  processed_buffers : Z
}.

Definition __init__ (sample_rate buffer_size : Z) : t :=
  {| sample_rate := sample_rate; buffer_size := buffer_size;
     running := false; audio_dma_callback := None;
     dma_buffer_idx := 0; processed_buffers := 0 |}.

(** The two counters are written before the callback runs, so they are
    updated also when the callback raises. *)
Definition process_audio_dma (self : t) (in_data : T) : t * py T :=
  ({| sample_rate := sample_rate self; buffer_size := buffer_size self;
      running := running self;
      audio_dma_callback := audio_dma_callback self;
      dma_buffer_idx := (dma_buffer_idx self + 1) mod 2;
      processed_buffers := processed_buffers self + 1 |},
   match audio_dma_callback self with
   | Some callback => callback in_data
   | None => ret in_data
   end).
End Defs.
Arguments t T : clear implicits.
End STM32_Controller.

(* ===================================================================== *)
(** * sensor_fusion.py: the orientation filter and [SensorFusion] *)
(* ===================================================================== *)

(** [Quaternion.slerp(q0, q1, amount)] of pyquaternion. *)
Class Pyquaternion (A : Type) : Type := {
  quat_slerp : Quaternion A -> Quaternion A -> A -> Quaternion A
}.

Module SensorFusion.
Section Defs.
Context {A : Type} `{Arith A} `{Numpy A} `{Pyquaternion A}.

(** [KalmanFilter3D.filter_orientation(quat_measure, last_quat, alpha)]. *)
Definition filter_orientation (self : KalmanFilter3D.t A)
    (quat_measure last_quat : Quaternion A) (alpha : A) : Quaternion A :=
  quat_slerp last_quat quat_measure (of_Z 1 - alpha)%py.

Record t : Type := {
  kf : KalmanFilter3D.t A;
  current_pos : list A;
  current_quat : Quaternion A
}.

(** The dict [raw_data], read at its keys ["pos"] and ["quat"]; [None]
    stands for a key that is absent. *)
Record raw : Type := {
  raw_pos : option (list A);
  raw_quat : option (Quaternion A)
}.

Definition __init__ : t :=
  {| kf := KalmanFilter3D.__init__ (lit 1 100);
     current_pos := [of_Z 0; of_Z 0; lit 16 10];
     current_quat := {| qw := of_Z 1; qx := of_Z 0; qy := of_Z 0;
                        qz := of_Z 0 |} |}.

Definition getitem {V : Type} (v : option V) : py V :=
  match v with
  | Some x => ret x
  | None => raise KeyError
  end.

(** The returned dict [{"pos": ..., "quat": ...}] as a pair. *)
Definition update (self : t) (raw_data : raw)
    : py ((list A * Quaternion A) * t) :=
  let kf1 := KalmanFilter3D.predict (kf self) in
  z <- getitem (raw_pos raw_data) ;;
  kf2 <- KalmanFilter3D.update_position kf1 z ;;
  let current_pos := slice (KalmanFilter3D.pos_state kf2) 0 3 in
  q <- getitem (raw_quat raw_data) ;;
  let current_quat :=
    filter_orientation kf2 q (current_quat self) (lit 9 10) in
  ret ((current_pos, current_quat),
       {| kf := kf2; current_pos := current_pos;
          current_quat := current_quat |}).
End Defs.
Arguments t A : clear implicits.
Arguments raw A : clear implicits.
End SensorFusion.

(* ===================================================================== *)
(** * main.py: the audio callback *)
(* ===================================================================== *)

Module MudumalaiSystem.
Section Defs.
Context {A : Type} `{Arith A} `{Numpy A} `{Host A}.

(** The part of the system the audio callback reads and writes: the audio
    engine, the pipeline and the listener pose, which the 100 Hz timer
    interrupt replaces between callbacks. *)
Record t : Type := {
  audio : AudioEngine.t A;
  pipeline : DSPPipeline.t A;
  current_pos : vec3 A;
  current_quat : Quaternion A
}.

(** [outdata[:, k] = v] on an array of [frames] rows. *)
Definition set_column (frames : nat) (v : list A) : py (list A) :=
  if (length v =? frames)%nat then ret v
  else match v with
       | [y] => ret (replicate frames y)
       | _ => raise ValueError
       end.

(** [_audio_callback(outdata, frames, time_info, status)] with no status
    to report: the two columns written to [outdata]. *)
Definition _audio_callback (self : t) (frames : nat)
    : py ((list A * list A) * t) :=
  let (sources_data, audio1) := AudioEngine.get_source_chunks (audio self) in
  r <- DSPPipeline.process (pipeline self) sources_data
         (current_pos self) (current_quat self) ;;
  col0 <- set_column frames (fst (fst r)) ;;
  col1 <- set_column frames (snd (fst r)) ;;
  ret ((col0, col1),
       {| audio := audio1; pipeline := snd r;
          current_pos := current_pos self;
          current_quat := current_quat self |}).
End Defs.
Arguments t A : clear implicits.
End MudumalaiSystem.

(* ===================================================================== *)
(** * Specification-side vocabulary and concrete inputs *)
(* ===================================================================== *)

(** The [n] by [n] matrix with [v] on the diagonal and zero elsewhere. *)
Definition diagonal {A : Type} `{Arith A} (n : nat) (v : A) : matrix A :=
  map (fun i => map (fun j => if (i =? j)%nat then v else of_Z 0) (seq 0 n))
      (seq 0 n).

(** One reverb step on a buffer [b] with write cursor [p], when the
    window [p, p+n) lies inside the buffer: the output block, then the
    buffer with the input written over the window and the cursor moved to
    [(p + n) mod (B - n)]. *)
Definition reverb_step {A : Type} `{Arith A} (decay : A)
    (state : list A * nat) (x : list A) : list A * (list A * nat) :=
  let b := fst state in
  let p := snd state in
  let n := length x in
  (zip_with add x (map (fun v => v * decay)%py (slice b p n)),
   (take p b ++ x ++ drop (p + n) b, ((p + n) mod (length b - n))%nat)).

(** The right-channel output of the second of two consecutive blocks of
    post-mix processing. *)
Definition right_of_second_block {A : Type} `{Arith A}
    (env : EnvironmentDSP.t A) (block1 block2 : list A * list A)
    : py (list A) :=
  r1 <- DSPPipeline.post_mix env block1 ;;
  r2 <- DSPPipeline.post_mix (snd r1) block2 ;;
  ret (snd (fst r2)).

(** Swapping the two channels of a result. *)
Definition swap_channels {T} (r : py (T * T)) : py (T * T) :=
  match r with
  | inl e => inl e
  | inr (l, r) => inr (r, l)
  end.

(** A three-sample source read one sample at a time. *)
Definition three_samples : AudioSource.t float :=
  {| AudioSource.name := "three";
     AudioSource.pos := (0, 0, 0)%float;
     AudioSource.audio_data := [10; 20; 30]%float;
     AudioSource.ptr := 0%nat |}.

(** The environment stage as [EnvironmentDSP(8)] builds it: a reverb
    buffer of four samples. *)
Definition env_8 : EnvironmentDSP.t float :=
  {| EnvironmentDSP.sample_rate := 8;
     EnvironmentDSP.low_gain := 1%float;
     EnvironmentDSP.mid_gain := 1%float;
     EnvironmentDSP.high_gain := 1%float;
     EnvironmentDSP.reverb_decay := 0.4%float;
     EnvironmentDSP.reverb_buffer := [0; 0; 0; 0]%float;
     EnvironmentDSP.ptr := 0%nat |}.

(** Doubles with a clear sign bit, and NaN: the values of [np.abs]. *)
Definition sf_nonneg (x : spec_float) : bool :=
  match x with
  | S754_zero s | S754_infinity s | S754_finite s _ _ => negb s
  | S754_nan => true
  end.

Definition sf_is_nan (x : spec_float) : bool :=
  match x with S754_nan => true | _ => false end.

Definition sf_max (x y : spec_float) : spec_float :=
  if sf_is_nan x || SFleb y x then x else y.

Definition F_nonneg (x : float) : Prop := sf_nonneg (Prim2SF x) = true.

(** ** A stand-in for the imported functions

    The properties below that mention [Numpy] are proved for every
    instance of the interface.  To run the definitions on concrete inputs
    one instance is needed; this one is built from the arithmetic alone.
    Its transcendental functions are low-order polynomials and make no claim
    of accuracy; its quaternion inverse is the algebraic one, and its matrix
    inverse is Gauss-Jordan elimination without row exchanges (on a diagonal
    matrix: the reciprocal of each diagonal entry, which is also what an LU
    solve computes there). *)
Section StandIn.
Context {A : Type} `{Arith A}.

Definition si_pi : A := lit 355 113.
Definition si_sin (x : A) : A := (x - x * x * x / of_Z 6)%py.
Definition si_cos (x : A) : A := (of_Z 1 - x * x / of_Z 2)%py.
Definition si_exp (x : A) : A := (of_Z 1 + x + x * x / of_Z 2)%py.

Definition si_quat_inverse (q : Quaternion A) : py (Quaternion A) :=
  let ss := (qw q * qw q + qx q * qx q + qy q * qy q + qz q * qz q)%py in
  if (of_Z 0 <? ss)%py
  then ret {| qw := (qw q / ss)%py; qx := (- qx q / ss)%py;
              qy := (- qy q / ss)%py; qz := (- qz q / ss)%py |}
  else raise ZeroDivisionError.

Definition si_quat_mul (p q : Quaternion A) : Quaternion A :=
  {| qw := (qw p * qw q - qx p * qx q - qy p * qy q - qz p * qz q)%py;
     qx := (qw p * qx q + qx p * qw q + qy p * qz q - qz p * qy q)%py;
     qy := (qw p * qy q - qx p * qz q + qy p * qw q + qz p * qx q)%py;
     qz := (qw p * qz q + qx p * qy q - qy p * qx q + qz p * qw q)%py |}.

Definition si_quat_rotate (q : Quaternion A) (v : vec3 A) : vec3 A :=
  let '(x, y, z) := v in
  let qv := {| qw := of_Z 0; qx := x; qy := y; qz := z |} in
  let qc := {| qw := qw q; qx := (- qx q)%py; qy := (- qy q)%py;
               qz := (- qz q)%py |} in
  let r := si_quat_mul (si_quat_mul q qv) qc in
  (qx r, qy r, qz r).

(** Gauss-Jordan elimination on the rows of [m | I], pivot by pivot. *)
Fixpoint si_eliminate (steps k : nat) (m : matrix A) : py (matrix A) :=
  match steps with
  | O => ret m
  | S steps' =>
      let pivot := mget m k k in
      if (pivot =? of_Z 0)%py then raise ValueError
      else
        let rowk := map (fun x => x / pivot)%py (nth k m []) in
        si_eliminate steps' (S k)
          (imap (fun i row =>
                   if (i =? k)%nat then rowk
                   else zip_with (fun x y => x - nth k row (of_Z 0) * y)%py
                          row rowk)
                m)
  end.

Definition si_inv (m : matrix A) : py (matrix A) :=
  let n := length m in
  r <- si_eliminate n 0 (zip_with app m (np_eye n)) ;;
  ret (map (drop n) r).

Definition stand_in : Numpy A :=
  {| np_pi := si_pi;
     np_sqrt x := x;
     np_sin := si_sin;
     np_cos := si_cos;
     np_exp := si_exp;
     np_radians x := (x * si_pi / of_Z 180)%py;
     np_degrees x := (x * of_Z 180 / si_pi)%py;
     np_arcsin x := x;
     np_arctan2 y x := (y / (absv x + absv y + of_Z 1))%py;
     np_linalg_norm v :=
       (let '(x, y, z) := v in absv x + absv y + absv z)%py;
     np_linalg_inv := si_inv;
     fft_kernel n k :=
       (let theta := (- (of_Z 2 * si_pi * of_Z (Z.of_nat k)
                         / of_Z (Z.of_nat n)))%py in
        (si_cos theta, si_sin theta));
     signal_resample l n := take n l ++ np_zeros (n - length l);
     quat_inverse := si_quat_inverse;
     quat_rotate := si_quat_rotate |}.
End StandIn.

(** The impulse positions of the 24 azimuths lie inside an impulse
    response of [filter_length] samples (so that the two indexed
    assignments of [_generate_synthetic_hrtf] do not raise). *)
Definition grid_fits {A : Type} `{Arith A} `{Numpy A}
    (sample_rate : Z) (filter_length : nat) : bool :=
  forallb
    (fun az =>
       match HRTF_Engine.itd_samples sample_rate (az * 15) with
       | inr itd => (HRTF_Engine.idx_l itd <? Z.of_nat filter_length)
                    && (HRTF_Engine.idx_r itd <? Z.of_nat filter_length)
       | inl _ => false
       end)
    (seqZ 0 24).


(** ** Silence

    What an arithmetic has to satisfy for zero samples to stay zero through
    the pipeline.  The exact rationals do; binary64 does not as stated (a
    zero times NaN or infinity is NaN, and a zero times a negative number is
    the negative zero). *)
Class ZeroLaws (A : Type) `{Arith A} : Prop := {
  mul_zero_l : forall a : A, (of_Z 0 * a)%py = of_Z 0;
  div_zero_l : forall a : A, (of_Z 0 / a)%py = of_Z 0;
  add_zero_zero : (of_Z 0 + of_Z 0)%py = (of_Z 0 : A);
  sub_zero_zero : (of_Z 0 - of_Z 0)%py = (of_Z 0 : A);
  abs_zero : absv (of_Z 0) = (of_Z 0 : A);
  max_zero_zero : maximum (of_Z 0) (of_Z 0) = (of_Z 0 : A);
  one_not_below_zero : ltb (of_Z 1) (of_Z 0 : A) = false;
  round_returns : forall a : A, exists z, py_round a = inr z;
  static_divisor : eqb (of_Z 343 + of_Z 0)%py (of_Z 0 : A) = false;
  static_factor :
    ltb (absv (of_Z 343 / (of_Z 343 + of_Z 0) - of_Z 1)%py)
        (lit 1 1000 : A) = true
}.

(** A block in which every source supplies [cs] zero samples and the
    listener's orientation is an invertible quaternion. *)
Definition silent_block {A : Type} `{Arith A} `{Numpy A} (cs : nat)
    (block : list (DSPPipeline.source_entry A) * vec3 A * Quaternion A)
    : Prop :=
  Forall (fun entry : DSPPipeline.source_entry A =>
            fst (snd entry) = np_zeros cs)
         (fst (fst block))
  /\ exists q, quat_inverse (snd block) = inr q.

(** An engine whose database answers every grid direction with spectra of
    [n] points, [n] not zero. *)
Definition hrtf_ready {A : Type} `{Arith A} (h : HRTF_Engine.t A) (n : nat)
    : Prop :=
  HRTF_Engine.fft_size h = n /\ n <> 0%nat /\
  forall i j, 0 <= i < 24 -> 0 <= j <= 11 ->
    exists sp,
      HRTF_Engine.db_lookup (HRTF_Engine.hrtf_db h) (j * 15 - 90) (i * 15)
      = inr sp /\
      length (fst sp) = n /\ length (snd sp) = n.

(** A pipeline state from which silence renders as silence: block size
    [cs], a ready engine, and a reverb buffer of zeros, longer than a block,
    with the cursor window inside it. *)
Definition silent_state {A : Type} `{Arith A} (cs : nat)
    (p : DSPPipeline.t A) : Prop :=
  DSPPipeline.chunk_size p = cs /\
  hrtf_ready (DSPPipeline.hrtf p) (cs * 2) /\
  exists B,
    EnvironmentDSP.reverb_buffer (DSPPipeline.env p) = np_zeros B /\
    (cs < B)%nat /\ (EnvironmentDSP.ptr (DSPPipeline.env p) + cs <= B)%nat.

(** Two blocks with two silent sources each, heard from two poses. *)
Definition two_silent_blocks
    : list (list (DSPPipeline.source_entry Qc) * vec3 Qc * Quaternion Qc) :=
  let forest := ("Forest"%string, (np_zeros 1024, (Q2Qc 4, Q2Qc 4, Q2Qc 3))) in
  let river := ("River"%string,
                (np_zeros 1024, (Q2Qc 3, Q2Qc (-4), Q2Qc (1 # 5)))) in
  [ ([forest; river], (Q2Qc 0, Q2Qc 0, Q2Qc (8 # 5)),
     {| qw := Q2Qc 1; qx := Q2Qc 0; qy := Q2Qc 0; qz := Q2Qc 0 |});
    ([forest; river], (Q2Qc (1 # 10), Q2Qc 0, Q2Qc (8 # 5)),
     {| qw := Q2Qc (4 # 5); qx := Q2Qc 0; qy := Q2Qc 0; qz := Q2Qc (3 # 5) |}) ].

(** ** The Kalman covariance

    A run of the position filter: [predict()] and [update_position(z)]
    calls in any order. *)
Inductive kalman_step (A : Type) : Type :=
| Predict
| Update (z : list A).
Arguments Predict {A}.
Arguments Update {A} z.

Fixpoint kalman_run {A : Type} `{Arith A} `{Numpy A}
    (kf : KalmanFilter3D.t A) (steps : list (kalman_step A))
    : py (KalmanFilter3D.t A) :=
  match steps with
  | [] => ret kf
  | Predict :: rest => kalman_run (KalmanFilter3D.predict kf) rest
  | Update z :: rest =>
      kf' <- KalmanFilter3D.update_position kf z ;;
      kalman_run kf' rest
  end.

Definition symmetric {A : Type} `{Arith A} (P : matrix A) : Prop := mT P = P.

(** Positive semi-definite: [v . (P v) >= 0] for every vector [v]. *)
Definition psd (P : matrix Qc) : Prop :=
  forall v : list Qc, length v = length P -> (Q2Qc 0 <= dot v (matvec P v))%Qc.

(** The contract of [np.linalg.inv] that the filter relies on: the inverse
    of a non-zero multiple [s I] of the 3 by 3 identity is [(1/s) I]. *)
Definition inverts_scalar_matrices {A : Type} `{Arith A} `{Numpy A} : Prop :=
  forall s : A, s <> of_Z 0 ->
    np_linalg_inv (diagonal 3 s) = inr (diagonal 3 (of_Z 1 / s)%py).

(** The 6 by 6 matrix [[a I, b I], [b I, c I]] in 3 by 3 blocks. *)
Definition block_form {A : Type} `{Arith A} (abc : A * A * A) : matrix A :=
  let '(a, b, c) := abc in
  let o := of_Z 0 in
  [ [a; o; o; b; o; o];
    [o; a; o; o; b; o];
    [o; o; a; o; o; b];
    [b; o; o; c; o; o];
    [o; b; o; o; c; o];
    [o; o; b; o; o; c] ].

(** The three entries of the covariance after [predict] and after
    [update_position], from the three entries before. *)
Definition predicted {A : Type} `{Arith A} (dt : A) (abc : A * A * A)
    : A * A * A :=
  let '(a, b, c) := abc in
  (a + (of_Z 1 + of_Z 1) * dt * b + dt * dt * c + lit 1 100, b + dt * c,
   c + lit 1 100)%py.

Definition updated {A : Type} `{Arith A} (abc : A * A * A) : A * A * A :=
  let '(a, b, c) := abc in
  let s := (a + lit 15 100)%py in
  (a - a * a / s, b - a * b / s, c - b * b / s)%py.

(** The filter [kf] has the matrices F, H, Q and R of the constructor, a
    state of six entries and the covariance [block_form abc]. *)
Definition tracks {A : Type} `{Arith A} (dt : A) (kf : KalmanFilter3D.t A)
    (abc : A * A * A) : Prop :=
  KalmanFilter3D.pos_F kf = KalmanFilter3D.pos_F (KalmanFilter3D.__init__ dt)
  /\ KalmanFilter3D.pos_H kf
     = KalmanFilter3D.pos_H (KalmanFilter3D.__init__ dt)
  /\ KalmanFilter3D.pos_Q kf
     = KalmanFilter3D.pos_Q (KalmanFilter3D.__init__ dt)
  /\ KalmanFilter3D.pos_R kf
     = KalmanFilter3D.pos_R (KalmanFilter3D.__init__ dt)
  /\ length (KalmanFilter3D.pos_state kf) = 6%nat
  /\ KalmanFilter3D.pos_P kf = block_form abc.

(** The conditions on the three entries under which [block_form abc] is
    positive semi-definite. *)
Definition block_psd (abc : Qc * Qc * Qc) : Prop :=
  let '(a, b, c) := abc in
  (Q2Qc 0 <= a /\ Q2Qc 0 <= c /\ b * b <= a * c)%Qc.

(** A measurement is a position: three coordinates. *)
Definition measurement_ok {A : Type} (s : kalman_step A) : Prop :=
  match s with
  | Predict => True
  | Update z => length z = 3%nat
  end.

(** The cursor of a source is 0 or leaves room for one more whole block
    after the one it points at. *)
Definition cursor_ok {A : Type} (self : AudioSource.t A) (n : nat) : Prop :=
  AudioSource.ptr self = 0%nat \/
  (AudioSource.ptr self + n < length (AudioSource.audio_data self))%nat.

(** The body of a loop that stores [f x] under [key x]. *)
Definition insert_body {V : Type} (f : Z -> py V) (key : Z -> Z)
    (acc : gmap Z V) (x : Z) : py (gmap Z V) :=
  v <- f x ;; ret (<[key x := v]> acc).
(** ** Playback

    The block of [n] samples that starts at [start], padded with zeros to
    [n] samples when the audio ends before it. *)
Definition padded_block {A : Type} `{Arith A} (data : list A)
    (start n : nat) : list A :=
  let c := slice data start n in c ++ np_zeros (n - length c).

(** The number of blocks of [n] samples in one loop of an audio of [L]
    samples. *)
Definition loop_blocks (L n : nat) : nat := Nat.max 1 ((L - 1) / n).

(** A host on which no file exists. *)
Definition no_files {A : Type} : Host A :=
  {| os_path_exists := fun _ => false;
     librosa_load := None;
     sf_read := fun _ => raise ValueError |}.

(** [k] successive calls of [get_active_source_chunk]: the engine they
    leave. *)
Fixpoint active_calls {A : Type} `{Arith A} (e : AudioEngine.t A) (k : nat)
    : py (AudioEngine.t A) :=
  match k with
  | O => ret e
  | S k' =>
      r <- AudioEngine.get_active_source_chunk e ;;
      active_calls (snd r) k'
  end.

(** The dict entry of a source for one block, and the source after it. *)
Definition entry_of {A : Type} `{Arith A} (n : nat) (s : AudioSource.t A)
    : DSPPipeline.source_entry A :=
  (AudioSource.name s,
   (fst (AudioSource.get_next_chunk s n), AudioSource.pos s)).

Definition advance {A : Type} `{Arith A} (n : nat) (s : AudioSource.t A)
    : AudioSource.t A :=
  snd (AudioSource.get_next_chunk s n).

(** Two short sources and an engine that owns them. *)
Definition two_sources : list (AudioSource.t float) :=
  [ {| AudioSource.name := "a"; AudioSource.pos := (0, 0, 0)%float;
       AudioSource.audio_data := [1; 2; 3; 4; 5; 6; 7]%float;
       AudioSource.ptr := 0%nat |};
    {| AudioSource.name := "b"; AudioSource.pos := (1, 0, 0)%float;
       AudioSource.audio_data := [8; 9]%float;
       AudioSource.ptr := 0%nat |} ].

Definition small_engine : AudioEngine.t float :=
  {| AudioEngine.sample_rate := 1; AudioEngine.chunk_size := 2%nat;
     AudioEngine.sources := two_sources; AudioEngine.active_idx := 0%nat;
     AudioEngine.samples_played := 0; AudioEngine.switch_threshold := 5;
     AudioEngine.mic_enabled := None |}.

(** Successive DMA requests: the controller they leave and what each one
    returned. *)
Fixpoint dma_calls {T : Type} (c : STM32_Controller.t T) (inputs : list T)
    : STM32_Controller.t T * list (py T) :=
  match inputs with
  | [] => (c, [])
  | x :: rest =>
      let (c1, out) := STM32_Controller.process_audio_dma c x in
      let (c2, outs) := dma_calls c1 rest in
      (c2, out :: outs)
  end.

(** A stream of blocks through the reverb: the outputs and the stage they
    leave. *)
Fixpoint reverb_run {A : Type} `{Arith A} (env : EnvironmentDSP.t A)
    (blocks : list (list A)) : py (list (list A) * EnvironmentDSP.t A) :=
  match blocks with
  | [] => ret ([], env)
  | x :: rest =>
      r <- EnvironmentDSP.apply_reverb env x ;;
      rs <- reverb_run (snd r) rest ;;
      ret (fst r :: fst rs, snd rs)
  end.

(** Successive audio callbacks of [frames] frames; before each one the
    timer interrupt has set the listener pose to the next element of
    [poses]. *)
Fixpoint audio_callbacks {A : Type} `{Arith A} `{Numpy A}
    (sys : MudumalaiSystem.t A) (frames : nat)
    (poses : list (vec3 A * Quaternion A))
    : py (list (list A * list A) * MudumalaiSystem.t A) :=
  match poses with
  | [] => ret ([], sys)
  | (pos, quat) :: rest =>
      r <- MudumalaiSystem._audio_callback
             {| MudumalaiSystem.audio := MudumalaiSystem.audio sys;
                MudumalaiSystem.pipeline := MudumalaiSystem.pipeline sys;
                MudumalaiSystem.current_pos := pos;
                MudumalaiSystem.current_quat := quat |} frames ;;
      rs <- audio_callbacks (snd r) frames rest ;;
      ret (fst r :: fst rs, snd rs)
  end.

(** Every source of the engine holds nothing but zeros. *)
Definition all_silent {A : Type} `{Arith A} (e : AudioEngine.t A) : Prop :=
  Forall (fun s => exists L, AudioSource.audio_data s = np_zeros L)
         (AudioEngine.sources e).

(** Two poses: facing ahead, and turned about the vertical axis. *)
Definition two_poses : list (vec3 Qc * Quaternion Qc) :=
  [ ((Q2Qc 0, Q2Qc 0, Q2Qc (8 # 5)),
     {| qw := Q2Qc 1; qx := Q2Qc 0; qy := Q2Qc 0; qz := Q2Qc 0 |});
    ((Q2Qc (1 # 10), Q2Qc 0, Q2Qc (8 # 5)),
     {| qw := Q2Qc (4 # 5); qx := Q2Qc 0; qy := Q2Qc 0;
        qz := Q2Qc (3 # 5) |}) ].

(** Successive [SensorFusion.update] calls: what each one returned and the
    fusion state they leave. *)
Fixpoint fusion_run {A : Type} `{Arith A} `{Numpy A} `{Pyquaternion A}
    (s : SensorFusion.t A) (data : list (SensorFusion.raw A))
    : py (list (list A * Quaternion A) * SensorFusion.t A) :=
  match data with
  | [] => ret ([], s)
  | d :: rest =>
      r <- SensorFusion.update s d ;;
      rs <- fusion_run (snd r) rest ;;
      ret (fst r :: fst rs, snd rs)
  end.

(** Raw data with both keys and a position of three coordinates. *)
Definition raw_ok {A : Type} (d : SensorFusion.raw A) : Prop :=
  (exists z, SensorFusion.raw_pos d = Some z /\ length z = 3%nat) /\
  (exists q, SensorFusion.raw_quat d = Some q).

(** A slerp to run the definitions with: the componentwise blend. *)
Definition blend_slerp {A : Type} `{Arith A} : Pyquaternion A :=
  {| quat_slerp q0 q1 t :=
       {| qw := (qw q0 + t * (qw q1 - qw q0))%py;
          qx := (qx q0 + t * (qx q1 - qx q0))%py;
          qy := (qy q0 + t * (qy q1 - qy q0))%py;
          qz := (qz q0 + t * (qz q1 - qz q0))%py |} |}.


(* ===================================================================== *)
(** * Properties *)
(* ===================================================================== *)

(** ** The error monad *)

Lemma bind_ret_inv {T U} (m : py T) (k : T -> py U) (u : U) :
  bind m k = inr u -> exists x, m = inr x /\ k x = inr u.
Proof. destruct m as [e|x]; cbn; [discriminate|eauto]. Qed.

(** ** binary64: multiplication by one, and the order on absolute values *)

Lemma digits2_pos_shift52 (m : positive) :
  Z.pos (digits2_pos (m * 4503599627370496)) = Z.pos (digits2_pos m) + 52.
Proof.
  rewrite !Pos.mul_xO_r, Pos.mul_1_r. cbn [digits2_pos].
  rewrite !Pos2Z.inj_succ. lia.
Qed.

(** The product of a valid double with the double [1 = 2^52 * 2^-52] is
    rounded back to the double itself. *)
Lemma SFmul_one (x : spec_float) :
  valid_binary x = true ->
  SF64mul x (S754_finite false 4503599627370496 (-52)) = x.
Proof.
  destruct x as [s|s| |s m e]; cbn [SF64mul SFmul]; intros Hv;
    try reflexivity; try (destruct s; reflexivity).
  unfold valid_binary, bounded, canonical_mantissa in Hv.
  apply andb_prop in Hv as [Hc Hb].
  apply Z.eqb_eq in Hc.
  unfold binary_round_aux, shr_fexp.
  cbn [Zdigits2]. rewrite digits2_pos_shift52.
  replace (Z.pos (digits2_pos m) + 52 + (e + -52))
    with (Z.pos (digits2_pos m) + e) by lia.
  rewrite Hc.
  replace (e - (e + -52)) with 52 by lia.
  rewrite !Pos.mul_xO_r, Pos.mul_1_r.
  cbn [shr shr_record_of_loc SpecFloat.iter_pos shr_1 shr_m shr_r shr_s orb
       loc_of_shr_record round_nearest_even].
  replace (e + -52 + 52) with e by lia.
  cbn [Zdigits2]. rewrite Hc, Z.sub_diag.
  cbn [shr shr_record_of_loc shr_m].
  rewrite Hb. destruct s; reflexivity.
Qed.

Lemma F_mul_one (x : float) : (x * 1)%float = x.
Proof.
  apply Prim2SF_inj. rewrite mul_spec.
  change (Prim2SF 1%float) with (S754_finite false 4503599627370496 (-52)).
  apply SFmul_one, Prim2SF_valid.
Qed.

Ltac sf_cases :=
  repeat match goal with
  | |- context [Z.compare ?a ?b] => destruct (Z.compare_spec a b)
  | |- context [Pos.compare_cont Eq ?a ?b] =>
      change (Pos.compare_cont Eq a b) with (Pos.compare a b);
      destruct (Pos.compare_spec a b)
  end; subst; try reflexivity; try lia.

Lemma sf_max_comm x y :
  sf_nonneg x = true -> sf_nonneg y = true -> sf_max x y = sf_max y x.
Proof.
  destruct x as [[]|[]| |[] mx ex], y as [[]|[]| |[] my ey];
    try discriminate; intros _ _; try reflexivity.
  unfold sf_max, SFleb, SFcompare. cbn [sf_is_nan orb]. sf_cases.
Qed.

Lemma sf_max_assoc x y z :
  sf_nonneg x = true -> sf_nonneg y = true -> sf_nonneg z = true ->
  sf_max (sf_max x y) z = sf_max x (sf_max y z).
Proof.
  destruct x as [[]|[]| |[] mx ex], y as [[]|[]| |[] my ey],
           z as [[]|[]| |[] mz ez];
    try discriminate; intros _ _ _; try reflexivity;
    unfold sf_max, SFleb, SFcompare; cbn [sf_is_nan orb]; sf_cases.
Qed.

Lemma SFeqb_refl_nan (x : spec_float) : negb (SFeqb x x) = sf_is_nan x.
Proof.
  destruct x as [s|s| |s m e]; try reflexivity; try (destruct s; reflexivity).
  unfold SFeqb, SFcompare. rewrite Z.compare_refl.
  change (Pos.compare_cont Eq m m) with (Pos.compare m m).
  rewrite Pos.compare_refl. destruct s; reflexivity.
Qed.

Lemma F_maximum_spec (a b : float) :
  Prim2SF (F_maximum a b) = sf_max (Prim2SF a) (Prim2SF b).
Proof.
  unfold F_maximum, is_nan, sf_max.
  rewrite FloatAxioms.eqb_spec, leb_spec, SFeqb_refl_nan.
  destruct (sf_is_nan (Prim2SF a) || SFleb (Prim2SF b) (Prim2SF a));
    reflexivity.
Qed.

Lemma F_abs_nonneg (x : float) : F_nonneg (abs x).
Proof.
  unfold F_nonneg. rewrite abs_spec. destruct (Prim2SF x); reflexivity.
Qed.

Lemma F_maximum_nonneg (a b : float) :
  F_nonneg a -> F_nonneg b -> F_nonneg (F_maximum a b).
Proof. unfold F_maximum. destruct (_ || _); auto. Qed.

Lemma F_maximum_comm (a b : float) :
  F_nonneg a -> F_nonneg b -> F_maximum a b = F_maximum b a.
Proof.
  intros Ha Hb. apply Prim2SF_inj. rewrite !F_maximum_spec.
  now apply sf_max_comm.
Qed.

Lemma F_maximum_assoc (a b c : float) :
  F_nonneg a -> F_nonneg b -> F_nonneg c ->
  F_maximum (F_maximum a b) c = F_maximum a (F_maximum b c).
Proof.
  intros Ha Hb Hc. apply Prim2SF_inj. rewrite !F_maximum_spec.
  now apply sf_max_assoc.
Qed.

(* --------------------------------------------------------------------- *)
(** ** AudioSource.get_next_chunk *)
(* --------------------------------------------------------------------- *)

(** C1 (the code departs from the claim).  A source of three samples read
    one sample at a time: the first call returns sample 0 and moves the
    cursor to 1; at cursor 1 the request still fits ([1 + 1 <= 3]) and the
    call returns sample 1, but it puts the cursor back to 0 instead of
    advancing it to 2, because the wrap test looks one block ahead; the
    third call returns sample 0 again.  Sample 2 is never delivered and no
    zero-padded tail is ever produced. *)
Lemma get_next_chunk_resets_one_block_early :
  let r1 := AudioSource.get_next_chunk three_samples 1 in
  let r2 := AudioSource.get_next_chunk (snd r1) 1 in
  let r3 := AudioSource.get_next_chunk (snd r2) 1 in
  fst r1 = [10]%float /\ AudioSource.ptr (snd r1) = 1%nat /\
  fst r2 = [20]%float /\ AudioSource.ptr (snd r2) = 0%nat /\
  fst r3 = [10]%float /\
  fst (AudioSource.play three_samples 1 6)
  = [[10]; [20]; [10]; [20]; [10]; [20]]%float.
Proof. vm_compute. repeat split. Qed.

Section GetNextChunk.
Context {A : Type} `{Arith A}.
Implicit Types self : AudioSource.t A.

Lemma get_next_chunk_cursor self n :
  AudioSource.audio_data (snd (AudioSource.get_next_chunk self n))
  = AudioSource.audio_data self /\
  cursor_ok (snd (AudioSource.get_next_chunk self n)) n.
Proof.
  unfold cursor_ok, AudioSource.get_next_chunk; cbn.
  split; [reflexivity|].
  destruct (Nat.leb_spec (length (AudioSource.audio_data self))
              (AudioSource.ptr self + n + n)); [left; reflexivity|].
  right. lia.
Qed.

Lemma get_next_chunk_window self n :
  (n < length (AudioSource.audio_data self))%nat ->
  cursor_ok self n ->
  fst (AudioSource.get_next_chunk self n)
  = slice (AudioSource.audio_data self) (AudioSource.ptr self) n /\
  (AudioSource.ptr self + n < length (AudioSource.audio_data self))%nat.
Proof.
  intros Hn Hc. unfold AudioSource.get_next_chunk; cbv zeta; cbn [fst].
  assert (Hfit : (AudioSource.ptr self + n
                  < length (AudioSource.audio_data self))%nat)
    by (destruct Hc as [-> | Hc]; lia).
  split; [|exact Hfit].
  assert (Hlen : length (slice (AudioSource.audio_data self)
                           (AudioSource.ptr self) n) = n).
  { unfold slice. rewrite length_take, length_drop. lia. }
  rewrite Hlen, Nat.ltb_irrefl. reflexivity.
Qed.

(** Whatever the number of calls, no returned block reaches the last
    sample of a buffer longer than one block: every block is a window
    [samples[p : p+n]] with [p + n < N], and none is padded. *)
Lemma play_never_reaches_last_sample self n k :
  (n < length (AudioSource.audio_data self))%nat ->
  cursor_ok self n ->
  Forall (fun chunk =>
            exists p, (p + n < length (AudioSource.audio_data self))%nat /\
                      chunk = slice (AudioSource.audio_data self) p n)
         (fst (AudioSource.play self n k)).
Proof.
  revert self. induction k as [|k IH]; intros self Hn Hc;
    cbn [AudioSource.play].
  - constructor.
  - destruct (AudioSource.get_next_chunk self n) as [c self1] eqn:E.
    pose proof (get_next_chunk_cursor self n) as [Hd Hc1].
    pose proof (get_next_chunk_window self n Hn Hc) as [Hw Hfit].
    rewrite E in Hd, Hc1, Hw. cbn in Hd, Hc1, Hw.
    specialize (IH self1). rewrite Hd in IH.
    destruct (AudioSource.play self1 n k) as [cs self2]. cbn in *.
    constructor; [eauto|]. apply IH; assumption.
Qed.
End GetNextChunk.

(* --------------------------------------------------------------------- *)
(** ** EnvironmentDSP.apply_eq *)
(* --------------------------------------------------------------------- *)

(** The gain of the equaliser at unit band gains, evaluated in binary64. *)
Lemma unit_gain :
  add (add (mul 1%float (lit 4 10)) (mul 1%float (lit 4 10)))
      (mul 1%float (lit 2 10)) = 1%float.
Proof. vm_compute. reflexivity. Qed.

(** C7.  In binary64, with the three band gains equal to 1.0, [apply_eq]
    returns its input block unchanged, sample for sample: the gain
    [1.0*0.4 + 1.0*0.4 + 1.0*0.2] evaluates to exactly 1.0 and a double
    times 1.0 is the same double (signed zeros, infinities and NaN
    included; Rocq's doubles have a single NaN). *)
Theorem apply_eq_identity (env : EnvironmentDSP.t float) (x : list float) :
  EnvironmentDSP.low_gain env = 1%float ->
  EnvironmentDSP.mid_gain env = 1%float ->
  EnvironmentDSP.high_gain env = 1%float ->
  EnvironmentDSP.apply_eq env x = x.
Proof.
  intros Hl Hm Hh. unfold EnvironmentDSP.apply_eq. rewrite Hl, Hm, Hh.
  rewrite unit_gain.
  induction x as [|a x IH]; cbn; [reflexivity|].
  change (mul a 1%float) with (a * 1)%float.
  rewrite F_mul_one. f_equal. exact IH.
Qed.

Lemma apply_eq_identity_witness :
  EnvironmentDSP.__init__ 8 = inr env_8 /\
  EnvironmentDSP.apply_eq env_8 [0.5; -0.25; 3]%float = [0.5; -0.25; 3]%float.
Proof.
  split; [vm_compute; reflexivity|].
  apply (apply_eq_identity env_8); reflexivity.
Defined.

(* --------------------------------------------------------------------- *)
(** ** KalmanFilter3D.__init__ *)
(* --------------------------------------------------------------------- *)

(** C5, as stated, fails: the measurement noise the constructor builds is
    not the diagonal matrix with entries 0.15^2 (nor 0.0225). *)
Lemma kalman_R_is_not_squared :
  ~ (KalmanFilter3D.pos_R (KalmanFilter3D.__init__ 0.01%float)
     = diagonal 3 (0.15 * 0.15)%float) /\
  ~ (KalmanFilter3D.pos_R (KalmanFilter3D.__init__ 0.01%float)
     = diagonal 3 0.0225%float).
Proof.
  split; intros E;
    apply (f_equal (fun m => PrimFloat.eqb (mget m 0 0) 0.15)) in E;
    vm_compute in E; discriminate E.
Qed.

(** C5, amended.  For every time step [dt] the constructor sets the
    process noise Q to the 6 by 6 diagonal matrix with entries 0.01 and the
    measurement noise R to the 3 by 3 diagonal matrix with entries 0.15
    (not squared), in binary64. *)
Theorem kalman_init_noise (dt : float) :
  KalmanFilter3D.pos_Q (KalmanFilter3D.__init__ dt) = diagonal 6 0.01%float /\
  KalmanFilter3D.pos_R (KalmanFilter3D.__init__ dt) = diagonal 3 0.15%float.
Proof. split; vm_compute; reflexivity. Qed.

(** The same constants in exact arithmetic: 1/100 and 3/20. *)
Lemma kalman_init_noise_exact (dt : Qc) :
  KalmanFilter3D.pos_Q (KalmanFilter3D.__init__ dt)
  = diagonal 6 (Q2Qc (1 # 100)) /\
  KalmanFilter3D.pos_R (KalmanFilter3D.__init__ dt)
  = diagonal 3 (Q2Qc (3 # 20)).
Proof.
  split; cbv [KalmanFilter3D.pos_Q KalmanFilter3D.pos_R KalmanFilter3D.__init__
              diagonal mscale np_eye map seq Nat.eqb];
    repeat (f_equal; try (apply Qc_is_canon; reflexivity)).
Qed.

(* --------------------------------------------------------------------- *)
(** ** CrosstalkCanceller.process *)
(* --------------------------------------------------------------------- *)

Section MaxOfAbsoluteValues.
Context {A : Type} `{Arith A}.
Variable nonneg : A -> Prop.
Hypothesis abs_nonneg : forall x, nonneg (absv x).
Hypothesis max_nonneg :
  forall a b, nonneg a -> nonneg b -> nonneg (maximum a b).
Hypothesis max_comm :
  forall a b, nonneg a -> nonneg b -> maximum a b = maximum b a.
Hypothesis max_assoc :
  forall a b c, nonneg a -> nonneg b -> nonneg c ->
    maximum (maximum a b) c = maximum a (maximum b c).

Lemma foldl_max_nonneg (a : A) (l : list A) :
  nonneg a -> Forall nonneg l -> nonneg (foldl maximum a l).
Proof.
  revert a. induction l as [|x l IH]; intros a Ha Hl; cbn; [exact Ha|].
  inversion Hl; subst. apply IH; auto.
Qed.

Lemma foldl_max_pull (a b : A) (l : list A) :
  nonneg a -> nonneg b -> Forall nonneg l ->
  foldl maximum (maximum a b) l = maximum a (foldl maximum b l).
Proof.
  revert b. induction l as [|x l IH]; intros b Ha Hb Hl; cbn; [reflexivity|].
  inversion Hl; subst. rewrite max_assoc by assumption.
  apply IH; auto.
Qed.

(** [np.max] does not see the order in which two rows are stacked. *)
Lemma np_max_app_comm (u v : list A) :
  Forall nonneg u -> Forall nonneg v -> np_max (u ++ v) = np_max (v ++ u).
Proof.
  intros Hu Hv.
  destruct u as [|a u]; [now rewrite app_nil_r|].
  destruct v as [|b v]; [now rewrite app_nil_r|].
  inversion Hu; subst. inversion Hv; subst.
  cbn. f_equal. rewrite !foldl_app. cbn.
  rewrite !foldl_max_pull by (auto using foldl_max_nonneg).
  apply max_comm; auto using foldl_max_nonneg.
Qed.

Lemma Forall_nonneg_abs (l : list A) : Forall nonneg (map absv l).
Proof. induction l; cbn; constructor; auto. Qed.

Lemma process_swap (self : CrosstalkCanceller.t A) (l r : list A) :
  CrosstalkCanceller.process self r l
  = swap_channels (CrosstalkCanceller.process self l r).
Proof.
  unfold CrosstalkCanceller.process.
  destruct (broadcast2 sub (map _ l) (map _ r)) as [e1|l_out] eqn:El;
    destruct (broadcast2 sub (map _ r) (map _ l)) as [e2|r_out] eqn:Er;
    cbn [bind swap_channels].
  - unfold broadcast2 in El, Er. rewrite !length_map in El, Er.
    rewrite (Nat.eqb_sym (length r)) in Er.
    destruct (length l =? length r)%nat; [discriminate|].
    destruct l as [|? [|? ?]], r as [|? [|? ?]]; cbn in El, Er;
      try discriminate; congruence.
  - reflexivity.
  - unfold broadcast2 in El, Er. rewrite !length_map in El, Er.
    rewrite (Nat.eqb_sym (length r)) in Er.
    destruct (length l =? length r)%nat; [discriminate|].
    destruct l as [|? [|? ?]], r as [|? [|? ?]]; cbn in El, Er;
      discriminate.
  - rewrite !map_app.
    rewrite (np_max_app_comm (map absv r_out) (map absv l_out))
      by apply Forall_nonneg_abs.
    destruct (np_max (map absv l_out ++ map absv r_out)) as [e|m];
      cbn [bind swap_channels]; [reflexivity|].
    destruct (ltb (of_Z 1) m); reflexivity.
Qed.
End MaxOfAbsoluteValues.

(** C8.  In binary64, for every pair of input blocks, running the
    crosstalk stage on the swapped inputs gives exactly the swapped result
    of running it on the inputs: the same exception if [process(l, r)]
    raises (blocks of lengths that do not broadcast, or empty blocks), and
    otherwise [(R, L)] where [process(l, r) = (L, R)]. *)
Theorem ctc_symmetry (self : CrosstalkCanceller.t float) (l r : list float) :
  CrosstalkCanceller.process self r l
  = swap_channels (CrosstalkCanceller.process self l r).
Proof.
  apply (process_swap F_nonneg).
  - exact F_abs_nonneg.
  - exact F_maximum_nonneg.
  - exact F_maximum_comm.
  - exact F_maximum_assoc.
Qed.

(* --------------------------------------------------------------------- *)
(** ** The reverb stage of the pipeline *)
(* --------------------------------------------------------------------- *)

(** C2, as stated, fails.  There is one reverb buffer and one cursor, and
    the left channel's call changes both before the right channel's call
    runs (buffer [0,0,0,0] and cursor 0 become [1,0,0,0] and 1).  And the
    right output depends on the left input: with a four-sample buffer and
    one-sample blocks, two runs that feed the right channel the same
    (silent) input in both blocks but differ in the left input of the first
    block give different right outputs in the second block, 0.4 against 0. *)
Lemma reverb_buffer_is_shared_between_channels :
  EnvironmentDSP.apply_reverb env_8 [1]%float
  = inr ([1]%float,
         EnvironmentDSP.with_reverb env_8 [1; 0; 0; 0]%float 1%nat) /\
  right_of_second_block env_8 ([1], [0])%float ([0], [0])%float
  = inr [0.4]%float /\
  right_of_second_block env_8 ([0], [0])%float ([0], [0])%float
  = inr [0]%float.
Proof. vm_compute. repeat split. Qed.

Section Reverb.
Context {A : Type} `{Arith A}.
Implicit Types env : EnvironmentDSP.t A.

Lemma length_slice_inside {T} (b : list T) (p n : nat) :
  (p + n <= length b)%nat -> length (slice b p n) = n.
Proof. intros Hle. unfold slice. rewrite length_take, length_drop. lia. Qed.

(** With the window inside the buffer and a block shorter than the buffer,
    [apply_reverb] does not raise and performs [reverb_step]. *)
Lemma apply_reverb_step env (x : list A) :
  (length x < length (EnvironmentDSP.reverb_buffer env))%nat ->
  (EnvironmentDSP.ptr env + length x
   <= length (EnvironmentDSP.reverb_buffer env))%nat ->
  let s := reverb_step (EnvironmentDSP.reverb_decay env)
             (EnvironmentDSP.reverb_buffer env, EnvironmentDSP.ptr env) x in
  EnvironmentDSP.apply_reverb env x
  = inr (fst s, EnvironmentDSP.with_reverb env (fst (snd s)) (snd (snd s))).
Proof.
  intros Hlt Hin. cbv zeta. unfold EnvironmentDSP.apply_reverb, reverb_step.
  cbn [fst snd].
  set (b := EnvironmentDSP.reverb_buffer env) in *.
  set (p := EnvironmentDSP.ptr env) in *.
  unfold broadcast2, set_slice.
  rewrite length_map, !length_slice_inside, !Nat.eqb_refl by assumption.
  cbn [bind ret].
  destruct (Z.eqb_spec (Z.of_nat (length b) - Z.of_nat (length x)) 0) as [E|E];
    [lia|].
  unfold ret. do 3 f_equal.
  rewrite <- Nat2Z.inj_add, <- Nat2Z.inj_sub by lia.
  rewrite <- Nat2Z.inj_mod. apply Nat2Z.id.
Qed.

Lemma reverb_step_cursor (decay : A) (b : list A) (p : nat) (x : list A) :
  (length x < length b)%nat -> (p + length x <= length b)%nat ->
  let s := snd (reverb_step decay (b, p) x) in
  length (fst s) = length b /\ (snd s + length x < length b)%nat.
Proof.
  intros Hlt Hin. unfold reverb_step. cbn [fst snd]. split.
  - rewrite !length_app, length_take, length_drop. lia.
  - pose proof (Nat.mod_upper_bound (p + length x) (length b - length x)).
    lia.
Qed.

Lemma apply_eq_with_reverb env (b : list A) (p : nat) (x : list A) :
  EnvironmentDSP.apply_eq (EnvironmentDSP.with_reverb env b p) x
  = EnvironmentDSP.apply_eq env x.
Proof. reflexivity. Qed.

Lemma length_apply_eq env (x : list A) :
  length (EnvironmentDSP.apply_eq env x) = length x.
Proof. unfold EnvironmentDSP.apply_eq. apply length_map. Qed.

(** C2, amended.  The reverb stage keeps one circular buffer and one write
    cursor, used by both channels in turn: in every rendered block the
    left channel's reverb step runs on the state [(b, p)] left by the
    previous block, and the right channel's reverb step runs on the state
    the left step has just produced (the equalised left block written over
    [b[p : p+N]], the cursor moved to [(p + N) mod (B - N)]); the state
    after the block is the one the right step produces.  This holds for
    blocks of equal length [N < B] whenever the cursor window lies inside
    the buffer. *)
Theorem post_mix_threads_one_reverb_state env (mixed_l mixed_r : list A) :
  length mixed_r = length mixed_l ->
  (length mixed_l < length (EnvironmentDSP.reverb_buffer env))%nat ->
  (EnvironmentDSP.ptr env + length mixed_l
   <= length (EnvironmentDSP.reverb_buffer env))%nat ->
  let decay := EnvironmentDSP.reverb_decay env in
  let left := reverb_step decay
                (EnvironmentDSP.reverb_buffer env, EnvironmentDSP.ptr env)
                (EnvironmentDSP.apply_eq env mixed_l) in
  let right := reverb_step decay (snd left)
                 (EnvironmentDSP.apply_eq env mixed_r) in
  DSPPipeline.post_mix env (mixed_l, mixed_r)
  = inr ((fst left, fst right),
         EnvironmentDSP.with_reverb env (fst (snd right)) (snd (snd right))).
Proof.
  intros Hlen Hlt Hin. cbv zeta. unfold DSPPipeline.post_mix. cbn [fst snd].
  rewrite apply_reverb_step by (rewrite length_apply_eq; assumption).
  cbn [bind fst snd].
  set (sl := reverb_step _ _ (EnvironmentDSP.apply_eq env mixed_l)).
  pose proof (reverb_step_cursor (EnvironmentDSP.reverb_decay env)
                (EnvironmentDSP.reverb_buffer env) (EnvironmentDSP.ptr env)
                (EnvironmentDSP.apply_eq env mixed_l)) as Hc.
  rewrite length_apply_eq in Hc. specialize (Hc Hlt Hin).
  cbv zeta in Hc. fold sl in Hc. destruct Hc as [Hb Hp].
  rewrite apply_eq_with_reverb.
  rewrite apply_reverb_step;
    cbn [EnvironmentDSP.with_reverb EnvironmentDSP.reverb_buffer
         EnvironmentDSP.ptr EnvironmentDSP.reverb_decay];
    rewrite ?length_apply_eq, ?Hlen; try lia.
  cbn [bind fst snd]. unfold ret.
  destruct (snd sl) as [b1 p1]. reflexivity.
Qed.
End Reverb.

Lemma post_mix_threads_one_reverb_state_witness :
  DSPPipeline.post_mix env_8 ([1], [0])%float
  = inr (([1], [0])%float,
         EnvironmentDSP.with_reverb env_8 [1; 0; 0; 0]%float 2%nat).
Proof.
  rewrite (post_mix_threads_one_reverb_state env_8 [1]%float [0]%float);
    [vm_compute; reflexivity | reflexivity | cbn; lia | cbn; lia].
Defined.

(* --------------------------------------------------------------------- *)
(** ** HRTF_Engine.get_nearest_hrtf: the nearest grid direction *)
(* --------------------------------------------------------------------- *)

(** Exact rationals behind the [exact] instance. *)
Lemma this_Q2Qc (q : Q) : (this (Q2Qc q) == q)%Q.
Proof. apply Qred_correct. Qed.

Lemma this_plus (x y : Qc) : (this (x + y)%Qc == this x + this y)%Q.
Proof. apply Qred_correct. Qed.

Lemma this_minus (x y : Qc) : (this (x - y)%Qc == this x - this y)%Q.
Proof.
  unfold Qcminus, Qcopp. rewrite this_plus, this_Q2Qc. reflexivity.
Qed.

Lemma this_mult (x y : Qc) : (this (x * y)%Qc == this x * this y)%Q.
Proof. apply Qred_correct. Qed.

Lemma this_div (x y : Qc) : (this (x / y)%Qc == this x / this y)%Q.
Proof.
  unfold Qcdiv, Qcinv. rewrite this_mult, this_Q2Qc. reflexivity.
Qed.

Lemma this_of_Z (z : Z) : (this (of_Z z : Qc) == inject_Z z)%Q.
Proof. apply Qred_correct. Qed.



Lemma inject_Z_lt_inv (a b : Z) : (inject_Z a < inject_Z b)%Q -> a < b.
Proof. rewrite <- Zlt_Qlt. auto. Qed.


(** [x % 360] lies in [0, 360) and differs from [x] by a multiple of 360. *)
Lemma Qc_mod_360 (x : Qc) :
  let k := Qfloor (this (x / of_Z 360)%Qc) in
  (this (Qc_mod x (of_Z 360)) == this x - 360 * inject_Z k)%Q /\
  (0 <= this (Qc_mod x (of_Z 360)))%Q /\
  (this (Qc_mod x (of_Z 360)) < 360)%Q.
Proof.
  cbv zeta. unfold Qc_mod.
  set (k := Qfloor (this (x / of_Z 360)%Qc)).
  assert (E : (this (x - of_Z 360 * Q2Qc (inject_Z k))%Qc
               == this x - 360 * inject_Z k)%Q).
  { rewrite this_minus, this_mult, this_Q2Qc, this_of_Z. reflexivity. }
  pose proof (Qfloor_le (this (x / of_Z 360)%Qc)) as Hlo.
  pose proof (Qlt_floor (this (x / of_Z 360)%Qc)) as Hhi.
  fold k in Hlo, Hhi.
  rewrite inject_Z_plus in Hhi. change (inject_Z 1) with 1%Q in Hhi.
  rewrite this_div, this_of_Z in Hlo, Hhi.
  change (inject_Z 360) with 360%Q in Hlo, Hhi.
  assert (Hx : (this x == 360 * (this x / 360))%Q) by (field).
  split; [exact E|]. rewrite E. split; lra.
Qed.

Lemma this_opp (x : Qc) : (this (- x)%Qc == - this x)%Q.
Proof. apply Qred_correct. Qed.


(** The indices [nearest_index] computes, in exact arithmetic. *)
Lemma nearest_index_exact (az el : Qc) :
  HRTF_Engine.nearest_index az el
  = inr (Qround_half_even (this (Qc_mod az (of_Z 360) / of_Z 15)%Qc) mod 24,
         Z.max 0 (Z.min 11
           (Qround_half_even (this ((el + of_Z 90) / of_Z 15)%Qc)))).
Proof. reflexivity. Qed.




(* --------------------------------------------------------------------- *)
(** ** The synthetic HRTF database *)
(* --------------------------------------------------------------------- *)

Section Loops.
Context {T S : Type}.

(** A loop whose body never raises does not raise. *)
Lemma for_each_returns (body : S -> T -> py S) (xs : list T) (s : S) :
  (forall acc x, x ∈ xs -> exists acc', body acc x = inr acc') ->
  exists r, for_each body xs s = inr r.
Proof.
  revert s. induction xs as [|x xs IH]; intros s Hb; cbn.
  - eexists; reflexivity.
  - destruct (Hb s x) as [s' E]; [left|]. rewrite E. cbn.
    apply IH. intros acc y Hy. apply Hb. now right.
Qed.
End Loops.

Section InsertLoop.
Context {V : Type}.
Variable f : Z -> py V.
Variable key : Z -> Z.
Variable P : V -> Prop.

(** Entries present before the loop are still there after it, possibly
    overwritten by a later iteration. *)
Lemma insert_loop_keeps (xs : list Z) (m0 m : gmap Z V) (k : Z) :
  (forall x v, x ∈ xs -> f x = inr v -> P v) ->
  for_each (insert_body f key) xs m0 = inr m ->
  (exists v, m0 !! k = Some v /\ P v) ->
  exists v, m !! k = Some v /\ P v.
Proof.
  revert m0. induction xs as [|x xs IH]; intros m0 HP E Hk; cbn in E.
  - injection E as <-. exact Hk.
  - unfold insert_body at 1 in E.
    destruct (f x) as [e|v] eqn:Ef; cbn in E; [discriminate|].
    apply (IH (<[key x := v]> m0)); [| exact E |].
    + intros y w Hy. apply HP. now right.
    + destruct (decide (key x = k)) as [<-|Hne].
      * exists v. rewrite lookup_insert_eq. split; [reflexivity|].
        apply (HP x); [left | exact Ef].
      * rewrite lookup_insert_ne by exact Hne. exact Hk.
Qed.

(** After the loop every key of the range is present. *)
Lemma insert_loop_keys (xs : list Z) (m0 m : gmap Z V) (x : Z) :
  (forall y v, y ∈ xs -> f y = inr v -> P v) ->
  for_each (insert_body f key) xs m0 = inr m ->
  x ∈ xs ->
  exists v, m !! key x = Some v /\ P v.
Proof.
  revert m0. induction xs as [|y xs IH]; intros m0 HP E Hx.
  - inversion Hx.
  - cbn in E. unfold insert_body at 1 in E.
    destruct (f y) as [e|v] eqn:Ef; cbn in E; [discriminate|].
    apply elem_of_cons in Hx as [->|Hx].
    + apply (insert_loop_keeps xs (<[key y := v]> m0) m); [| exact E |].
      * intros z w Hz. apply HP. now right.
      * exists v. rewrite lookup_insert_eq. split; [reflexivity|].
        apply (HP y); [left | exact Ef].
    + apply (IH (<[key y := v]> m0)); [| exact E | exact Hx].
      intros z w Hz. apply HP. now right.
Qed.
End InsertLoop.

Section Database.
Context {A : Type} `{Arith A} `{Numpy A}.

Lemma length_np_zeros (n : nat) : length (np_zeros n : list A) = n.
Proof. apply length_replicate. Qed.

Lemma set_index_returns (a : list A) (i : nat) (v : A) :
  (i < length a)%nat -> set_index a i v = inr (<[i := v]> a).
Proof.
  intros Hi. unfold set_index.
  destruct (Nat.ltb_spec i (length a)); [reflexivity|lia].
Qed.

Lemma iadd_returns (a b : list A) :
  length b = length a -> iadd a b = inr (zip_with add a b).
Proof. intros E. unfold iadd. rewrite E, Nat.eqb_refl. reflexivity. Qed.

Lemma fft_returns (x : list A) (n : nat) :
  n <> 0%nat -> exists X, HRTF_Engine.fft x n = inr X /\ length X = n.
Proof.
  intros Hn. unfold HRTF_Engine.fft.
  destruct (Nat.eqb_spec n 0); [contradiction|].
  eexists. split; [reflexivity|].
  unfold HRTF_Engine.dft. rewrite length_map, length_seq, length_map,
    length_app, length_take, length_np_zeros. lia.
Qed.

Lemma idx_l_ge (itd : Z) : 100 <= HRTF_Engine.idx_l itd.
Proof.
  unfold HRTF_Engine.idx_l. destruct (Z.ltb_spec 0 itd); [|lia].
  pose proof (Z.div_pos itd 2). lia.
Qed.

Lemma idx_r_ge (itd : Z) : 100 <= HRTF_Engine.idx_r itd.
Proof.
  unfold HRTF_Engine.idx_r. destruct (Z.ltb_spec itd 0); [|lia].
  pose proof (Z.div_pos (- itd) 2). lia.
Qed.

Lemma impulse_responses_returns (sample_rate : Z) (filter_length : nat)
    (azimuth itd : Z) :
  HRTF_Engine.idx_l itd < Z.of_nat filter_length ->
  HRTF_Engine.idx_r itd < Z.of_nat filter_length ->
  exists ir,
    HRTF_Engine.impulse_responses sample_rate filter_length azimuth itd
    = inr ir.
Proof.
  intros Hl Hr. unfold HRTF_Engine.impulse_responses.
  pose proof (idx_l_ge itd). pose proof (idx_r_ge itd).
  rewrite !set_index_returns by (rewrite length_np_zeros; lia).
  cbn [bind].
  rewrite !iadd_returns
    by (rewrite length_map, length_seqZ, length_insert, length_np_zeros; lia).
  cbn [bind]. eexists; reflexivity.
Qed.

Lemma synthetic_pair_returns (sample_rate : Z) (fft_size filter_length : nat)
    (azimuth itd : Z) :
  HRTF_Engine.itd_samples sample_rate azimuth = inr itd ->
  HRTF_Engine.idx_l itd < Z.of_nat filter_length ->
  HRTF_Engine.idx_r itd < Z.of_nat filter_length ->
  fft_size <> 0%nat ->
  exists sp,
    HRTF_Engine.synthetic_pair sample_rate fft_size filter_length azimuth
    = inr sp.
Proof.
  intros Ei Hl Hr Hn. unfold HRTF_Engine.synthetic_pair. rewrite Ei. cbn [bind].
  destruct (impulse_responses_returns sample_rate filter_length azimuth itd
              Hl Hr) as [ir ->]. cbn [bind].
  destruct (fft_returns (fst ir) fft_size Hn) as (sl & -> & _).
  destruct (fft_returns (snd ir) fft_size Hn) as (sr & -> & _).
  cbn [bind]. eexists; reflexivity.
Qed.
Lemma fft_length (x : list A) (n : nat) (X : list (HRTF_Engine.complex)) :
  HRTF_Engine.fft x n = inr X -> length X = n /\ n <> 0%nat.
Proof.
  unfold HRTF_Engine.fft. destruct (Nat.eqb_spec n 0); [discriminate|].
  intros E. injection E as <-. split; [|assumption].
  unfold HRTF_Engine.dft. rewrite length_map, length_seq, length_map,
    length_app, length_take, length_np_zeros. lia.
Qed.

Lemma synthetic_pair_lengths (sample_rate : Z) (fft_size filter_length : nat)
    (azimuth : Z) (sp : HRTF_Engine.spectra A) :
  HRTF_Engine.synthetic_pair sample_rate fft_size filter_length azimuth
  = inr sp ->
  length (fst sp) = fft_size /\ length (snd sp) = fft_size.
Proof.
  unfold HRTF_Engine.synthetic_pair. intros E.
  apply bind_ret_inv in E as (itd & _ & E).
  apply bind_ret_inv in E as (ir & _ & E).
  apply bind_ret_inv in E as (sl & El & E).
  apply bind_ret_inv in E as (sr & Er & E).
  injection E as <-. cbn [fst snd].
  apply fft_length in El as [El _]. apply fft_length in Er as [Er _].
  split; assumption.
Qed.

(** Every row of the database has the [num_azimuth] azimuth keys, the
    database has the [num_elevation] elevation keys, and every stored
    spectrum has [fft_size] points. *)
Lemma generated_db_keys (sample_rate : Z) (fft_size : nat)
    (num_azimuth num_elevation : Z) (filter_length : nat)
    (db : gmap Z (gmap Z (HRTF_Engine.spectra A))) (i j : Z) :
  HRTF_Engine._generate_synthetic_hrtf sample_rate fft_size num_azimuth
    num_elevation filter_length = inr db ->
  0 <= i < num_azimuth -> 0 <= j < num_elevation ->
  exists row sp,
    db !! (j * 15 - 90) = Some row /\ row !! (i * 15) = Some sp /\
    length (fst sp) = fft_size /\ length (snd sp) = fft_size.
Proof.
  intros E Hi Hj. unfold HRTF_Engine._generate_synthetic_hrtf in E.
  set (pair_of := fun az => HRTF_Engine.synthetic_pair sample_rate fft_size
                              filter_length (az * 15)).
  set (good := fun sp : HRTF_Engine.spectra A =>
                 length (fst sp) = fft_size /\ length (snd sp) = fft_size).
  set (row_of := fun _ : Z =>
         for_each (insert_body pair_of (fun az => az * 15))
           (seqZ 0 num_azimuth) ∅).
  destruct (insert_loop_keys row_of (fun el => el * 15 - 90)
              (fun row => exists sp, row !! (i * 15) = Some sp /\ good sp)
              (seqZ 0 num_elevation) ∅ db j) as (row & Hrow & sp & Hsp & Hg).
  - intros el row _ Erow. unfold row_of in Erow.
    apply (insert_loop_keys pair_of (fun az => az * 15) good
             (seqZ 0 num_azimuth) ∅ row i); [| exact Erow |].
    + intros az sp _ Esp. apply (synthetic_pair_lengths _ _ _ _ _ Esp).
    + apply elem_of_seqZ. lia.
  - exact E.
  - apply elem_of_seqZ. lia.
  - destruct Hg. eauto 10.
Qed.
End Database.

Section DatabaseConstruction.
Context {A : Type} `{Arith A} `{Numpy A}.

(** The constructor returns whenever the impulse positions fit and the
    transform length is not zero. *)
Lemma bind_returns {T U} (m : py T) (k : T -> py U) :
  (exists x, m = inr x) -> (forall x, exists y, k x = inr y) ->
  exists y, bind m k = inr y.
Proof. intros [x ->] Hk. cbn. apply Hk. Qed.

Lemma hrtf_init_returns (sample_rate : Z) (fft_size : nat) :
  grid_fits sample_rate 1024 = true -> fft_size <> 0%nat ->
  exists eng, HRTF_Engine.__init__ sample_rate fft_size = inr eng.
Proof.
  intros Hg Hn. unfold HRTF_Engine.__init__.
  apply bind_returns; [|intros db; eexists; reflexivity].
  unfold HRTF_Engine._generate_synthetic_hrtf.
  apply for_each_returns. intros acc el _.
  apply bind_returns; [|intros row; eexists; reflexivity].
  apply for_each_returns. intros row az Haz.
  apply bind_returns; [|intros sp; eexists; reflexivity].
  unfold grid_fits in Hg. rewrite forallb_forall in Hg.
  specialize (Hg az). rewrite <- list_elem_of_In in Hg.
  specialize (Hg Haz).
  destruct (HRTF_Engine.itd_samples sample_rate (az * 15))
    as [e|itd] eqn:Ei; [discriminate|].
  apply andb_prop in Hg as [Hl Hr].
  apply Z.ltb_lt in Hl, Hr.
  exact (synthetic_pair_returns sample_rate fft_size 1024 (az * 15)
           itd Ei Hl Hr Hn).
Qed.

Lemma hrtf_init_db (sample_rate : Z) (fft_size : nat) (eng : HRTF_Engine.t A) :
  HRTF_Engine.__init__ sample_rate fft_size = inr eng ->
  HRTF_Engine._generate_synthetic_hrtf sample_rate fft_size 24 12 1024
  = inr (HRTF_Engine.hrtf_db eng) /\
  HRTF_Engine.fft_size eng = fft_size.
Proof.
  unfold HRTF_Engine.__init__. intros E.
  destruct (HRTF_Engine._generate_synthetic_hrtf _ _ _ _ _) as [e|db];
    cbn in E; [discriminate|].
  injection E as <-. split; reflexivity.
Qed.

(** Every grid direction has an entry in the database of a constructed
    engine. *)
Lemma db_lookup_grid (sample_rate : Z) (fft_size : nat)
    (eng : HRTF_Engine.t A) (i j : Z) :
  HRTF_Engine.__init__ sample_rate fft_size = inr eng ->
  0 <= i < 24 -> 0 <= j <= 11 ->
  exists row sp,
    HRTF_Engine.hrtf_db eng !! (j * 15 - 90) = Some row /\
    row !! (i * 15) = Some sp /\
    HRTF_Engine.db_lookup (HRTF_Engine.hrtf_db eng) (j * 15 - 90) (i * 15)
    = inr sp /\
    length (fst sp) = fft_size /\ length (snd sp) = fft_size.
Proof.
  intros E Hi Hj. apply hrtf_init_db in E as [E _].
  destruct (generated_db_keys _ _ _ _ _ _ i j E)
    as (row & sp & Hrow & Hsp & Hl & Hr); [lia | lia |].
  exists row, sp. split; [exact Hrow|]. split; [exact Hsp|].
  split; [|split; assumption].
  unfold HRTF_Engine.db_lookup. rewrite Hrow.
  unfold HRTF_Engine.spectra in *. rewrite Hsp. reflexivity.
Qed.
End DatabaseConstruction.

(** C10.  In exact arithmetic, for every azimuth and elevation, the lookup
    in a constructed engine is total: the azimuth index lies in [0, 24), the
    elevation index in [0, 11], the grid key [(el_idx*15 - 90, az_idx*15)]
    is present in the database built by [_generate_synthetic_hrtf], and
    [get_nearest_hrtf] returns the pair of spectra stored there without
    raising. *)
Theorem get_nearest_hrtf_total `{Numpy Qc} (sample_rate : Z) (fft_size : nat)
    (eng : HRTF_Engine.t Qc) (azimuth elevation : Qc) :
  HRTF_Engine.__init__ sample_rate fft_size = inr eng ->
  exists (az_idx el_idx : Z) row sp,
    HRTF_Engine.nearest_index azimuth elevation = inr (az_idx, el_idx) /\
    0 <= az_idx < 24 /\ 0 <= el_idx <= 11 /\
    HRTF_Engine.hrtf_db eng !! (el_idx * 15 - 90) = Some row /\
    row !! (az_idx * 15) = Some sp /\
    HRTF_Engine.get_nearest_hrtf eng azimuth elevation = inr sp.
Proof.
  intros E.
  set (i := Qround_half_even
              (this (Qc_mod azimuth (of_Z 360) / of_Z 15)%Qc) mod 24).
  set (j := Z.max 0 (Z.min 11
              (Qround_half_even (this ((elevation + of_Z 90) / of_Z 15)%Qc)))).
  assert (Hi : 0 <= i < 24) by (apply Z.mod_pos_bound; lia).
  assert (Hj : 0 <= j <= 11) by lia.
  destruct (db_lookup_grid sample_rate fft_size eng i j E Hi Hj)
    as (row & sp & Hrow & Hsp & Hl & _).
  exists i, j, row, sp.
  split; [apply nearest_index_exact|].
  do 4 (split; [assumption|]).
  unfold HRTF_Engine.get_nearest_hrtf. rewrite nearest_index_exact.
  exact Hl.
Qed.

Lemma grid_fits_96000 : grid_fits (A := Qc) (H0 := stand_in) 96000 1024 = true.
Proof. vm_compute. reflexivity. Qed.

Lemma get_nearest_hrtf_total_witness :
  exists eng,
    HRTF_Engine.__init__ (A := Qc) (H0 := stand_in) 96000 2048 = inr eng /\
    exists (az_idx el_idx : Z) row sp,
      HRTF_Engine.nearest_index (Q2Qc (741 # 2)) (Q2Qc 90)
      = inr (az_idx, el_idx) /\
      0 <= az_idx < 24 /\ 0 <= el_idx <= 11 /\
      HRTF_Engine.hrtf_db eng !! (el_idx * 15 - 90) = Some row /\
      row !! (az_idx * 15) = Some sp /\
      HRTF_Engine.get_nearest_hrtf eng (Q2Qc (741 # 2)) (Q2Qc 90) = inr sp.
Proof.
  destruct (hrtf_init_returns (H0 := stand_in) 96000 2048 grid_fits_96000)
    as [eng E]; [lia|].
  exists eng. split; [exact E|].
  exact (@get_nearest_hrtf_total stand_in 96000 2048 eng _ _ E).
Defined.

(* --------------------------------------------------------------------- *)
(** ** Startup: the constructors *)
(* --------------------------------------------------------------------- *)

Section Startup.
Context {A : Type} `{Arith A} `{Numpy A}.

(** [DSPPipeline(sample_rate, chunk_size)] returns exactly when its two
    fallible sub-constructors return, and then stores [chunk_size] as it is
    given. *)
Lemma pipeline_init_returns (sample_rate : Z) (chunk_size : nat)
    (hrtf : HRTF_Engine.t A) (env : EnvironmentDSP.t A) :
  HRTF_Engine.__init__ sample_rate (chunk_size * 2) = inr hrtf ->
  EnvironmentDSP.__init__ sample_rate = inr env ->
  DSPPipeline.__init__ sample_rate chunk_size
  = inr {| DSPPipeline.hrtf := hrtf;
           DSPPipeline.ctc := CrosstalkCanceller.__init__ (lit 15 10) (lit 15 10);
           DSPPipeline.env := env;
           DSPPipeline.chunk_size := chunk_size |}.
Proof.
  intros Eh Ee. unfold DSPPipeline.__init__. rewrite Eh, Ee. reflexivity.
Qed.

Lemma pipeline_init_inv (sample_rate : Z) (chunk_size : nat)
    (p : DSPPipeline.t A) :
  DSPPipeline.__init__ sample_rate chunk_size = inr p ->
  HRTF_Engine.__init__ sample_rate (chunk_size * 2) = inr (DSPPipeline.hrtf p) /\
  EnvironmentDSP.__init__ sample_rate = inr (DSPPipeline.env p) /\
  DSPPipeline.ctc p = CrosstalkCanceller.__init__ (lit 15 10) (lit 15 10) /\
  DSPPipeline.chunk_size p = chunk_size.
Proof.
  unfold DSPPipeline.__init__. intros E.
  destruct (HRTF_Engine.__init__ _ _) as [e|h]; cbn in E; [discriminate|].
  destruct (EnvironmentDSP.__init__ _) as [e|v]; cbn in E; [discriminate|].
  injection E as <-. repeat split.
Qed.

Lemma env_init_inv (sample_rate : Z) (env : EnvironmentDSP.t A) :
  EnvironmentDSP.__init__ sample_rate = inr env ->
  exists n : nat,
    EnvironmentDSP.reverb_buffer env = np_zeros n /\
    EnvironmentDSP.ptr env = 0%nat.
Proof.
  unfold EnvironmentDSP.__init__. intros E.
  destruct (py_int _) as [e|n]; cbn in E; [discriminate|].
  destruct (n <? 0); [discriminate|].
  injection E as <-. eexists. split; reflexivity.
Qed.
End Startup.

(** In exact arithmetic the reverb buffer has [sample_rate // 2] samples. *)
Lemma env_init_exact (sample_rate : Z) :
  0 <= sample_rate ->
  EnvironmentDSP.__init__ (A := Qc) sample_rate
  = inr {| EnvironmentDSP.sample_rate := sample_rate;
           EnvironmentDSP.low_gain := of_Z 1;
           EnvironmentDSP.mid_gain := of_Z 1;
           EnvironmentDSP.high_gain := of_Z 1;
           EnvironmentDSP.reverb_decay := lit 4 10;
           EnvironmentDSP.reverb_buffer := np_zeros (Z.to_nat (sample_rate / 2));
           EnvironmentDSP.ptr := 0%nat |}.
Proof.
  intros Hs. unfold EnvironmentDSP.__init__.
  assert (E : py_int (mul (of_Z sample_rate) (lit 5 10) : Qc)
              = inr (sample_rate / 2)).
  { cbn [py_int exact ret]. f_equal.
    assert (Eq : (this (mul (of_Z sample_rate) (lit 5 10) : Qc)
                  == inject_Z sample_rate / inject_Z 2)%Q).
    { cbn [mul exact]. rewrite this_mult, this_of_Z.
      change (this (lit 5 10)) with (1 # 2)%Q.
      change (inject_Z 2) with 2%Q. field. }
    unfold Qtrunc.
    assert (Hnn : (0 <= this (mul (of_Z sample_rate) (lit 5 10) : Qc))%Q).
    { rewrite Eq. change (inject_Z 2) with 2%Q.
      assert (Hq : (0 <= inject_Z sample_rate)%Q)
        by (change 0%Q with (inject_Z 0); rewrite <- Zle_Qle; exact Hs).
      apply Qle_shift_div_l; lra. }
    apply Qle_bool_iff in Hnn. rewrite Hnn.
    rewrite (Qfloor_comp _ _ Eq). symmetry. apply Zdiv_Qdiv. }
  rewrite E. cbn [bind].
  pose proof (Z.div_pos sample_rate 2 Hs).
  destruct (Z.ltb_spec (sample_rate / 2) 0); [lia|]. reflexivity.
Qed.

(** C9, as stated, fails.  The configuration [sample_rate = 96000],
    [block_size = 30000] violates [2 * block_size <= reverb_buffer_len]
    (the buffer has 48000 samples), and startup accepts it: the pipeline is
    constructed and holds that block size and that buffer. *)
Lemma oversized_block_is_accepted :
  exists p,
    DSPPipeline.__init__ (A := Qc) (H0 := stand_in) 96000 (Z.to_nat 30000)
    = inr p /\
    DSPPipeline.chunk_size p = Z.to_nat 30000 /\
    length (EnvironmentDSP.reverb_buffer (DSPPipeline.env p))
    = Z.to_nat 48000 /\
    ~ (2 * Z.to_nat 30000 <= Z.to_nat 48000)%nat.
Proof.
  destruct (hrtf_init_returns (H0 := stand_in) 96000 (Z.to_nat 30000 * 2)
              grid_fits_96000) as [h Eh]; [lia|].
  eexists. split.
  - apply pipeline_init_returns; [exact Eh|]. apply env_init_exact. lia.
  - cbn [DSPPipeline.chunk_size DSPPipeline.env
         EnvironmentDSP.reverb_buffer].
    split; [reflexivity|]. split; [|lia].
    rewrite length_np_zeros. f_equal.
Qed.

(** C9, amended.  Startup performs no check of the block size against the
    reverb buffer and raises no configuration error: for every sample rate
    for which [EnvironmentDSP(sample_rate)] returns and the HRTF impulse
    positions fit, and for every block size greater than zero,
    [DSPPipeline(sample_rate, block_size)] returns a pipeline that holds
    the block size as given and the zeroed reverb buffer of
    [EnvironmentDSP(sample_rate)] with its cursor at 0, whatever the
    relation between [2 * block_size] and the buffer length. *)
Theorem startup_accepts_any_block_size {A : Type} `{Arith A} `{Numpy A}
    (sample_rate : Z) (block_size : nat) (env : EnvironmentDSP.t A) :
  EnvironmentDSP.__init__ sample_rate = inr env ->
  grid_fits sample_rate 1024 = true ->
  (0 < block_size)%nat ->
  exists p n,
    DSPPipeline.__init__ sample_rate block_size = inr p /\
    DSPPipeline.chunk_size p = block_size /\
    DSPPipeline.env p = env /\
    EnvironmentDSP.reverb_buffer env = np_zeros n /\
    EnvironmentDSP.ptr env = 0%nat.
Proof.
  intros Ee Hg Hb.
  destruct (hrtf_init_returns sample_rate (block_size * 2) Hg) as [h Eh];
    [lia|].
  destruct (env_init_inv sample_rate env Ee) as (n & Hbuf & Hptr).
  eexists. exists n. split; [apply pipeline_init_returns; eassumption|].
  repeat split; assumption.
Qed.

Lemma startup_accepts_any_block_size_witness :
  exists env p n,
    EnvironmentDSP.__init__ (A := Qc) 96000 = inr env /\
    DSPPipeline.__init__ (A := Qc) (H0 := stand_in) 96000 (Z.to_nat 30000)
    = inr p /\
    DSPPipeline.chunk_size p = Z.to_nat 30000 /\
    DSPPipeline.env p = env /\
    EnvironmentDSP.reverb_buffer env = np_zeros n /\
    EnvironmentDSP.ptr env = 0%nat.
Proof.
  eexists.
  destruct (startup_accepts_any_block_size (H0 := stand_in) 96000
              (Z.to_nat 30000) _
              (env_init_exact 96000 ltac:(lia)) grid_fits_96000 ltac:(lia))
    as (p & n & Hp).
  exists p, n. split; [apply env_init_exact; lia | exact Hp].
Defined.

(* --------------------------------------------------------------------- *)
(** ** Silence propagation *)
(* --------------------------------------------------------------------- *)

Section ListsOfOneValue.
Context {T U : Type}.

Lemma map_replicate (f : T -> U) (n : nat) (x : T) :
  map f (replicate n x) = replicate n (f x).
Proof. induction n as [|n IH]; cbn; [reflexivity|]. now rewrite IH. Qed.

Lemma zip_with_replicate_l (f : T -> U -> T) (z : T) (l : list U) :
  (forall y, f z y = z) ->
  zip_with f (replicate (length l) z) l = replicate (length l) z.
Proof.
  intros Hf. induction l as [|y l IH]; cbn; [reflexivity|].
  now rewrite Hf, IH.
Qed.

Lemma imap_replicate (g : nat -> T -> U) (z : T) (c : U) (n : nat) :
  (forall j, g j z = c) -> imap g (replicate n z) = replicate n c.
Proof.
  revert g. induction n as [|n IH]; intros g Hg; cbn; [reflexivity|].
  rewrite Hg. f_equal. apply IH. intros j. apply Hg.
Qed.

Lemma foldl_replicate_fixed (f : T -> T -> T) (z : T) (n : nat) :
  f z z = z -> foldl f z (replicate n z) = z.
Proof. intros Hf. induction n as [|n IH]; cbn; [reflexivity|]. now rewrite Hf. Qed.

Lemma map_constant (c : U) (l : list T) :
  map (fun _ => c) l = replicate (length l) c.
Proof. induction l as [|x l IH]; cbn; [reflexivity|]. now rewrite IH. Qed.
End ListsOfOneValue.

Section Silence.
Context {A : Type} `{Arith A} `{Numpy A} `{!ZeroLaws A}.

Local Abbreviation czero := ((of_Z 0, of_Z 0) : HRTF_Engine.complex).

Lemma scale_zeros (n : nat) (a : A) :
  map (fun x => x * a)%py (np_zeros n) = np_zeros n.
Proof. unfold np_zeros. now rewrite map_replicate, mul_zero_l. Qed.

Lemma add_zeros (n : nat) : zip_with add (np_zeros n) (np_zeros n) = np_zeros n.
Proof. unfold np_zeros. now rewrite zip_with_replicate, add_zero_zero. Qed.

Lemma sub_zeros (n : nat) : zip_with sub (np_zeros n) (np_zeros n) = np_zeros n.
Proof. unfold np_zeros. now rewrite zip_with_replicate, sub_zero_zero. Qed.

(** Step 4: with no relative velocity the Doppler hook is the identity. *)
Lemma apply_doppler_static (env : EnvironmentDSP.t A) (chunk : list A) :
  EnvironmentDSP.apply_doppler env chunk (of_Z 0) = inr chunk.
Proof.
  unfold EnvironmentDSP.apply_doppler.
  now rewrite static_divisor, static_factor.
Qed.

Lemma cmul_zero_l (y : HRTF_Engine.complex) : HRTF_Engine.cmul czero y = czero.
Proof.
  unfold HRTF_Engine.cmul. cbn [fst snd].
  now rewrite !mul_zero_l, sub_zero_zero, add_zero_zero.
Qed.

Lemma cadd_zero : HRTF_Engine.cadd czero czero = czero.
Proof. unfold HRTF_Engine.cadd. cbn [fst snd]. now rewrite add_zero_zero. Qed.

Lemma dft_zeros (w : nat -> HRTF_Engine.complex) (n : nat) :
  HRTF_Engine.dft w (replicate n czero) = replicate n czero.
Proof.
  unfold HRTF_Engine.dft. rewrite length_replicate.
  transitivity (map (fun _ : nat => czero) (seq 0 n));
    [|now rewrite map_constant, length_seq].
  apply map_ext. intros k.
  rewrite (imap_replicate _ czero czero) by (intros j; apply cmul_zero_l).
  apply foldl_replicate_fixed, cadd_zero.
Qed.

(** The transform of a silent chunk is the zero spectrum. *)
Lemma fft_zeros (m n : nat) :
  n <> 0%nat -> HRTF_Engine.fft (np_zeros m) n = inr (replicate n czero).
Proof.
  intros Hn. unfold HRTF_Engine.fft.
  destruct (Nat.eqb_spec n 0); [contradiction|].
  unfold ret. f_equal.
  unfold np_zeros. rewrite take_replicate, length_replicate, <- replicate_add.
  rewrite map_replicate. replace (n `min` m + (n - m))%nat with n by lia.
  apply dft_zeros.
Qed.

Lemma ifft_zeros (n : nat) :
  n <> 0%nat -> HRTF_Engine.ifft (replicate n czero) = inr (replicate n czero).
Proof.
  intros Hn. unfold HRTF_Engine.ifft. rewrite length_replicate.
  destruct (Nat.eqb_spec n 0); [contradiction|].
  unfold ret. f_equal. rewrite dft_zeros, map_replicate. cbn [fst snd].
  now rewrite div_zero_l.
Qed.

Lemma broadcast_cmul_zeros (ir : list HRTF_Engine.complex) :
  broadcast2 HRTF_Engine.cmul (replicate (length ir) czero) ir
  = inr (replicate (length ir) czero).
Proof.
  unfold broadcast2. rewrite length_replicate, Nat.eqb_refl.
  unfold ret. f_equal. apply zip_with_replicate_l, cmul_zero_l.
Qed.

(** The lookup returns for every requested direction. *)
Lemma get_nearest_hrtf_returns (h : HRTF_Engine.t A) (n : nat)
    (azimuth elevation : A) :
  hrtf_ready h n ->
  exists sp, HRTF_Engine.get_nearest_hrtf h azimuth elevation = inr sp /\
             length (fst sp) = n /\ length (snd sp) = n.
Proof.
  intros (_ & _ & Hdb). unfold HRTF_Engine.get_nearest_hrtf,
    HRTF_Engine.nearest_index.
  destruct (round_returns (py_mod azimuth (of_Z 360) / of_Z 15)%py) as [r ->].
  destruct (round_returns ((elevation + of_Z 90) / of_Z 15)%py) as [e ->].
  cbn [bind ret fst snd].
  apply Hdb; [apply Z.mod_pos_bound|]; lia.
Qed.

(** Step 5 on a silent chunk. *)
Lemma spatialize_silence (h : HRTF_Engine.t A) (cs : nat)
    (azimuth elevation : A) :
  hrtf_ready h (cs * 2) ->
  HRTF_Engine.spatialize_source h (np_zeros cs) azimuth elevation
  = inr (np_zeros cs, np_zeros cs).
Proof.
  intros Hh.
  destruct (get_nearest_hrtf_returns h (cs * 2) azimuth elevation Hh)
    as (sp & Esp & Hl & Hr).
  destruct Hh as (Hn & Hnz & _).
  unfold HRTF_Engine.spatialize_source. rewrite Esp, Hn. cbn [bind].
  rewrite fft_zeros by exact Hnz. cbn [bind].
  rewrite <- Hl at 1. rewrite broadcast_cmul_zeros, Hl. cbn [bind].
  rewrite ifft_zeros by exact Hnz. cbn [bind].
  rewrite <- Hr at 1. rewrite broadcast_cmul_zeros, Hr. cbn [bind].
  rewrite ifft_zeros by exact Hnz. cbn [bind].
  unfold ret. rewrite map_replicate. cbn [fst].
  rewrite length_np_zeros, take_replicate.
  replace (cs `min` (cs * 2))%nat with cs by lia. reflexivity.
Qed.

Lemma iadd_zeros (n : nat) : iadd (np_zeros n) (np_zeros n) = inr (np_zeros n).
Proof. rewrite iadd_returns by reflexivity. now rewrite add_zeros. Qed.

(** Steps 1 to 5 and the mix, for one silent source. *)
Lemma mix_silent_source (p : DSPPipeline.t A) (listener_pos : vec3 A)
    (inv_quat : Quaternion A) (entry : DSPPipeline.source_entry A) :
  hrtf_ready (DSPPipeline.hrtf p) (DSPPipeline.chunk_size p * 2) ->
  fst (snd entry) = np_zeros (DSPPipeline.chunk_size p) ->
  DSPPipeline.mix_source p listener_pos inv_quat
    (np_zeros (DSPPipeline.chunk_size p), np_zeros (DSPPipeline.chunk_size p))
    entry
  = inr (np_zeros (DSPPipeline.chunk_size p),
         np_zeros (DSPPipeline.chunk_size p)).
Proof.
  intros Hh Hz. destruct entry as [name [chunk [[sx sy] sz]]].
  destruct listener_pos as [[px py_] pz]. cbn [fst snd] in Hz. subst chunk.
  unfold DSPPipeline.mix_source.
  destruct (quat_rotate inv_quat _) as [[lx ly] lz].
  rewrite scale_zeros, apply_doppler_static. cbn [bind].
  rewrite spatialize_silence by exact Hh. cbn [bind fst snd].
  rewrite iadd_zeros. cbn [bind]. reflexivity.
Qed.

Lemma mix_silent_sources (p : DSPPipeline.t A) (listener_pos : vec3 A)
    (inv_quat : Quaternion A) (sources : list (DSPPipeline.source_entry A)) :
  hrtf_ready (DSPPipeline.hrtf p) (DSPPipeline.chunk_size p * 2) ->
  Forall (fun entry : DSPPipeline.source_entry A =>
            fst (snd entry) = np_zeros (DSPPipeline.chunk_size p)) sources ->
  for_each (DSPPipeline.mix_source p listener_pos inv_quat) sources
    (np_zeros (DSPPipeline.chunk_size p), np_zeros (DSPPipeline.chunk_size p))
  = inr (np_zeros (DSPPipeline.chunk_size p),
         np_zeros (DSPPipeline.chunk_size p)).
Proof.
  intros Hh Hs. induction Hs as [|entry sources Hz Hs IH]; cbn [for_each].
  - reflexivity.
  - rewrite mix_silent_source by assumption. cbn [bind]. exact IH.
Qed.

(** Step 6 on a silent mix: the output is silent and the buffer stays
    zero, whatever the gains and the decay. *)
Lemma reverb_silence (env : EnvironmentDSP.t A) (cs B : nat) :
  EnvironmentDSP.reverb_buffer env = np_zeros B ->
  (cs < B)%nat -> (EnvironmentDSP.ptr env + cs <= B)%nat ->
  exists p',
    EnvironmentDSP.apply_reverb env (np_zeros cs)
    = inr (np_zeros cs, EnvironmentDSP.with_reverb env (np_zeros B) p') /\
    (p' + cs <= B)%nat.
Proof.
  intros Hb Hlt Hin.
  pose proof (apply_reverb_step env (np_zeros cs)) as E.
  pose proof (reverb_step_cursor (EnvironmentDSP.reverb_decay env)
                (EnvironmentDSP.reverb_buffer env) (EnvironmentDSP.ptr env)
                (np_zeros cs)) as Hc.
  rewrite Hb, !length_np_zeros in E, Hc.
  specialize (E Hlt Hin). specialize (Hc Hlt Hin). cbv zeta in E, Hc.
  destruct Hc as [_ Hp].
  eexists. split; [|apply Nat.lt_le_incl, Hp].
  rewrite E. unfold reverb_step. cbn [fst snd]. rewrite length_np_zeros.
  unfold ret. do 2 f_equal.
  - unfold slice, np_zeros.
    rewrite drop_replicate, take_replicate, map_replicate, mul_zero_l.
    replace (cs `min` (B - EnvironmentDSP.ptr env))%nat with cs by lia.
    now rewrite zip_with_replicate, add_zero_zero.
  - f_equal. unfold np_zeros.
    rewrite drop_replicate, take_replicate, <- !replicate_add.
    f_equal. lia.
Qed.

Lemma post_mix_silence (env : EnvironmentDSP.t A) (cs B : nat) :
  EnvironmentDSP.reverb_buffer env = np_zeros B ->
  (cs < B)%nat -> (EnvironmentDSP.ptr env + cs <= B)%nat ->
  exists env',
    DSPPipeline.post_mix env (np_zeros cs, np_zeros cs)
    = inr ((np_zeros cs, np_zeros cs), env') /\
    EnvironmentDSP.reverb_buffer env' = np_zeros B /\
    (EnvironmentDSP.ptr env' + cs <= B)%nat.
Proof.
  intros Hb Hlt Hin. unfold DSPPipeline.post_mix. cbn [fst snd].
  unfold EnvironmentDSP.apply_eq at 1. rewrite scale_zeros.
  destruct (reverb_silence env cs B Hb Hlt Hin) as (p1 & -> & Hp1).
  cbn [bind fst snd].
  unfold EnvironmentDSP.apply_eq. rewrite scale_zeros.
  destruct (reverb_silence (EnvironmentDSP.with_reverb env (np_zeros B) p1)
              cs B eq_refl Hlt Hp1) as (p2 & -> & Hp2).
  cbn [bind fst snd]. eexists. split; [reflexivity|]. split; [reflexivity|].
  exact Hp2.
Qed.

(** Step 7 on silent channels: the peak is zero, nothing is normalised. *)
Lemma ctc_silence (ctc : CrosstalkCanceller.t A) (cs : nat) :
  (0 < cs)%nat ->
  CrosstalkCanceller.process ctc (np_zeros cs) (np_zeros cs)
  = inr (np_zeros cs, np_zeros cs).
Proof.
  intros Hcs. unfold CrosstalkCanceller.process.
  rewrite scale_zeros.
  replace (map (fun x => x * CrosstalkCanceller.alpha ctc * lit 5 10)%py
             (np_zeros cs)) with (np_zeros cs : list A)
    by (unfold np_zeros; now rewrite map_replicate, !mul_zero_l).
  unfold broadcast2. rewrite Nat.eqb_refl, sub_zeros. cbn [bind ret].
  unfold np_zeros at 1 2. rewrite map_app, map_replicate, abs_zero.
  rewrite <- replicate_add.
  destruct cs as [|cs]; [lia|]. cbn [Nat.add replicate np_max bind ret].
  rewrite foldl_replicate_fixed by apply max_zero_zero.
  now rewrite one_not_below_zero.
Qed.

Lemma process_silence (cs : nat) (p : DSPPipeline.t A)
    (block : list (DSPPipeline.source_entry A) * vec3 A * Quaternion A) :
  (0 < cs)%nat -> silent_state cs p -> silent_block cs block ->
  exists p',
    DSPPipeline.process p (fst (fst block)) (snd (fst block)) (snd block)
    = inr ((np_zeros cs, np_zeros cs), p') /\
    silent_state cs p'.
Proof.
  intros Hcs (Hc & Hh & B & Hb & Hlt & Hin) (Hs & q & Hq).
  unfold DSPPipeline.process. rewrite Hq. cbn [bind].
  rewrite <- Hc in Hs, Hh.
  rewrite mix_silent_sources by assumption. cbn [bind]. rewrite Hc.
  destruct (post_mix_silence (DSPPipeline.env p) cs B Hb Hlt Hin)
    as (env' & -> & Hb' & Hin').
  cbn [bind fst snd].
  rewrite ctc_silence by exact Hcs. cbn [bind].
  eexists. split; [reflexivity|].
  unfold silent_state. cbn [DSPPipeline.chunk_size DSPPipeline.hrtf
                            DSPPipeline.env].
  rewrite Hc in Hh. split; [reflexivity|]. split; [exact Hh|].
  exists B. auto.
Qed.

Lemma render_silence (cs : nat) (p : DSPPipeline.t A)
    (blocks : list (list (DSPPipeline.source_entry A) * vec3 A * Quaternion A)) :
  (0 < cs)%nat -> silent_state cs p -> Forall (silent_block cs) blocks ->
  exists p',
    DSPPipeline.render p blocks
    = inr (map (fun _ => (np_zeros cs, np_zeros cs)) blocks, p').
Proof.
  intros Hcs Hp Hb. revert p Hp.
  induction Hb as [|block blocks Hblock Hb IH]; intros p Hp;
    cbn [DSPPipeline.render map].
  - eexists; reflexivity.
  - destruct (process_silence cs p block Hcs Hp Hblock) as (p1 & E & Hp1).
    destruct block as [[sources pos] quat]. cbn [fst snd] in E.
    rewrite E. cbn [bind fst snd].
    destruct (IH p1 Hp1) as (p' & ->). cbn [bind fst snd].
    eexists; reflexivity.
Qed.

(** A freshly constructed pipeline is a state from which silence renders
    as silence, provided a block is shorter than the reverb buffer. *)
Lemma init_silent_state (sample_rate : Z) (cs : nat) (p0 : DSPPipeline.t A) :
  DSPPipeline.__init__ sample_rate cs = inr p0 ->
  (0 < cs)%nat ->
  (cs < length (EnvironmentDSP.reverb_buffer (DSPPipeline.env p0)))%nat ->
  silent_state cs p0.
Proof.
  intros E Hcs Hlt.
  apply pipeline_init_inv in E as (Eh & Ee & _ & Hc).
  destruct (env_init_inv _ _ Ee) as (B & Hb & Hp).
  rewrite Hb, length_np_zeros in Hlt.
  split; [exact Hc|]. split.
  - destruct (hrtf_init_db _ _ _ Eh) as [_ Hn].
    split; [exact Hn|]. split; [lia|].
    intros i j Hi Hj.
    destruct (db_lookup_grid _ _ _ i j Eh Hi Hj)
      as (row & sp & _ & _ & Hl & Hlen). eauto.
  - exists B. split; [exact Hb|]. split; [exact Hlt|]. rewrite Hp. lia.
Qed.
End Silence.

#[export] Instance exact_zero_laws : ZeroLaws Qc.
Proof.
  split.
  - intros a. apply Qcmult_0_l.
  - intros a. unfold div; cbn. unfold Qcdiv. apply Qcmult_0_l.
  - apply Qc_is_canon. reflexivity.
  - apply Qc_is_canon. reflexivity.
  - apply Qc_is_canon. reflexivity.
  - reflexivity.
  - reflexivity.
  - intros a. eexists. reflexivity.
  - reflexivity.
  - reflexivity.
Qed.

(** C3.  In exact arithmetic, for every instance of the imported
    functions: starting from the freshly constructed pipeline (reverb
    buffer all zero), with a block size greater than zero and smaller than
    the reverb buffer, if in every block every source supplies an all-zero
    chunk of one block, then for every sequence of blocks and listener
    poses (positions arbitrary, orientations any invertible quaternion) the
    render never raises and every rendered block is all-zero on the left
    and on the right. *)
Theorem silence_propagation `{Numpy Qc} (sample_rate : Z) (cs : nat)
    (p0 : DSPPipeline.t Qc)
    (blocks : list (list (DSPPipeline.source_entry Qc) * vec3 Qc * Quaternion Qc)) :
  DSPPipeline.__init__ sample_rate cs = inr p0 ->
  (0 < cs)%nat ->
  (cs < length (EnvironmentDSP.reverb_buffer (DSPPipeline.env p0)))%nat ->
  Forall (silent_block cs) blocks ->
  exists p',
    DSPPipeline.render p0 blocks
    = inr (map (fun _ => (np_zeros cs, np_zeros cs)) blocks, p').
Proof.
  intros E Hcs Hlt Hb.
  apply render_silence; [exact Hcs | | exact Hb].
  exact (init_silent_state sample_rate cs p0 E Hcs Hlt).
Qed.

Lemma two_silent_blocks_are_silent :
  Forall (silent_block (H0 := stand_in) 1024) two_silent_blocks.
Proof.
  repeat constructor; eexists; vm_compute; reflexivity.
Qed.

Lemma silence_propagation_witness :
  exists p0 p',
    DSPPipeline.__init__ (A := Qc) (H0 := stand_in) 96000 1024 = inr p0 /\
    DSPPipeline.render (H0 := stand_in) p0 two_silent_blocks
    = inr ([(np_zeros 1024, np_zeros 1024); (np_zeros 1024, np_zeros 1024)],
           p').
Proof.
  destruct (hrtf_init_returns (H0 := stand_in) 96000 (1024 * 2)
              grid_fits_96000) as [h Eh]; [lia|].
  pose proof (pipeline_init_returns (H0 := stand_in) 96000 1024 h _ Eh
                (env_init_exact 96000 ltac:(lia))) as E.
  destruct (silence_propagation (H := stand_in) 96000 1024 _
              two_silent_blocks E) as [p' Hr].
  - lia.
  - cbn [DSPPipeline.env EnvironmentDSP.reverb_buffer].
    rewrite length_np_zeros. change (96000 / 2) with 48000. lia.
  - exact two_silent_blocks_are_silent.
  - eexists. exists p'. split; [exact E | exact Hr].
Defined.

(* --------------------------------------------------------------------- *)
(** ** The covariance of the Kalman position filter *)
(* --------------------------------------------------------------------- *)

Lemma Qsquare_nonneg (x : Q) : (0 <= x * x)%Q.
Proof. nra. Qed.

Lemma binary_form_nonneg_Q (a b c x y : Q) :
  (0 <= a)%Q -> (0 <= c)%Q -> (b * b <= a * c)%Q ->
  (0 <= a * (x * x) + (1 + 1) * b * (x * y) + c * (y * y))%Q.
Proof.
  intros Ha Hc Hd.
  pose proof (Qsquare_nonneg (a * x + b * y)) as H1.
  pose proof (Qsquare_nonneg y) as H2.
  destruct (Qlt_le_dec 0 a) as [Hpos | Hle].
  - assert (0 <= (a * c - b * b) * (y * y))%Q as H3 by nra.
    assert (0 <= a * (a * (x * x) + (1 + 1) * b * (x * y) + c * (y * y)))%Q
      as H4 by lra.
    nra.
  - assert (a == 0)%Q as Ha0 by lra.
    assert (b * b <= 0)%Q as Hb by nra.
    assert (b == 0)%Q as Hb0 by nra.
    rewrite Ha0, Hb0. nra.
Qed.

Lemma predict_scalars_Q (dt a b c q : Q) :
  (0 <= a)%Q -> (0 <= c)%Q -> (b * b <= a * c)%Q -> (0 <= q)%Q ->
  (0 <= a + (1 + 1) * dt * b + dt * dt * c + q)%Q /\
  (0 <= c + q)%Q /\
  ((b + dt * c) * (b + dt * c)
   <= (a + (1 + 1) * dt * b + dt * dt * c + q) * (c + q))%Q.
Proof.
  intros Ha Hc Hd Hq.
  pose proof (binary_form_nonneg_Q a b c 1 dt Ha Hc Hd) as Hf.
  assert (0 <= a + (1 + 1) * dt * b + dt * dt * c)%Q as Hf' by lra.
  split; [lra|]. split; [lra|].
  assert (0 <= q * (a + (1 + 1) * dt * b + dt * dt * c))%Q as H1
    by (apply Qmult_le_0_compat; assumption).
  assert (0 <= q * c)%Q as H2 by (apply Qmult_le_0_compat; assumption).
  assert (0 <= q * q)%Q as H3 by (apply Qmult_le_0_compat; assumption).
  lra.
Qed.

Lemma update_scalars_Q (a b c r : Q) :
  (0 <= a)%Q -> (0 <= c)%Q -> (b * b <= a * c)%Q -> (0 < r)%Q ->
  (0 <= a - a * a / (a + r))%Q /\
  (0 <= c - b * b / (a + r))%Q /\
  ((b - a * b / (a + r)) * (b - a * b / (a + r))
   <= (a - a * a / (a + r)) * (c - b * b / (a + r)))%Q.
Proof.
  intros Ha Hc Hd Hr.
  assert (0 < a + r)%Q as Hs by lra.
  assert (~ a + r == 0)%Q as Hs' by lra.
  pose proof (Qinv_lt_0_compat _ Hs) as Ht.
  assert (a - a * a / (a + r) == a * r * / (a + r))%Q as E1 by (field; exact Hs').
  assert (c - b * b / (a + r) == (a * c - b * b + c * r) * / (a + r))%Q as E2
    by (field; exact Hs').
  assert (b - a * b / (a + r) == b * r * / (a + r))%Q as E3 by (field; exact Hs').
  rewrite E1, E2, E3. set (t := (/ (a + r))%Q) in *.
  assert (0 <= t)%Q as Ht' by lra.
  assert (0 <= a * r)%Q as Har by (apply Qmult_le_0_compat; lra).
  assert (0 <= c * r)%Q as Hcr by (apply Qmult_le_0_compat; lra).
  split; [apply Qmult_le_0_compat; assumption|].
  split; [apply Qmult_le_0_compat; lra|].
  assert (0 <= r * (t * t))%Q as H1
    by (apply Qmult_le_0_compat; [lra | apply Qmult_le_0_compat; assumption]).
  assert (0 <= (r * (t * t)) * ((a + r) * (a * c - b * b)))%Q as H2
    by (apply Qmult_le_0_compat;
        [assumption | apply Qmult_le_0_compat; lra]).
  lra.
Qed.

(** *** The covariance recurrence, over any field

    F, H, Q, R and the initial P are made of multiples of the 3 by 3
    identity, and [predict] and [update_position] keep P of that form. *)
Section CovarianceAlgebra.
Context {A : Type} `{Arith A} `{Numpy A}.
Hypothesis A_field :
  field_theory (of_Z 0) (of_Z 1) add mul sub neg div
               (fun x => of_Z 1 / x)%py eq.
Add Field A_field_db : A_field.

Ltac mat_compute := cbv -[of_Z add sub mul div neg lit].

Lemma init_tracks (dt : A) :
  tracks dt (KalmanFilter3D.__init__ dt) (of_Z 1, of_Z 0, of_Z 1).
Proof.
  unfold tracks. repeat (split; [reflexivity|]).
  mat_compute. repeat (f_equal; try ring).
Qed.

Lemma predict_tracks (dt : A) (kf : KalmanFilter3D.t A) (abc : A * A * A) :
  tracks dt kf abc ->
  tracks dt (KalmanFilter3D.predict kf) (predicted dt abc).
Proof.
  destruct abc as [[a b] c]. intros (HF & HH & HQ & HR & Hx & HP).
  unfold KalmanFilter3D.predict.
  split; [exact HF|]. split; [exact HH|]. split; [exact HQ|].
  split; [exact HR|]. split.
  - cbn [KalmanFilter3D.with_state KalmanFilter3D.pos_state].
    unfold matvec. rewrite length_map, HF. reflexivity.
  - cbn [KalmanFilter3D.with_state KalmanFilter3D.pos_P].
    rewrite HF, HQ, HP. mat_compute.
    generalize (lit 1 100 : A). intros q. repeat (f_equal; try ring).
Qed.

Lemma update_tracks (dt : A) (kf : KalmanFilter3D.t A) (abc : A * A * A)
    (z : list A) :
  inverts_scalar_matrices ->
  (fst (fst abc) + lit 15 100)%py <> of_Z 0 ->
  length z = 3%nat ->
  tracks dt kf abc ->
  exists kf', KalmanFilter3D.update_position kf z = inr kf'
              /\ tracks dt kf' (updated abc).
Proof.
  destruct abc as [[a b] c]. cbn [fst].
  intros Hinv Hs Hz (HF & HH & HQ & HR & Hx & HP).
  unfold KalmanFilter3D.update_position. rewrite HH, HR, HP. cbv zeta.
  replace (madd _ _) with (diagonal 3 (a + lit 15 100)%py).
  2:{ mat_compute. generalize (lit 15 100 : A). intros r.
      repeat (f_equal; try ring). }
  rewrite (Hinv _ Hs).
  destruct z as [|z0 [|z1 [|z2 [|]]]]; try discriminate Hz.
  destruct (KalmanFilter3D.pos_state kf)
    as [|x0 [|x1 [|x2 [|x3 [|x4 [|x5 [|]]]]]]] eqn:Ex; try discriminate Hx.
  eexists. split.
  { cbv -[of_Z add sub mul div neg KalmanFilter3D.with_state lit].
    reflexivity. }
  split; [exact HF|]. split; [exact HH|]. split; [exact HQ|].
  split; [exact HR|]. split; [reflexivity|].
  cbn [KalmanFilter3D.with_state KalmanFilter3D.pos_P].
  mat_compute. revert Hs. generalize (lit 15 100 : A). intros r Hs.
  (repeat (f_equal; try (field; exact Hs))).
Qed.
End CovarianceAlgebra.

(** *** The stand-in inverse on multiples of the identity *)
Section StandInInverse.
Context {A : Type} `{Arith A}.
Hypothesis A_field :
  field_theory (of_Z 0) (of_Z 1) add mul sub neg div
               (fun x => of_Z 1 / x)%py eq.
Hypothesis eqb_false : forall x y : A, x <> y -> (x =? y)%py = false.
Add Field A_field_db' : A_field.

Lemma stand_in_inverts_scalar_matrices :
  inverts_scalar_matrices (H0 := stand_in).
Proof.
  intros s Hs. cbn [np_linalg_inv stand_in].
  unfold si_inv, diagonal.
  cbv -[of_Z add sub mul div neg eqb].
  repeat match goal with
  | |- context [eqb ?e (of_Z 0)] =>
      rewrite (eqb_false e (of_Z 0))
        by (intros E; apply Hs; rewrite <- E; field; exact Hs)
  end.
  repeat (f_equal; try (field; exact Hs)).
Qed.
End StandInInverse.

(** *** Exact arithmetic *)

Lemma exact_field :
  field_theory (of_Z 0 : Qc) (of_Z 1) add mul sub neg div
               (fun x => of_Z 1 / x)%py eq.
Proof.
  constructor.
  - exact Qcrt.
  - exact (F_1_neq_0 Qcft).
  - intros p q. cbn. unfold Qcdiv. rewrite Qcmult_1_l. reflexivity.
  - intros p Hp. cbn. unfold Qcdiv. rewrite Qcmult_1_l.
    apply (Finv_l Qcft). exact Hp.
Qed.

Lemma Qc_eqb_false (x y : Qc) : x <> y -> (x =? y)%py = false.
Proof.
  intros Hxy. cbn. destruct (Qc_eq_bool x y) eqn:E; [|reflexivity].
  destruct Hxy. apply Qc_eq_bool_correct. exact E.
Qed.

Lemma this_lit (n : Z) (d : positive) :
  (this (lit n d : Qc) == n # d)%Q.
Proof.
  unfold lit. cbn [div of_Z exact]. rewrite this_div, !this_Q2Qc.
  symmetry. apply Qmake_Qdiv.
Qed.

Ltac to_Q :=
  unfold Qcle, Qclt in *;
  repeat (progress rewrite ?this_plus, ?this_minus, ?this_mult, ?this_div,
            ?this_lit, ?this_of_Z, ?this_Q2Qc in * );
  try change (inject_Z 0) with 0%Q in *;
  try change (inject_Z 1) with 1%Q in *.

Lemma predicted_psd (dt : Qc) (abc : Qc * Qc * Qc) :
  block_psd abc -> block_psd (predicted dt abc).
Proof.
  destruct abc as [[a b] c]. unfold block_psd, predicted.
  intros (Ha & Hc & Hd). to_Q.
  apply predict_scalars_Q; try assumption.
  lra.
Qed.

Lemma updated_psd (abc : Qc * Qc * Qc) :
  block_psd abc -> block_psd (updated abc).
Proof.
  destruct abc as [[a b] c]. unfold block_psd, updated.
  intros (Ha & Hc & Hd). to_Q.
  apply update_scalars_Q; try assumption.
  reflexivity.
Qed.

Lemma innovation_variance_nonzero (abc : Qc * Qc * Qc) :
  block_psd abc -> (fst (fst abc) + lit 15 100)%py <> (of_Z 0 : Qc).
Proof.
  destruct abc as [[a b] c]. intros (Ha & _) E. cbn [fst] in E.
  assert (this (a + lit 15 100)%py == this (of_Z 0 : Qc))%Q as E'
    by (rewrite E; reflexivity).
  clear E. to_Q.
  lra.
Qed.

Lemma block_symmetric (abc : Qc * Qc * Qc) : symmetric (block_form abc).
Proof. destruct abc as [[a b] c]. reflexivity. Qed.

Lemma block_is_psd (abc : Qc * Qc * Qc) :
  block_psd abc -> psd (block_form abc).
Proof.
  destruct abc as [[a b] c]. intros (Ha & Hc & Hd) v Hv.
  cbn in Hv.
  destruct v as [|x0 [|x1 [|x2 [|x3 [|x4 [|x5 [|]]]]]]]; try discriminate.
  cbv -[Qcplus Qcmult Qcminus Qcopp Qcinv Qcdiv Q2Qc inject_Z Qcle].
  change (inject_Z 0) with 0%Q. to_Q.
  pose proof (binary_form_nonneg_Q _ _ _ (this x0) (this x3) Ha Hc Hd).
  pose proof (binary_form_nonneg_Q _ _ _ (this x1) (this x4) Ha Hc Hd).
  pose proof (binary_form_nonneg_Q _ _ _ (this x2) (this x5) Ha Hc Hd).
  lra.
Qed.

Section KalmanRuns.
Context `{Numpy Qc}.
Hypothesis inverse_ok : inverts_scalar_matrices.

Lemma kalman_run_tracks (dt : Qc) (steps : list (kalman_step Qc)) :
  forall (kf : KalmanFilter3D.t Qc) (abc : Qc * Qc * Qc),
    Forall measurement_ok steps ->
    tracks dt kf abc -> block_psd abc ->
    exists kf' abc',
      kalman_run kf steps = inr kf' /\ tracks dt kf' abc' /\ block_psd abc'.
Proof.
  induction steps as [|[|z] rest IH]; intros kf abc Hok Htr Hpsd.
  - exists kf, abc. split; [reflexivity|]. split; assumption.
  - inversion Hok as [|? ? _ Hrest]; subst.
    cbn [kalman_run].
    apply (IH _ (predicted dt abc) Hrest).
    + apply (predict_tracks exact_field). exact Htr.
    + apply predicted_psd. exact Hpsd.
  - inversion Hok as [|? ? Hz Hrest]; subst.
    cbn [kalman_run].
    destruct (update_tracks exact_field dt kf abc z inverse_ok
                (innovation_variance_nonzero abc Hpsd) Hz Htr)
      as (kf1 & Hupd & Htr1).
    rewrite Hupd. cbn [bind].
    apply (IH _ (updated abc) Hrest Htr1).
    apply updated_psd. exact Hpsd.
Qed.
End KalmanRuns.

(** C6, as stated, fails in the arithmetic the program runs in.  Neither
    [predict] nor [update_position] symmetrises P, and in binary64 one
    prediction and one position update from the constructed filter give a
    covariance that is not symmetric: P[0][3] = 0.0012929919834497017 and
    P[3][0] = 0.0012929919834497004.  (The innovation covariance S is a
    multiple of the identity here, and its inverse is computed as the
    matrix of reciprocals.) *)
Lemma kalman_covariance_not_symmetric_in_binary64 :
  exists kf : KalmanFilter3D.t float,
    kalman_run (H0 := stand_in) (KalmanFilter3D.__init__ 0.01%float)
      [Predict; Update [1; 0; 1.6]%float] = inr kf
    /\ mget (KalmanFilter3D.pos_P kf) 0 3 = 0.0012929919834497017%float
    /\ mget (KalmanFilter3D.pos_P kf) 3 0 = 0.0012929919834497004%float
    /\ ~ symmetric (KalmanFilter3D.pos_P kf).
Proof.
  eexists. split; [vm_compute; reflexivity|].
  split; [vm_compute; reflexivity|]. split; [vm_compute; reflexivity|].
  intros E.
  apply (f_equal (fun m => PrimFloat.eqb (mget m 0 3)
                             0.0012929919834497017%float)) in E.
  vm_compute in E. discriminate E.
Qed.

(** C6, amended.  In exact arithmetic, with [np.linalg.inv] inverting the
    non-zero multiples of the 3 by 3 identity: for every time step [dt] and
    every sequence of [predict] and [update_position] calls on the
    constructed filter (initial covariance I, measurements of three
    coordinates), no call raises and the covariance P after the sequence is
    symmetric and positive semi-definite.  This is a property of the
    recurrence alone: the implementation has no symmetrisation step, and
    in binary64 P is not symmetric after the first update. *)
Theorem kalman_covariance_symmetric_psd `{Numpy Qc} (dt : Qc)
    (steps : list (kalman_step Qc)) :
  inverts_scalar_matrices ->
  Forall measurement_ok steps ->
  exists kf : KalmanFilter3D.t Qc,
    kalman_run (KalmanFilter3D.__init__ dt) steps = inr kf
    /\ symmetric (KalmanFilter3D.pos_P kf)
    /\ psd (KalmanFilter3D.pos_P kf).
Proof.
  intros Hinv Hok.
  destruct (kalman_run_tracks Hinv dt steps (KalmanFilter3D.__init__ dt)
              (of_Z 1, of_Z 0, of_Z 1) Hok (init_tracks exact_field dt))
    as (kf & abc & Hrun & Htr & Hpsd).
  { repeat split; discriminate. }
  exists kf. split; [exact Hrun|].
  destruct Htr as (_ & _ & _ & _ & _ & HP). rewrite HP.
  split; [apply block_symmetric | apply block_is_psd; exact Hpsd].
Qed.

Lemma kalman_covariance_symmetric_psd_witness :
  exists kf : KalmanFilter3D.t Qc,
    kalman_run (H0 := stand_in) (KalmanFilter3D.__init__ (lit 1 100))
      [Predict; Update [of_Z 1; of_Z 0; lit 16 10]; Predict;
       Update [lit 11 10; lit 1 10; lit 16 10]] = inr kf
    /\ symmetric (KalmanFilter3D.pos_P kf)
    /\ psd (KalmanFilter3D.pos_P kf).
Proof.
  apply (@kalman_covariance_symmetric_psd stand_in).
  - exact (stand_in_inverts_scalar_matrices exact_field Qc_eqb_false).
  - repeat constructor.
Defined.

(* --------------------------------------------------------------------- *)
(** ** AudioSource: block length, the playback loop, the silent fallback *)
(* --------------------------------------------------------------------- *)

Section Playback.
Context {A : Type} `{Arith A}.
Implicit Types self : AudioSource.t A.

Lemma get_next_chunk_padded self n :
  fst (AudioSource.get_next_chunk self n)
  = padded_block (AudioSource.audio_data self) (AudioSource.ptr self) n.
Proof.
  unfold AudioSource.get_next_chunk, padded_block. cbn [fst].
  set (c := slice _ _ _).
  assert (length c <= n)%nat as Hle
    by (unfold c, slice; rewrite length_take; lia).
  destruct (Nat.ltb_spec (length c) n) as [Hlt|Hge]; [reflexivity|].
  replace (n - length c)%nat with 0%nat by lia.
  cbn. now rewrite app_nil_r.
Qed.

Lemma length_padded_block (data : list A) (start n : nat) :
  length (padded_block data start n) = n.
Proof.
  unfold padded_block, slice. cbv zeta.
  rewrite length_app, length_np_zeros, length_take. lia.
Qed.

(** X1.  Whatever the cursor and the audio, [get_next_chunk(chunk_size)]
    returns exactly [chunk_size] samples: the slice, zero-padded when the
    audio ends inside it. *)
Theorem get_next_chunk_length self (chunk_size : nat) :
  length (fst (AudioSource.get_next_chunk self chunk_size)) = chunk_size.
Proof. rewrite get_next_chunk_padded. apply length_padded_block. Qed.

Lemma loop_blocks_step (L n j : nat) :
  (0 < n)%nat -> (j < loop_blocks L n)%nat ->
  (if (L <=? j * n + n + n)%nat then 0 else j * n + n)%nat
  = (((j + 1) mod loop_blocks L n) * n)%nat.
Proof.
  intros Hn Hj. unfold loop_blocks in *.
  pose proof (Nat.div_mod_eq (L - 1) n) as Hdm.
  pose proof (Nat.mod_upper_bound (L - 1) n ltac:(lia)) as Hm.
  set (q := ((L - 1) / n)%nat) in *.
  destruct (Nat.ltb_spec (j + 1) (Nat.max 1 q)) as [Hlt|Hge].
  - rewrite Nat.mod_small by exact Hlt.
    assert ((j + 2) * n <= n * q)%nat by nia.
    destruct (Nat.leb_spec L (j * n + n + n)); nia.
  - assert (j + 1 = Nat.max 1 q)%nat as -> by lia.
    rewrite Nat.Div0.mod_same. cbn [Nat.mul].
    assert (n * q < (j + 2) * n)%nat by nia.
    destruct (Nat.leb_spec L (j * n + n + n)); nia.
Qed.

Lemma play_from self (n K j : nat) :
  (0 < n)%nat ->
  (j < loop_blocks (length (AudioSource.audio_data self)) n)%nat ->
  AudioSource.ptr self = (j * n)%nat ->
  fst (AudioSource.play self n K)
  = map (fun k =>
           padded_block (AudioSource.audio_data self)
             (((j + k) mod loop_blocks (length (AudioSource.audio_data self)) n)
              * n) n)
        (seq 0 K).
Proof.
  intros Hn. revert self j. induction K as [|K IH]; intros self j Hj Hp.
  - reflexivity.
  - cbn [AudioSource.play].
    pose proof (get_next_chunk_padded self n) as Hc.
    destruct (AudioSource.get_next_chunk self n) as [c self1] eqn:E.
    cbn [fst] in Hc.
    assert (AudioSource.audio_data self1 = AudioSource.audio_data self
            /\ AudioSource.ptr self1
               = (((j + 1) mod loop_blocks
                     (length (AudioSource.audio_data self)) n) * n)%nat)
      as [Hd Hp1].
    { unfold AudioSource.get_next_chunk in E. injection E as _ <-.
      cbn [AudioSource.audio_data AudioSource.ptr]. split; [reflexivity|].
      rewrite Hp. now apply loop_blocks_step. }
    specialize (IH self1 ((j + 1) mod loop_blocks
                            (length (AudioSource.audio_data self)) n)%nat).
    rewrite Hd in IH.
    destruct (AudioSource.play self1 n K) as [cs self2].
    cbn [fst] in *. rewrite <- cons_seq, <- fmap_S_seq.
    cbn [map]. f_equal.
    + rewrite Hc, Hp, Nat.add_0_r, Nat.mod_small by exact Hj. reflexivity.
    + rewrite IH; [| apply Nat.mod_upper_bound; unfold loop_blocks; lia
                   | exact Hp1].
      change (map ?f (S <$> ?l)) with (map f (map S l)).
      rewrite map_map. apply map_ext. intros k.
      rewrite Nat.Div0.add_mod_idemp_l.
      do 3 f_equal. lia.
Qed.

(** X2.  Read from the start in blocks of [n > 0] samples, an audio of [L]
    samples plays as a loop of [m = max(1, (L - 1) div n)] blocks: the
    [k]-th call returns the block that starts at [(k mod m) * n].  (So the
    samples from [m * n] on are never played when [L > n], and a source no
    longer than two blocks repeats its first block.) *)
Theorem playback_loop self (n K : nat) :
  (0 < n)%nat ->
  AudioSource.ptr self = 0%nat ->
  fst (AudioSource.play self n K)
  = map (fun k =>
           padded_block (AudioSource.audio_data self)
             ((k mod loop_blocks (length (AudioSource.audio_data self)) n)
              * n) n)
        (seq 0 K).
Proof.
  intros Hn Hp.
  apply (play_from self n K 0 Hn); [unfold loop_blocks; lia | exact Hp].
Qed.
End Playback.

Lemma playback_loop_witness :
  fst (AudioSource.play three_samples 1 5)
  = map (fun k =>
           padded_block (AudioSource.audio_data three_samples)
             ((k mod loop_blocks
                       (length (AudioSource.audio_data three_samples)) 1)
              * 1) 1)
        (seq 0 5).
Proof. apply playback_loop; [lia | reflexivity]. Defined.

Section SilentFallback.
Context {A : Type} `{Arith A} `{Host A}.

Lemma padded_block_zeros (L start n : nat) :
  padded_block (np_zeros L : list A) start n = np_zeros n.
Proof.
  unfold padded_block, slice, np_zeros. cbv zeta.
  rewrite drop_replicate, take_replicate, length_replicate,
    <- replicate_add.
  f_equal. lia.
Qed.

Lemma play_zeros (self : AudioSource.t A) (L n K : nat) :
  AudioSource.audio_data self = np_zeros L ->
  fst (AudioSource.play self n K) = replicate K (np_zeros n).
Proof.
  revert self. induction K as [|K IH]; intros self Hd; [reflexivity|].
  cbn [AudioSource.play].
  pose proof (get_next_chunk_padded self n) as Hc.
  destruct (AudioSource.get_next_chunk self n) as [c self1] eqn:E.
  assert (AudioSource.audio_data self1 = np_zeros L) as Hd1.
  { unfold AudioSource.get_next_chunk in E. injection E as _ <-. exact Hd. }
  specialize (IH self1 Hd1).
  destruct (AudioSource.play self1 n K) as [cs self2].
  cbn [fst] in *. rewrite Hc, Hd, padded_block_zeros, IH. reflexivity.
Qed.

(** X3.  A source whose file does not exist falls back to five seconds of
    silence: for a sample rate that is not negative the constructor
    returns a source of [5 * target_sr] zero samples with the cursor at 0,
    and every block it ever delivers is all zero; for a negative sample
    rate the constructor raises [ValueError]. *)
Theorem missing_file_plays_silence (name : string) (pos : vec3 A)
    (audio_path : string) (target_sr : Z) :
  os_path_exists audio_path = false ->
  (target_sr < 0 ->
   AudioSource__init__ name pos audio_path target_sr = inl ValueError) /\
  (0 <= target_sr ->
   exists src,
     AudioSource__init__ name pos audio_path target_sr = inr src /\
     AudioSource.name src = name /\ AudioSource.pos src = pos /\
     AudioSource.audio_data src = np_zeros (Z.to_nat (target_sr * 5)) /\
     AudioSource.ptr src = 0%nat /\
     forall n K, fst (AudioSource.play src n K) = replicate K (np_zeros n)).
Proof.
  intros Hno. unfold AudioSource__init__. rewrite Hno. cbn [bind ret].
  split; intros Hsr.
  - destruct (Z.ltb_spec (target_sr * 5) 0); [reflexivity | lia].
  - destruct (Z.ltb_spec (target_sr * 5) 0); [lia|].
    cbn [bind ret]. eexists. split; [reflexivity|].
    cbn [AudioSource.name AudioSource.pos AudioSource.audio_data
         AudioSource.ptr].
    repeat (split; [reflexivity|]).
    intros n K. now apply (play_zeros _ (Z.to_nat (target_sr * 5))).
Qed.
End SilentFallback.

Lemma missing_file_plays_silence_witness :
  (96000 < 0 ->
   AudioSource__init__ (A := float) (H0 := no_files) "Wind" (0, 0, 12)%float
     "wind.mp3" 96000 = inl ValueError) /\
  (0 <= 96000 ->
   exists src,
     AudioSource__init__ (A := float) (H0 := no_files) "Wind"
       (0, 0, 12)%float "wind.mp3" 96000 = inr src /\
     AudioSource.name src = "Wind"%string /\
     AudioSource.pos src = (0, 0, 12)%float /\
     AudioSource.audio_data src = np_zeros (Z.to_nat (96000 * 5)) /\
     AudioSource.ptr src = 0%nat /\
     forall n K, fst (AudioSource.play src n K) = replicate K (np_zeros n)).
Proof.
  apply (missing_file_plays_silence (H0 := no_files)). reflexivity.
Defined.

(* --------------------------------------------------------------------- *)
(** ** AudioEngine *)
(* --------------------------------------------------------------------- *)

Section Dicts.
Context {V : Type}.

Lemma dict_set_fresh (d : list (string * V)) (k : string) (v : V) :
  k ∉ map fst d -> dict_set d k v = d ++ [(k, v)].
Proof.
  induction d as [|[k' v'] d IH]; intros Hk; cbn; [reflexivity|].
  cbn in Hk. rewrite not_elem_of_cons in Hk. destruct Hk as [Hne Hk].
  destruct (String.eqb_spec k' k) as [->|_]; [contradiction|].
  now rewrite IH.
Qed.
End Dicts.

Section Engine.
Context {A : Type} `{Arith A}.
Implicit Types e : AudioEngine.t A.

Lemma get_source_chunks_fold (n : nat) (srcs : list (AudioSource.t A))
    (d0 : list (DSPPipeline.source_entry A)) (m0 : list (AudioSource.t A)) :
  NoDup (map fst d0 ++ map AudioSource.name srcs) ->
  foldl (fun (acc : list (DSPPipeline.source_entry A)
                    * list (AudioSource.t A)) s =>
           let (chunk, s') := AudioSource.get_next_chunk s n in
           (dict_set (fst acc) (AudioSource.name s)
              (chunk, AudioSource.pos s),
            snd acc ++ [s']))
        (d0, m0) srcs
  = (d0 ++ map (entry_of n) srcs, m0 ++ map (advance n) srcs).
Proof.
  revert d0 m0. induction srcs as [|s srcs IH]; intros d0 m0 Hnd.
  - cbn. now rewrite !app_nil_r.
  - cbn [foldl map]. unfold entry_of at 1, advance at 1.
    destruct (AudioSource.get_next_chunk s n) as [c s'] eqn:E.
    cbn [fst snd].
    cbn [map] in Hnd. apply NoDup_app in Hnd as (Hd0 & Hdis & Hs).
    apply NoDup_cons in Hs as [Hs1 Hs2].
    rewrite dict_set_fresh
      by (intros Hin; apply (Hdis _ Hin); left).
    rewrite IH.
    + now rewrite <- !app_assoc.
    + rewrite map_app. cbn [map fst]. rewrite <- app_assoc. cbn [app].
      apply NoDup_app. split; [exact Hd0|]. split.
      * intros x Hx Hx'. apply elem_of_cons in Hx' as [->|Hx'].
        -- apply (Hdis _ Hx). left.
        -- apply (Hdis _ Hx). now right.
      * now apply NoDup_cons.
Qed.

(** X4.  [get_source_chunks] (the definition that is in force) serves
    every source on every call, whatever [active_idx] is: with sources of
    distinct names it returns one entry per source, in the order of the
    sources, each with the next block of that source and its position; it
    moves the cursor of every source and leaves [active_idx] and
    [samples_played] as they are. *)
Theorem get_source_chunks_serves_every_source e :
  NoDup (map AudioSource.name (AudioEngine.sources e)) ->
  AudioEngine.get_source_chunks e
  = (map (entry_of (AudioEngine.chunk_size e)) (AudioEngine.sources e),
     {| AudioEngine.sample_rate := AudioEngine.sample_rate e;
        AudioEngine.chunk_size := AudioEngine.chunk_size e;
        AudioEngine.sources :=
          map (advance (AudioEngine.chunk_size e)) (AudioEngine.sources e);
        AudioEngine.active_idx := AudioEngine.active_idx e;
        AudioEngine.samples_played := AudioEngine.samples_played e;
        AudioEngine.switch_threshold := AudioEngine.switch_threshold e;
        AudioEngine.mic_enabled := AudioEngine.mic_enabled e |}).
Proof.
  intros Hnd. unfold AudioEngine.get_source_chunks.
  rewrite get_source_chunks_fold by exact Hnd. reflexivity.
Qed.

Lemma active_call e :
  (AudioEngine.active_idx e < length (AudioEngine.sources e))%nat ->
  exists s,
    AudioEngine.sources e !! AudioEngine.active_idx e = Some s /\
    let played := AudioEngine.samples_played e
                  + Z.of_nat (AudioEngine.chunk_size e) in
    let switch := AudioEngine.switch_threshold e <=? played in
    AudioEngine.get_active_source_chunk e
    = inr (Some [entry_of (AudioEngine.chunk_size e) s],
           {| AudioEngine.sample_rate := AudioEngine.sample_rate e;
              AudioEngine.chunk_size := AudioEngine.chunk_size e;
              AudioEngine.sources :=
                <[AudioEngine.active_idx e :=
                    advance (AudioEngine.chunk_size e) s]>
                  (AudioEngine.sources e);
              AudioEngine.active_idx :=
                if switch
                then ((AudioEngine.active_idx e + 1)
                      mod length (AudioEngine.sources e))%nat
                else AudioEngine.active_idx e;
              AudioEngine.samples_played := if switch then 0 else played;
              AudioEngine.switch_threshold := AudioEngine.switch_threshold e;
              AudioEngine.mic_enabled := AudioEngine.mic_enabled e |}).
Proof.
  intros Hi. destruct (lookup_lt_is_Some_2 _ _ Hi) as [s Hs].
  exists s. split; [exact Hs|]. cbv zeta.
  unfold AudioEngine.get_active_source_chunk. rewrite Hs.
  destruct (AudioEngine.sources e) as [|s0 rest] eqn:Es;
    [cbn in Hi; lia|].
  unfold entry_of, advance.
  destruct (AudioSource.get_next_chunk s _) as [c s'].
  cbn [fst snd]. now rewrite length_insert.
Qed.

(** X5.  One call of [get_active_source_chunk] with a valid [active_idx]
    does not raise; its dict has the single entry of the source that was
    active when the call began (also when the call switches to the next
    source); only that source's cursor moves, every other source is left
    as it is; and [active_idx] is valid again afterwards. *)
Theorem get_active_source_chunk_touches_one_source e :
  (AudioEngine.active_idx e < length (AudioEngine.sources e))%nat ->
  exists s e',
    AudioEngine.sources e !! AudioEngine.active_idx e = Some s /\
    AudioEngine.get_active_source_chunk e
    = inr (Some [entry_of (AudioEngine.chunk_size e) s], e') /\
    AudioEngine.sources e' !! AudioEngine.active_idx e
    = Some (advance (AudioEngine.chunk_size e) s) /\
    (forall i, i <> AudioEngine.active_idx e ->
       AudioEngine.sources e' !! i = AudioEngine.sources e !! i) /\
    length (AudioEngine.sources e') = length (AudioEngine.sources e) /\
    (AudioEngine.active_idx e' < length (AudioEngine.sources e'))%nat.
Proof.
  intros Hi. destruct (active_call e Hi) as (s & Hs & E). cbv zeta in E.
  exists s. eexists. split; [exact Hs|]. split; [exact E|].
  cbn [AudioEngine.sources AudioEngine.active_idx].
  split; [now apply list_lookup_insert_eq|].
  split; [intros i Hne; now apply list_lookup_insert_ne|].
  rewrite length_insert. split; [reflexivity|].
  destruct (_ <=? _); [apply Nat.mod_upper_bound; lia | exact Hi].
Qed.

Lemma active_calls_before_switch (k : nat) : forall e,
  (AudioEngine.active_idx e < length (AudioEngine.sources e))%nat ->
  AudioEngine.samples_played e
  + Z.of_nat k * Z.of_nat (AudioEngine.chunk_size e)
  < AudioEngine.switch_threshold e ->
  exists e',
    active_calls e k = inr e' /\
    AudioEngine.active_idx e' = AudioEngine.active_idx e /\
    AudioEngine.samples_played e'
    = AudioEngine.samples_played e
      + Z.of_nat k * Z.of_nat (AudioEngine.chunk_size e) /\
    AudioEngine.chunk_size e' = AudioEngine.chunk_size e /\
    AudioEngine.switch_threshold e' = AudioEngine.switch_threshold e /\
    length (AudioEngine.sources e') = length (AudioEngine.sources e).
Proof.
  induction k as [|k IH]; intros e Hi Hlt.
  - exists e. cbn [active_calls]. repeat split; lia.
  - destruct (active_call e Hi) as (s & _ & E). cbv zeta in E.
    cbn [active_calls]. rewrite E. cbn [bind snd].
    destruct (Z.leb_spec (AudioEngine.switch_threshold e)
                (AudioEngine.samples_played e
                 + Z.of_nat (AudioEngine.chunk_size e))) as [Hge|Hsmall];
      [nia|].
    edestruct IH as (e' & Er & H1 & H2 & H3 & H4 & H5); cycle 2.
    + exists e'. split; [exact Er|].
      cbn [AudioEngine.active_idx AudioEngine.samples_played
           AudioEngine.chunk_size AudioEngine.switch_threshold
           AudioEngine.sources] in *.
      rewrite length_insert in H5.
      repeat split; try assumption; lia.
    + cbn [AudioEngine.active_idx AudioEngine.sources].
      now rewrite length_insert.
    + cbn [AudioEngine.samples_played AudioEngine.chunk_size
           AudioEngine.switch_threshold]. nia.
Qed.

Lemma active_calls_add (j : nat) : forall e (k : nat),
  active_calls e (k + j) = (e' <- active_calls e k ;; active_calls e' j).
Proof.
  intros e k. revert e. induction k as [|k IH]; intros e; [reflexivity|].
  cbn [Nat.add active_calls].
  destruct (AudioEngine.get_active_source_chunk e) as [err|r];
    [reflexivity|].
  cbn [bind]. apply IH.
Qed.

(** X6.  From [samples_played = 0], with a block of [c > 0] samples and a
    threshold [T > 0], the active source is kept for the first
    [N - 1] calls and the [N]-th call switches to the next source (the
    first one after the last), where [N] is [T / c] rounded up; no call
    raises.  The switch resets [samples_played] to 0. *)
Theorem active_source_switches_after_threshold e (k : nat) :
  (AudioEngine.active_idx e < length (AudioEngine.sources e))%nat ->
  AudioEngine.samples_played e = 0 ->
  (0 < AudioEngine.chunk_size e)%nat ->
  0 < AudioEngine.switch_threshold e ->
  let c := Z.of_nat (AudioEngine.chunk_size e) in
  let N := Z.to_nat ((AudioEngine.switch_threshold e + c - 1) / c) in
  (k < N)%nat ->
  (exists e',
     active_calls e k = inr e' /\
     AudioEngine.active_idx e' = AudioEngine.active_idx e /\
     AudioEngine.samples_played e' = Z.of_nat k * c) /\
  (exists e',
     active_calls e N = inr e' /\
     AudioEngine.active_idx e'
     = ((AudioEngine.active_idx e + 1)
        mod length (AudioEngine.sources e))%nat /\
     AudioEngine.samples_played e' = 0).
Proof.
  intros Hi Hsp Hc HT c N Hk.
  set (T := AudioEngine.switch_threshold e) in *.
  assert (0 < c) as Hc' by (unfold c; lia).
  assert ((Z.of_nat N - 1) * c < T <= Z.of_nat N * c) as HN.
  { unfold N. rewrite Z2Nat.id by (apply Z.div_pos; lia).
    pose proof (Z.div_mod (T + c - 1) c ltac:(lia)) as Hdm.
    pose proof (Z.mod_pos_bound (T + c - 1) c Hc') as Hm.
    nia. }
  split.
  - destruct (active_calls_before_switch k e Hi) as (e' & E & H1 & H2 & _).
    { rewrite Hsp. fold c T. nia. }
    exists e'. split; [exact E|]. split; [exact H1|].
    rewrite H2, Hsp. reflexivity.
  - assert (N = (N - 1) + 1)%nat as -> by lia.
    rewrite active_calls_add.
    destruct (active_calls_before_switch (N - 1) e Hi)
      as (e1 & E & H1 & H2 & H3 & H4 & H5).
    { rewrite Hsp. fold c T. nia. }
    rewrite E. cbn [bind active_calls].
    assert (AudioEngine.active_idx e1 < length (AudioEngine.sources e1))%nat
      as Hi1 by (rewrite H1, H5; exact Hi).
    destruct (active_call e1 Hi1) as (s & _ & E1). cbv zeta in E1.
    rewrite E1. cbn [bind snd ret]. eexists. split; [reflexivity|].
    cbn [AudioEngine.active_idx AudioEngine.samples_played].
    rewrite H2, H3, H4, Hsp. fold c T.
    destruct (Z.leb_spec T (0 + Z.of_nat (N - 1) * c + c)) as [_|Hlt];
      [|nia].
    rewrite H1, H5. split; reflexivity.
Qed.
End Engine.

Lemma get_source_chunks_serves_every_source_witness :
  AudioEngine.get_source_chunks small_engine
  = (map (entry_of 2) two_sources,
     {| AudioEngine.sample_rate := 1; AudioEngine.chunk_size := 2%nat;
        AudioEngine.sources := map (advance 2) two_sources;
        AudioEngine.active_idx := 0%nat; AudioEngine.samples_played := 0;
        AudioEngine.switch_threshold := 5;
        AudioEngine.mic_enabled := None |}).
Proof.
  apply (get_source_chunks_serves_every_source small_engine).
  cbn. apply NoDup_cons. split; [|apply NoDup_singleton].
  intros Hin. apply list_elem_of_singleton in Hin. discriminate Hin.
Defined.

Lemma get_active_source_chunk_touches_one_source_witness :
  exists s e',
    AudioEngine.sources small_engine !! 0%nat = Some s /\
    AudioEngine.get_active_source_chunk small_engine
    = inr (Some [entry_of 2 s], e') /\
    AudioEngine.sources e' !! 0%nat = Some (advance 2 s) /\
    (forall i, i <> 0%nat ->
       AudioEngine.sources e' !! i = AudioEngine.sources small_engine !! i) /\
    length (AudioEngine.sources e') = 2%nat /\
    (AudioEngine.active_idx e' < length (AudioEngine.sources e'))%nat.
Proof.
  apply (get_active_source_chunk_touches_one_source small_engine).
  cbn. lia.
Defined.

Lemma active_source_switches_after_threshold_witness :
  (exists e',
     active_calls small_engine 2 = inr e' /\
     AudioEngine.active_idx e' = 0%nat /\
     AudioEngine.samples_played e' = 4) /\
  (exists e',
     active_calls small_engine 3 = inr e' /\
     AudioEngine.active_idx e' = 1%nat /\
     AudioEngine.samples_played e' = 0).
Proof.
  apply (active_source_switches_after_threshold small_engine 2);
    first [reflexivity | cbn; lia | vm_compute; lia].
Defined.

Section Microphone.
Context {A : Type} `{Arith A} `{Host A}.

(** X7.  A constructed engine has no [mic_enabled] attribute, so
    [get_input_chunk] raises [AttributeError] until [set_mic_input] has
    been called; after [set_mic_input(False)] it returns [chunk_size]
    zeros, and after [set_mic_input(True)] the random draw. *)
Theorem get_input_chunk_needs_set_mic_input (sample_rate : Z)
    (chunk_size : nat) (e : AudioEngine.t A) (draw : list A) :
  AudioEngine.__init__ sample_rate chunk_size = inr e ->
  AudioEngine.get_input_chunk e draw = inl AudioEngine.AttributeError /\
  AudioEngine.get_input_chunk (AudioEngine.set_mic_input e false) draw
  = inr (np_zeros chunk_size) /\
  AudioEngine.get_input_chunk (AudioEngine.set_mic_input e true) draw
  = inr draw.
Proof.
  unfold AudioEngine.__init__. intros E.
  destruct (AudioEngine._init_sources sample_rate []) as [err|srcs];
    cbn in E; [discriminate|].
  injection E as <-. repeat split.
Qed.
End Microphone.

Lemma get_input_chunk_needs_set_mic_input_witness :
  exists e,
    AudioEngine.__init__ (A := float) (H0 := no_files) 8 4 = inr e /\
    AudioEngine.get_input_chunk e [0.5]%float
    = inl AudioEngine.AttributeError /\
    AudioEngine.get_input_chunk (AudioEngine.set_mic_input e false)
      [0.5]%float = inr (np_zeros 4) /\
    AudioEngine.get_input_chunk (AudioEngine.set_mic_input e true)
      [0.5]%float = inr [0.5]%float.
Proof.
  assert (exists e,
            AudioEngine.__init__ (A := float) (H0 := no_files) 8 4 = inr e)
    as [e E] by (eexists; vm_compute; reflexivity).
  exists e. split; [exact E|].
  exact (get_input_chunk_needs_set_mic_input (H0 := no_files) 8 4 e _ E).
Defined.

(* --------------------------------------------------------------------- *)
(** ** STM32_Controller.process_audio_dma *)
(* --------------------------------------------------------------------- *)

Section DMA.
Context {T : Type}.
Implicit Types c : STM32_Controller.t T.

Lemma dma_calls_cons c (x : T) (rest : list T) :
  dma_calls c (x :: rest)
  = (fst (dma_calls (fst (STM32_Controller.process_audio_dma c x)) rest),
     snd (STM32_Controller.process_audio_dma c x)
     :: snd (dma_calls (fst (STM32_Controller.process_audio_dma c x)) rest)).
Proof.
  cbn [dma_calls].
  destruct (STM32_Controller.process_audio_dma c x) as [c1 out].
  cbn [fst snd]. now destruct (dma_calls c1 rest).
Qed.

Lemma dma_calls_state (inputs : list T) : forall c,
  STM32_Controller.processed_buffers (fst (dma_calls c inputs))
  = STM32_Controller.processed_buffers c + Z.of_nat (length inputs) /\
  (inputs <> [] ->
   STM32_Controller.dma_buffer_idx (fst (dma_calls c inputs))
   = (STM32_Controller.dma_buffer_idx c + Z.of_nat (length inputs)) mod 2) /\
  STM32_Controller.audio_dma_callback (fst (dma_calls c inputs))
  = STM32_Controller.audio_dma_callback c.
Proof.
  induction inputs as [|x rest IH]; intros c.
  - cbn. split; [lia|]. split; [intros []|]; reflexivity.
  - rewrite dma_calls_cons. cbn [fst length].
    destruct (IH (fst (STM32_Controller.process_audio_dma c x)))
      as (H1 & H2 & H3).
    cbn [STM32_Controller.process_audio_dma fst
         STM32_Controller.processed_buffers
         STM32_Controller.dma_buffer_idx
         STM32_Controller.audio_dma_callback] in *.
    split; [lia|]. split; [|exact H3]. intros _.
    destruct rest as [|y rest'].
    + cbn. f_equal.
    + rewrite H2 by discriminate. rewrite Zplus_mod_idemp_l. f_equal. lia.
Qed.

Lemma dma_calls_passthrough (inputs : list T) : forall c,
  STM32_Controller.audio_dma_callback c = None ->
  snd (dma_calls c inputs) = map inr inputs.
Proof.
  induction inputs as [|x rest IH]; intros c Hc; [reflexivity|].
  rewrite dma_calls_cons. cbn [snd map]. f_equal.
  - cbn. now rewrite Hc.
  - apply IH. exact Hc.
Qed.

(** X8.  Every DMA request adds one to [processed_buffers] and flips
    [dma_buffer_idx] between 0 and 1, whether or not a callback is set and
    whatever the callback does (it may raise): after [n > 0] requests
    [dma_buffer_idx] is [(old + n) mod 2] and [processed_buffers] is
    [old + n].  On a newly constructed controller no callback is set and
    every request returns its input unchanged. *)
Theorem process_audio_dma_counts c (inputs : list T)
    (sample_rate buffer_size : Z) :
  inputs <> [] ->
  let n := Z.of_nat (length inputs) in
  STM32_Controller.processed_buffers (fst (dma_calls c inputs))
  = STM32_Controller.processed_buffers c + n /\
  STM32_Controller.dma_buffer_idx (fst (dma_calls c inputs))
  = (STM32_Controller.dma_buffer_idx c + n) mod 2 /\
  let fresh := STM32_Controller.__init__ sample_rate buffer_size in
  dma_calls fresh inputs
  = ({| STM32_Controller.sample_rate := sample_rate;
        STM32_Controller.buffer_size := buffer_size;
        STM32_Controller.running := false;
        STM32_Controller.audio_dma_callback := None;
        STM32_Controller.dma_buffer_idx := n mod 2;
        STM32_Controller.processed_buffers := n |},
     map inr inputs).
Proof.
  intros Hne. cbv zeta.
  destruct (dma_calls_state inputs c) as (H1 & H2 & _).
  split; [exact H1|]. split; [exact (H2 Hne)|].
  set (fresh := STM32_Controller.__init__ sample_rate buffer_size).
  pose proof (dma_calls_passthrough inputs fresh eq_refl) as Ho.
  destruct (dma_calls_state inputs fresh) as (F1 & F2 & F3).
  specialize (F2 Hne).
  assert (forall c', STM32_Controller.sample_rate
                       (fst (dma_calls c' inputs))
                     = STM32_Controller.sample_rate c'
                     /\ STM32_Controller.buffer_size
                          (fst (dma_calls c' inputs))
                        = STM32_Controller.buffer_size c'
                     /\ STM32_Controller.running (fst (dma_calls c' inputs))
                        = STM32_Controller.running c') as Hrest.
  { clear. induction inputs as [|x rest IH]; intros c'; [now cbn|].
    rewrite dma_calls_cons. cbn [fst].
    destruct (IH (fst (STM32_Controller.process_audio_dma c' x)))
      as (-> & -> & ->). now cbn. }
  destruct (Hrest fresh) as (R1 & R2 & R3).
  destruct (dma_calls fresh inputs) as [c2 outs]. cbn [fst snd] in *.
  subst outs. f_equal. destruct c2. cbn in *. now subst.
Qed.
End DMA.

Lemma process_audio_dma_counts_witness :
  let c := STM32_Controller.__init__ (T := Z) 96000 1024 in
  STM32_Controller.processed_buffers (fst (dma_calls c [7; 8; 9])) = 0 + 3 /\
  STM32_Controller.dma_buffer_idx (fst (dma_calls c [7; 8; 9]))
  = (0 + 3) mod 2 /\
  dma_calls c [7; 8; 9]
  = ({| STM32_Controller.sample_rate := 96000;
        STM32_Controller.buffer_size := 1024;
        STM32_Controller.running := false;
        STM32_Controller.audio_dma_callback := None;
        STM32_Controller.dma_buffer_idx := 3 mod 2;
        STM32_Controller.processed_buffers := 3 |},
     map inr [7; 8; 9]).
Proof.
  apply (process_audio_dma_counts
           (STM32_Controller.__init__ 96000 1024) [7; 8; 9] 96000 1024).
  discriminate.
Defined.

(* --------------------------------------------------------------------- *)
(** ** EnvironmentDSP: the constructor, Doppler, and the reverb stream *)
(* --------------------------------------------------------------------- *)

Lemma py_int_half (sample_rate : Z) :
  py_int (mul (of_Z sample_rate) (lit 5 10) : Qc)
  = inr (if 0 <=? sample_rate then sample_rate / 2
         else - ((- sample_rate) / 2)).
Proof.
  cbn [py_int exact ret]. f_equal.
  assert (Eq : (this (mul (of_Z sample_rate) (lit 5 10) : Qc)
                == inject_Z sample_rate / inject_Z 2)%Q).
  { cbn [mul exact]. rewrite this_mult, this_of_Z.
    change (this (lit 5 10)) with (1 # 2)%Q.
    change (inject_Z 2) with 2%Q. field. }
  unfold Qtrunc.
  assert (Hs : (0 <= inject_Z sample_rate)%Q <-> 0 <= sample_rate)
    by (change 0%Q with (inject_Z 0); rewrite <- Zle_Qle; reflexivity).
  destruct (Z.leb_spec 0 sample_rate) as [Hnn|Hneg].
  - assert (Hq : (0 <= this (mul (of_Z sample_rate) (lit 5 10) : Qc))%Q).
    { rewrite Eq. change (inject_Z 2) with 2%Q.
      apply Qle_shift_div_l; [lra|]. apply Hs in Hnn. lra. }
    apply Qle_bool_iff in Hq. rewrite Hq.
    rewrite (Qfloor_comp _ _ Eq). symmetry. apply Zdiv_Qdiv.
  - assert (Hq : Qle_bool 0 (this (mul (of_Z sample_rate) (lit 5 10) : Qc))
                 = false).
    { destruct (Qle_bool 0 _) eqn:E; [|reflexivity].
      apply Qle_bool_iff in E. rewrite Eq in E.
      change (inject_Z 2) with 2%Q in E.
      assert (0 <= inject_Z sample_rate)%Q as H0.
      { change (inject_Z sample_rate / 2)%Q
          with (inject_Z sample_rate * (1 # 2))%Q in E. lra. }
      apply Hs in H0. lia. }
    rewrite Hq. unfold Qceiling. f_equal.
    rewrite (Zdiv_Qdiv (- sample_rate) 2). apply Qfloor_comp.
    rewrite Eq, inject_Z_opp. field.
Qed.

(** X9.  In exact arithmetic [EnvironmentDSP(sample_rate)] holds half a
    second of reverb memory: for every sample rate above -2 its buffer is
    [floor(sample_rate / 2)] zeros (none at all for -1, 0 and 1) with the
    cursor at 0, the three gains are 1 and the decay is 0.4; a sample rate
    of -2 or less raises [ValueError]. *)
Theorem reverb_buffer_is_half_a_second (sample_rate : Z) :
  (sample_rate <= -2 ->
   EnvironmentDSP.__init__ (A := Qc) sample_rate = inl ValueError) /\
  (-2 < sample_rate ->
   EnvironmentDSP.__init__ (A := Qc) sample_rate
   = inr {| EnvironmentDSP.sample_rate := sample_rate;
            EnvironmentDSP.low_gain := of_Z 1;
            EnvironmentDSP.mid_gain := of_Z 1;
            EnvironmentDSP.high_gain := of_Z 1;
            EnvironmentDSP.reverb_decay := lit 4 10;
            EnvironmentDSP.reverb_buffer :=
              np_zeros (Z.to_nat (sample_rate / 2));
            EnvironmentDSP.ptr := 0%nat |}).
Proof.
  unfold EnvironmentDSP.__init__. rewrite py_int_half. cbn [bind].
  split; intros Hs.
  - destruct (Z.leb_spec 0 sample_rate); [lia|].
    assert (1 <= - sample_rate / 2)
      by (apply Z.div_le_lower_bound; lia).
    destruct (Z.ltb_spec (- (- sample_rate / 2)) 0); [reflexivity | lia].
  - destruct (Z.leb_spec 0 sample_rate).
    + pose proof (Z.div_pos sample_rate 2 ltac:(lia) ltac:(lia)).
      destruct (Z.ltb_spec (sample_rate / 2) 0); [lia | reflexivity].
    + assert (sample_rate = -1) as -> by lia. reflexivity.
Qed.

Section Doppler.
Context {A : Type} `{Arith A} `{Numpy A}.

(** X10.  [apply_doppler] never changes the length of a block: whatever
    the velocity and whatever [scipy.signal.resample] returns, a result, if
    there is one, has as many samples as the input. *)
Theorem apply_doppler_keeps_length (env : EnvironmentDSP.t A)
    (audio_chunk : list A) (relative_velocity : A) (out : list A) :
  EnvironmentDSP.apply_doppler env audio_chunk relative_velocity = inr out ->
  length out = length audio_chunk.
Proof.
  unfold EnvironmentDSP.apply_doppler. intros E.
  destruct (_ =? _)%py; [discriminate|].
  destruct (_ <? _)%py; [now injection E as <-|].
  destruct (py_int _) as [err|num]; cbn [bind] in E; [discriminate|].
  destruct (num <=? 0); [now injection E as <-|].
  set (res := signal_resample _ _) in *.
  destruct (Nat.ltb_spec (length audio_chunk) (length res)) as [Hlt|Hge];
    injection E as <-.
  - rewrite length_take. lia.
  - rewrite length_app, length_np_zeros. lia.
Qed.
End Doppler.

Lemma apply_doppler_keeps_length_witness :
  exists out,
    EnvironmentDSP.apply_doppler (H0 := stand_in) env_8
      [1; 2; 3; 4]%float 34.3%float = inr out /\
    length out = length [1; 2; 3; 4]%float.
Proof.
  assert (exists out,
            EnvironmentDSP.apply_doppler (H0 := stand_in) env_8
              [1; 2; 3; 4]%float 34.3%float = inr out)
    as [out E] by (eexists; vm_compute; reflexivity).
  exists out. split; [exact E|].
  exact (apply_doppler_keeps_length (H0 := stand_in) env_8 _ _ out E).
Defined.

Lemma Qcabs_lt_iff (x : Qc) (b : Q) :
  (Qcabs x < Q2Qc b)%Qc <-> (- b < this x /\ this x < b)%Q.
Proof.
  apply Qcabs_case; intros Hx; unfold Qclt, Qcle in *;
    rewrite ?this_opp, this_Q2Qc in *; lra.
Qed.

Lemma Qc_ltb_true (x y : Qc) : Qc_ltb x y = true <-> (x < y)%Qc.
Proof.
  unfold Qc_ltb. rewrite Qclt_alt.
  destruct (x ?= y)%Qc; split; intros E; congruence.
Qed.

Lemma doppler_divisor (v : Qc) :
  ((of_Z 343 + v =? of_Z 0)%py = true) <-> v = of_Z (-343).
Proof.
  cbn [eqb add of_Z exact]. split.
  - intros E. apply Qc_eq_bool_correct in E.
    apply Qc_is_canon. apply (f_equal this) in E.
    assert (this (Q2Qc (inject_Z 343) + v)%Qc == this (Q2Qc (inject_Z 0)))%Q
      as E' by (rewrite E; reflexivity).
    rewrite this_plus, !this_Q2Qc in *.
    change (inject_Z 343) with 343%Q in E'.
    change (inject_Z 0) with 0%Q in E'.
    change (inject_Z (-343)) with (-343)%Q. lra.
  - intros ->. reflexivity.
Qed.

Section ExactDoppler.
Context `{Numpy Qc}.

(** X11.  In exact arithmetic a source whose radial velocity lies strictly
    between -343/1001 and 343/999 m/s (about a third of a metre per
    second) gets no Doppler shift: [apply_doppler] returns the block
    unchanged. *)
Theorem apply_doppler_slow_source_unchanged (env : EnvironmentDSP.t Qc)
    (audio_chunk : list Qc) (relative_velocity : Qc) :
  (Q2Qc (-343 # 1001) < relative_velocity)%Qc ->
  (relative_velocity < Q2Qc (343 # 999))%Qc ->
  EnvironmentDSP.apply_doppler env audio_chunk relative_velocity
  = inr audio_chunk.
Proof.
  intros Hlo Hhi. unfold EnvironmentDSP.apply_doppler.
  set (v := relative_velocity) in *.
  unfold Qclt in Hlo, Hhi. rewrite this_Q2Qc in Hlo, Hhi.
  destruct (of_Z 343 + v =? of_Z 0)%py eqn:E0.
  { apply doppler_divisor in E0. rewrite E0 in Hlo.
    change (this (of_Z (-343))) with (-343)%Q in Hlo. lra. }
  assert (Qc_ltb (Qcabs (Q2Qc (inject_Z 343) / (Q2Qc (inject_Z 343) + v)
                         - Q2Qc (inject_Z 1)))
                 (lit 1 1000) = true) as Hsmall.
  { apply Qc_ltb_true.
    change (lit 1 1000 : Qc) with (Q2Qc (1 # 1000)).
    apply Qcabs_lt_iff.
    rewrite this_minus, this_div, this_plus, !this_Q2Qc.
    change (inject_Z 343) with 343%Q. change (inject_Z 1) with 1%Q.
    assert (0 < 343 + this v)%Q as Hpos by lra.
    assert (343 / (343 + this v) - 1 == - this v / (343 + this v))%Q as ->
      by (field; lra).
    split.
    - apply Qlt_shift_div_l; [exact Hpos | lra].
    - apply Qlt_shift_div_r; [exact Hpos | lra]. }
  cbn [ltb absv sub div add of_Z exact]. rewrite Hsmall. reflexivity.
Qed.

(** X12.  In exact arithmetic the only velocity at which [apply_doppler]
    raises is -343 m/s, the speed of sound towards the listener, where
    the factor [c / (c + v)] divides by zero: the call raises
    [ZeroDivisionError] there and returns a block at every other
    velocity. *)
Theorem apply_doppler_raises_only_at_minus_c (env : EnvironmentDSP.t Qc)
    (audio_chunk : list Qc) (relative_velocity : Qc) :
  (relative_velocity = of_Z (-343) ->
   EnvironmentDSP.apply_doppler env audio_chunk relative_velocity
   = inl ZeroDivisionError) /\
  (relative_velocity <> of_Z (-343) ->
   exists out,
     EnvironmentDSP.apply_doppler env audio_chunk relative_velocity
     = inr out).
Proof.
  unfold EnvironmentDSP.apply_doppler. split.
  - intros Hv. apply doppler_divisor in Hv. now rewrite Hv.
  - intros Hv.
    destruct (of_Z 343 + relative_velocity =? of_Z 0)%py eqn:E0;
      [apply doppler_divisor in E0; contradiction|].
    destruct (_ <? _)%py; [eexists; reflexivity|].
    cbn [py_int exact ret bind].
    destruct (_ <=? 0); [eexists; reflexivity|].
    destruct (_ <? _)%nat; eexists; reflexivity.
Qed.
End ExactDoppler.

Lemma apply_doppler_slow_source_unchanged_witness :
  EnvironmentDSP.apply_doppler (H0 := stand_in)
    {| EnvironmentDSP.sample_rate := 8;
       EnvironmentDSP.low_gain := Q2Qc 1; EnvironmentDSP.mid_gain := Q2Qc 1;
       EnvironmentDSP.high_gain := Q2Qc 1;
       EnvironmentDSP.reverb_decay := Q2Qc (2 # 5);
       EnvironmentDSP.reverb_buffer := np_zeros 4;
       EnvironmentDSP.ptr := 0%nat |}
    [Q2Qc 1; Q2Qc (1 # 2)] (Q2Qc (3 # 10))
  = inr [Q2Qc 1; Q2Qc (1 # 2)].
Proof.
  apply (@apply_doppler_slow_source_unchanged stand_in); reflexivity.
Defined.

Section ReverbStream.
Context {A : Type} `{Arith A}.
Implicit Types env : EnvironmentDSP.t A.

(** X13.  With blocks of one length [n] shorter than the reverb buffer,
    and the cursor window inside the buffer at the start (as after
    construction), the reverb never raises, however many blocks pass:
    every output has [n] samples, the buffer keeps its length and the
    cursor window stays inside it. *)
Theorem reverb_stream_never_raises (n : nat) (blocks : list (list A)) :
  forall env,
  (n < length (EnvironmentDSP.reverb_buffer env))%nat ->
  (EnvironmentDSP.ptr env + n
   <= length (EnvironmentDSP.reverb_buffer env))%nat ->
  Forall (fun x => length x = n) blocks ->
  exists outs env',
    reverb_run env blocks = inr (outs, env') /\
    length outs = length blocks /\
    Forall (fun o => length o = n) outs /\
    length (EnvironmentDSP.reverb_buffer env')
    = length (EnvironmentDSP.reverb_buffer env) /\
    (EnvironmentDSP.ptr env' + n
     <= length (EnvironmentDSP.reverb_buffer env'))%nat.
Proof.
  induction blocks as [|x rest IH]; intros env Hlt Hin Hall.
  - exists [], env. cbn. repeat split; [constructor | exact Hin].
  - apply Forall_cons in Hall as [Hx Hrest]. subst n.
    cbn [reverb_run]. rewrite apply_reverb_step by assumption.
    cbn [bind fst snd].
    pose proof (reverb_step_cursor (EnvironmentDSP.reverb_decay env)
                  (EnvironmentDSP.reverb_buffer env)
                  (EnvironmentDSP.ptr env) x Hlt Hin) as [Hb Hp].
    set (s := reverb_step _ _ x) in *.
    destruct (IH (EnvironmentDSP.with_reverb env (fst (snd s)) (snd (snd s))))
      as (outs & env' & E & Hlen & Houts & Hb' & Hp');
      cbn [EnvironmentDSP.with_reverb EnvironmentDSP.reverb_buffer
           EnvironmentDSP.ptr]; try lia; try assumption.
    rewrite E. cbn [bind fst snd ret].
    exists (fst s :: outs), env'. split; [reflexivity|].
    cbn [EnvironmentDSP.with_reverb EnvironmentDSP.reverb_buffer
         EnvironmentDSP.ptr] in *.
    split; [cbn; lia|]. split; [|split; lia].
    apply Forall_cons. split; [|exact Houts].
    unfold s, reverb_step. cbn [fst].
    rewrite length_zip_with, length_map, length_slice_inside by exact Hin.
    lia.
Qed.

Lemma set_slice_length (a : list A) (p n : nat) (v b : list A) :
  set_slice a p n v = inr b -> length b = length a.
Proof.
  unfold set_slice. set (m := length (slice a p n)).
  assert (m = Nat.min n (length a - p)) as Hm
    by (unfold m, slice; now rewrite length_take, length_drop).
  intros E.
  assert (forall w : list A, length w = m ->
            length (take p a ++ w ++ drop (p + m) a) = length a) as Hw.
  { intros w Hw. rewrite !length_app, length_take, length_drop, Hw. lia. }
  destruct (Nat.eqb_spec (length v) m) as [Hv|Hv].
  - injection E as <-. now apply Hw.
  - destruct v as [|y [|? ?]]; try discriminate E.
    injection E as <-. apply Hw. apply length_replicate.
Qed.

(** X14.  A call of [apply_reverb] that returns leaves the stage with a
    buffer of the same length, and with the same decay, gains and sample
    rate: the reverb memory never grows or shrinks, whatever the block
    and wherever the cursor stands. *)
Theorem apply_reverb_keeps_buffer_length env (data out : list A)
    (env' : EnvironmentDSP.t A) :
  EnvironmentDSP.apply_reverb env data = inr (out, env') ->
  length (EnvironmentDSP.reverb_buffer env')
  = length (EnvironmentDSP.reverb_buffer env) /\
  EnvironmentDSP.reverb_decay env' = EnvironmentDSP.reverb_decay env /\
  EnvironmentDSP.low_gain env' = EnvironmentDSP.low_gain env /\
  EnvironmentDSP.mid_gain env' = EnvironmentDSP.mid_gain env /\
  EnvironmentDSP.high_gain env' = EnvironmentDSP.high_gain env /\
  EnvironmentDSP.sample_rate env' = EnvironmentDSP.sample_rate env.
Proof.
  unfold EnvironmentDSP.apply_reverb. intros E.
  destruct (broadcast2 _ _ _) as [err|o]; cbn [bind] in E; [discriminate|].
  destruct (set_slice _ _ _ _) as [err|buf] eqn:Es; cbn [bind] in E;
    [discriminate|].
  destruct (_ =? 0); [discriminate|].
  injection E as _ <-.
  cbn [EnvironmentDSP.with_reverb EnvironmentDSP.reverb_buffer
       EnvironmentDSP.reverb_decay EnvironmentDSP.low_gain
       EnvironmentDSP.mid_gain EnvironmentDSP.high_gain
       EnvironmentDSP.sample_rate].
  split; [exact (set_slice_length _ _ _ _ _ Es)|]. repeat split.
Qed.

(** X15.  A block must be shorter than the reverb buffer.  With the
    cursor at 0, a block exactly as long as the buffer raises
    [ZeroDivisionError] (the cursor is advanced modulo
    [len(buffer) - len(block)]); and wherever the cursor stands, a block
    longer than the buffer raises [ValueError], the one exception being a
    block of one sample on an empty buffer. *)
Theorem apply_reverb_block_must_be_shorter env (data : list A) :
  let B := length (EnvironmentDSP.reverb_buffer env) in
  (EnvironmentDSP.ptr env = 0%nat -> length data = B ->
   EnvironmentDSP.apply_reverb env data = inl ZeroDivisionError) /\
  ((B < length data)%nat -> ~ (B = 0%nat /\ length data = 1%nat) ->
   EnvironmentDSP.apply_reverb env data = inl ValueError).
Proof.
  cbv zeta. unfold EnvironmentDSP.apply_reverb.
  set (b := EnvironmentDSP.reverb_buffer env).
  set (p := EnvironmentDSP.ptr env).
  set (n := length data). split.
  - intros Hp Hn. rewrite Hp.
    assert (length (slice b 0 n) = n) as Hw
      by (apply length_slice_inside; lia).
    unfold broadcast2, set_slice. rewrite length_map, Hw.
    fold n. rewrite !Nat.eqb_refl. cbn [bind ret].
    destruct (Z.eqb_spec (Z.of_nat (length b) - Z.of_nat n) 0);
      [reflexivity | lia].
  - intros Hlt Hex.
    assert (length (slice b p n) = Nat.min n (length b - p)) as Hw
      by (unfold slice; now rewrite length_take, length_drop).
    unfold broadcast2 at 1. rewrite length_map, Hw. fold n.
    destruct (Nat.eqb_spec n (Nat.min n (length b - p))) as [Heq|Hne];
      [lia|].
    destruct data as [|x [|x' data']] eqn:Ed; cbn [length] in n.
    + subst n. lia.
    + (* one sample on a buffer that is empty: excluded *)
      subst n. exfalso. apply Hex. split; [lia | reflexivity].
    + destruct (map _ (slice b p n)) as [|w [|w' ws]] eqn:Em;
        try reflexivity.
      cbn [bind ret]. unfold set_slice. rewrite Hw.
      apply (f_equal length) in Em. rewrite length_map, Hw in Em.
      cbn [length] in Em.
      match goal with
      | |- context [Nat.eqb ?u ?v] => destruct (Nat.eqb_spec u v) as [Hu|Hu]
      end; [cbn [length] in Hu; lia | reflexivity].
Qed.
End ReverbStream.

Lemma reverb_stream_never_raises_witness :
  exists outs env',
    reverb_run env_8 [[1; 2; 3]; [4; 5; 6]]%float = inr (outs, env') /\
    length outs = 2%nat /\
    Forall (fun o => length o = 3%nat) outs /\
    length (EnvironmentDSP.reverb_buffer env') = 4%nat /\
    (EnvironmentDSP.ptr env' + 3 <= length (EnvironmentDSP.reverb_buffer env'))%nat.
Proof.
  apply (reverb_stream_never_raises 3 [[1; 2; 3]; [4; 5; 6]]%float env_8).
  - cbn. lia.
  - cbn. lia.
  - repeat constructor.
Defined.

Lemma apply_reverb_keeps_buffer_length_witness :
  exists out env',
    EnvironmentDSP.apply_reverb env_8 [1; 2; 3]%float = inr (out, env') /\
    length (EnvironmentDSP.reverb_buffer env') = 4%nat /\
    EnvironmentDSP.reverb_decay env' = 0.4%float /\
    EnvironmentDSP.low_gain env' = 1%float /\
    EnvironmentDSP.mid_gain env' = 1%float /\
    EnvironmentDSP.high_gain env' = 1%float /\
    EnvironmentDSP.sample_rate env' = 8.
Proof.
  assert (exists out env',
            EnvironmentDSP.apply_reverb env_8 [1; 2; 3]%float
            = inr (out, env'))
    as (out & env' & E) by (do 2 eexists; vm_compute; reflexivity).
  exists out, env'. split; [exact E|].
  exact (apply_reverb_keeps_buffer_length env_8 _ out env' E).
Defined.

(* --------------------------------------------------------------------- *)
(** ** CrosstalkCanceller.process: the bound on the output, the errors *)
(* --------------------------------------------------------------------- *)

Lemma Qc_maximum_ge (a b : Qc) :
  (a <= maximum a b)%Qc /\ (b <= maximum a b)%Qc.
Proof.
  cbn [maximum exact]. destruct (Qc_ltb b a) eqn:E.
  - apply Qc_ltb_true in E. split; [apply Qcle_refl|].
    now apply Qclt_le_weak.
  - split; [|apply Qcle_refl].
    apply Qcnot_lt_le. intros Hlt. apply Qc_ltb_true in Hlt. congruence.
Qed.

Lemma Qc_foldl_max_ge (l : list Qc) : forall a : Qc,
  (a <= foldl maximum a l)%Qc /\
  Forall (fun x => (x <= foldl maximum a l)%Qc) l.
Proof.
  induction l as [|b l IH]; intros a; cbn [foldl].
  - split; [apply Qcle_refl | constructor].
  - destruct (IH (maximum a b)) as [H1 H2].
    destruct (Qc_maximum_ge a b) as [Ha Hb].
    split; [eapply Qcle_trans; eassumption|].
    constructor; [eapply Qcle_trans; eassumption | exact H2].
Qed.

Lemma Qc_np_max_bounds (l : list Qc) (m : Qc) :
  np_max (map absv l) = inr m -> Forall (fun x => (Qcabs x <= m)%Qc) l.
Proof.
  destruct l as [|a l]; cbn [map np_max]; [discriminate|].
  intros E. injection E as <-.
  destruct (Qc_foldl_max_ge (map absv l) (absv a)) as [H1 H2].
  constructor; [exact H1|].
  rewrite Forall_map in H2. exact H2.
Qed.

Lemma Qc_normalised (x m : Qc) :
  (Q2Qc 1 < m)%Qc -> (Qcabs x <= m)%Qc -> (Qcabs (x / m) <= Q2Qc 1)%Qc.
Proof.
  intros Hm Hx. apply Qcabs_Qcle_condition in Hx as [Hlo Hhi].
  apply Qcabs_Qcle_condition.
  unfold Qcle, Qclt in *.
  rewrite ?this_opp, ?this_div, ?this_Q2Qc in *.
  assert (0 < this m)%Q as Hpos by lra.
  split.
  - apply Qle_shift_div_l; [exact Hpos | lra].
  - apply Qle_shift_div_r; [exact Hpos | lra].
Qed.

Section Crosstalk.
Context {A : Type} `{Arith A}.

(** X16.  [process] raises [ValueError] on two empty blocks (the maximum
    of an empty array) and on two blocks of different lengths neither of
    which has one sample (the subtraction cannot broadcast). *)
Theorem ctc_rejects_empty_and_mismatched (self : CrosstalkCanceller.t A)
    (l_in r_in : list A) :
  (l_in = [] /\ r_in = []) \/
  (length l_in <> length r_in /\ length l_in <> 1%nat
   /\ length r_in <> 1%nat) ->
  CrosstalkCanceller.process self l_in r_in = inl ValueError.
Proof.
  unfold CrosstalkCanceller.process.
  intros [[-> ->] | (Hne & Hl & Hr)]; [reflexivity|].
  unfold broadcast2 at 1. rewrite !length_map.
  destruct (Nat.eqb_spec (length l_in) (length r_in)); [contradiction|].
  destruct l_in as [|x [|x' l']]; destruct r_in as [|y [|y' r']];
    cbn [length] in *; try lia; reflexivity.
Qed.
End Crosstalk.

Section CrosstalkBound.

(** X17.  In exact arithmetic [process] never returns a sample above 1 in
    magnitude: whatever the two input blocks, every sample of both output
    blocks lies in [-1, 1] (the gain normalisation divides by the peak
    when the peak exceeds 1). *)
Theorem ctc_output_never_exceeds_one (self : CrosstalkCanceller.t Qc)
    (l_in r_in l_out r_out : list Qc) :
  CrosstalkCanceller.process self l_in r_in = inr (l_out, r_out) ->
  Forall (fun x => (Qcabs x <= Q2Qc 1)%Qc) (l_out ++ r_out).
Proof.
  unfold CrosstalkCanceller.process. intros E.
  destruct (broadcast2 sub _ _) as [err|lo]; cbn [bind] in E;
    [discriminate|].
  destruct (broadcast2 sub _ _) as [err|ro]; cbn [bind] in E;
    [discriminate|].
  destruct (np_max _) as [err|m] eqn:Em; cbn [bind] in E; [discriminate|].
  pose proof (Qc_np_max_bounds _ _ Em) as Hb.
  destruct (of_Z 1 <? m)%py eqn:Hm; injection E as <- <-.
  - apply Qc_ltb_true in Hm.
    rewrite <- map_app, Forall_map.
    eapply Forall_impl; [exact Hb|].
    intros x Hx. now apply Qc_normalised.
  - eapply Forall_impl; [exact Hb|]. intros x Hx.
    eapply Qcle_trans; [exact Hx|].
    apply Qcnot_lt_le. intros Hlt.
    assert (Qc_ltb (of_Z 1) m = true) as Ht
      by (apply Qc_ltb_true; exact Hlt).
    change (Qc_ltb (of_Z 1) m = false) in Hm. congruence.
Qed.
End CrosstalkBound.

Lemma ctc_rejects_empty_and_mismatched_witness :
  CrosstalkCanceller.process
    (CrosstalkCanceller.__init__ (H0 := stand_in) 1.5 1.5)%float
    [1; 2; 3]%float [1; 2]%float = inl ValueError.
Proof.
  apply ctc_rejects_empty_and_mismatched.
  right. cbn. repeat split; lia.
Defined.

Lemma ctc_output_never_exceeds_one_witness :
  exists l_out r_out,
    CrosstalkCanceller.process
      (CrosstalkCanceller.__init__ (H0 := stand_in) (lit 15 10) (lit 15 10))
      [Q2Qc 3; Q2Qc (-1 # 2)] [Q2Qc 0; Q2Qc 2] = inr (l_out, r_out) /\
    Forall (fun x => (Qcabs x <= Q2Qc 1)%Qc) (l_out ++ r_out).
Proof.
  assert (exists l_out r_out,
            CrosstalkCanceller.process
              (CrosstalkCanceller.__init__ (H0 := stand_in)
                 (lit 15 10) (lit 15 10))
              [Q2Qc 3; Q2Qc (-1 # 2)] [Q2Qc 0; Q2Qc 2]
            = inr (l_out, r_out))
    as (lo & ro & E) by (do 2 eexists; vm_compute; reflexivity).
  exists lo, ro. split; [exact E|].
  exact (ctc_output_never_exceeds_one _ _ _ lo ro E).
Defined.

Lemma Qc_foldl_max_in (l : list Qc) : forall a : Qc,
  foldl maximum a l ∈ a :: l.
Proof.
  induction l as [|b l IH]; intros a; cbn [foldl]; [left|].
  specialize (IH (maximum a b)).
  apply elem_of_cons in IH as [E|Hin].
  - rewrite E. cbn [maximum exact].
    destruct (Qc_ltb b a); [left | right; left].
  - right. now right.
Qed.

Lemma Qcabs_div_peak (x m : Qc) :
  (Q2Qc 0 < m)%Qc -> Qcabs x = m -> Qcabs (x / m) = Q2Qc 1.
Proof.
  intros Hm Hx. unfold Qcdiv. rewrite Qcabs_Qcmult, Hx.
  assert (Qcabs (/ m) = (/ m)%Qc) as ->.
  { apply Qcabs_pos. unfold Qcle, Qclt in *.
    assert (this (/ m)%Qc == / this m)%Q as -> by apply this_Q2Qc.
    rewrite this_Q2Qc in *. apply Qinv_le_0_compat. lra. }
  apply Qcmult_inv_r. intros E. rewrite E in Hm.
  now apply Qclt_not_eq in Hm.
Qed.

(** X18.  In exact arithmetic, for two input blocks of one length that is
    not zero, [process] is linear while the cross-fed signal
    [1.1 * l - alpha * 0.5 * r] (and its mirror image) stays within
    [-1, 1], and otherwise scales both channels by one factor so that the
    loudest output sample has magnitude exactly 1. *)
Theorem ctc_normalises_to_peak_one (self : CrosstalkCanceller.t Qc)
    (l_in r_in : list Qc) :
  length r_in = length l_in -> l_in <> [] ->
  let cross a b :=
    zip_with sub (map (fun x => x * lit 11 10)%py a)
      (map (fun x => x * CrosstalkCanceller.alpha self * lit 5 10)%py b) in
  let l0 := cross l_in r_in in
  let r0 := cross r_in l_in in
  (Forall (fun x => (Qcabs x <= Q2Qc 1)%Qc) (l0 ++ r0) ->
   CrosstalkCanceller.process self l_in r_in = inr (l0, r0)) /\
  (Exists (fun x => (Q2Qc 1 < Qcabs x)%Qc) (l0 ++ r0) ->
   exists peak l_out r_out,
     CrosstalkCanceller.process self l_in r_in = inr (l_out, r_out) /\
     (Q2Qc 1 < peak)%Qc /\
     l_out = map (fun x => x / peak)%Qc l0 /\
     r_out = map (fun x => x / peak)%Qc r0 /\
     Exists (fun x => Qcabs x = Q2Qc 1) (l_out ++ r_out)).
Proof.
  intros Hlen Hne. cbv zeta.
  set (l0 := zip_with sub (map (fun x => x * lit 11 10)%py l_in)
               (map (fun x => x * CrosstalkCanceller.alpha self
                              * lit 5 10)%py r_in)).
  set (r0 := zip_with sub (map (fun x => x * lit 11 10)%py r_in)
               (map (fun x => x * CrosstalkCanceller.alpha self
                              * lit 5 10)%py l_in)).
  assert (CrosstalkCanceller.process self l_in r_in
          = (m <- np_max (map absv (l0 ++ r0)) ;;
             if (of_Z 1 <? m)%py
             then ret (map (fun x => x / m)%py l0,
                       map (fun x => x / m)%py r0)
             else ret (l0, r0))) as ->.
  { unfold CrosstalkCanceller.process, broadcast2.
    rewrite !length_map, Hlen, Nat.eqb_refl. reflexivity. }
  assert (l0 ++ r0 <> []) as Hne0.
  { assert (0 < length l_in)%nat as Hpos
      by (destruct l_in; [contradiction | cbn; lia]).
    intros E. apply (f_equal length) in E.
    unfold l0 in E. rewrite length_app, length_zip_with, !length_map in E.
    cbn [length] in E. lia. }
  destruct (l0 ++ r0) as [|x0 xs] eqn:Ex; [contradiction|].
  cbn [map np_max bind ret].
  set (m := foldl maximum (absv x0) (map absv xs)).
  pose proof (Qc_foldl_max_ge (map absv xs) (absv x0)) as [Hge0 Hge].
  pose proof (Qc_foldl_max_in (map absv xs) (absv x0)) as Hin.
  fold m in Hge0, Hge, Hin.
  assert (exists x, x ∈ x0 :: xs /\ Qcabs x = m) as (xm & Hxm & Habs).
  { apply elem_of_cons in Hin as [E|Hin].
    - exists x0. split; [left | now symmetry].
    - apply list_elem_of_fmap in Hin as (x & E & Hx).
      exists x. split; [now right | now symmetry]. }
  split.
  - intros Hquiet.
    assert ((m <= Q2Qc 1)%Qc) as Hm.
    { change (Forall (fun x => (Qcabs x <= Q2Qc 1)%Qc) (l0 ++ r0))
        in Hquiet.
      rewrite Ex, Forall_forall in Hquiet. rewrite <- Habs.
      exact (Hquiet xm Hxm). }
    assert (Qc_ltb (of_Z 1) m = false) as Hf.
    { destruct (Qc_ltb (of_Z 1) m) eqn:E; [|reflexivity].
      apply Qc_ltb_true in E. now apply Qcle_not_lt in Hm. }
    change ((of_Z 1 <? m)%py) with (Qc_ltb (of_Z 1) m). now rewrite Hf.
  - intros Hloud.
    assert ((Q2Qc 1 < m)%Qc) as Hm.
    { change (Exists (fun x => (Q2Qc 1 < Qcabs x)%Qc) (l0 ++ r0))
        in Hloud.
      rewrite Ex in Hloud.
      apply Exists_exists in Hloud as (x & Hx & Hx1).
      eapply Qclt_le_trans; [exact Hx1|].
      apply elem_of_cons in Hx as [->|Hx]; [exact Hge0|].
      rewrite Forall_map, Forall_forall in Hge. now apply Hge. }
    assert (Qc_ltb (of_Z 1) m = true) as Ht by now apply Qc_ltb_true.
    change ((of_Z 1 <? m)%py) with (Qc_ltb (of_Z 1) m). rewrite Ht.
    exists m. do 2 eexists. split; [reflexivity|].
    split; [exact Hm|]. split; [reflexivity|]. split; [reflexivity|].
    rewrite <- map_app, Ex. apply Exists_exists.
    exists (xm / m)%Qc. split.
    + apply (list_elem_of_fmap_2 (fun x => x / m)%Qc). exact Hxm.
    + apply Qcabs_div_peak; [|exact Habs].
      eapply Qclt_trans; [|exact Hm]. reflexivity.
Qed.

Lemma ctc_normalises_to_peak_one_witness :
  let self := CrosstalkCanceller.__init__ (H0 := stand_in)
                (lit 15 10 : Qc) (lit 15 10) in
  let cross a b :=
    zip_with sub (map (fun x => x * lit 11 10)%py a)
      (map (fun x => x * CrosstalkCanceller.alpha self * lit 5 10)%py b) in
  let l0 := cross [Q2Qc 3; Q2Qc (-1 # 2)] [Q2Qc 0; Q2Qc 2] in
  let r0 := cross [Q2Qc 0; Q2Qc 2] [Q2Qc 3; Q2Qc (-1 # 2)] in
  (Forall (fun x => (Qcabs x <= Q2Qc 1)%Qc) (l0 ++ r0) ->
   CrosstalkCanceller.process self [Q2Qc 3; Q2Qc (-1 # 2)]
     [Q2Qc 0; Q2Qc 2] = inr (l0, r0)) /\
  (Exists (fun x => (Q2Qc 1 < Qcabs x)%Qc) (l0 ++ r0) ->
   exists peak l_out r_out,
     CrosstalkCanceller.process self [Q2Qc 3; Q2Qc (-1 # 2)]
       [Q2Qc 0; Q2Qc 2] = inr (l_out, r_out) /\
     (Q2Qc 1 < peak)%Qc /\
     l_out = map (fun x => x / peak)%Qc l0 /\
     r_out = map (fun x => x / peak)%Qc r0 /\
     Exists (fun x => Qcabs x = Q2Qc 1) (l_out ++ r_out)).
Proof.
  apply (ctc_normalises_to_peak_one
           (CrosstalkCanceller.__init__ (H0 := stand_in)
              (lit 15 10 : Qc) (lit 15 10))
           [Q2Qc 3; Q2Qc (-1 # 2)] [Q2Qc 0; Q2Qc 2]);
    [reflexivity | discriminate].
Defined.

(* --------------------------------------------------------------------- *)
(** ** HRTF_Engine: the directions of the database, periodicity, lengths *)
(* --------------------------------------------------------------------- *)

Section InsertLoopValues.
Context {V : Type}.
Variable f : Z -> py V.
Variable key : Z -> Z.

(** Every entry after the loop was there before it or was stored by an
    iteration. *)
Lemma insert_loop_values (xs : list Z) : forall (m0 m : gmap Z V) (k : Z) (v : V),
  for_each (insert_body f key) xs m0 = inr m ->
  m !! k = Some v ->
  m0 !! k = Some v \/ exists x, x ∈ xs /\ key x = k /\ f x = inr v.
Proof.
  induction xs as [|x xs IH]; intros m0 m k v E Hk; cbn in E.
  - injection E as <-. now left.
  - unfold insert_body at 1 in E.
    destruct (f x) as [e|w] eqn:Ef; cbn in E; [discriminate|].
    destruct (IH _ _ _ _ E Hk) as [Hm|(y & Hy & Hky & Hfy)].
    + destruct (decide (key x = k)) as [Heq|Hne].
      * rewrite <- Heq, lookup_insert_eq in Hm. injection Hm as <-.
        right. exists x. split; [left|]. split; assumption.
      * rewrite lookup_insert_ne in Hm by exact Hne. now left.
    + right. exists y. split; [now right|]. split; assumption.
Qed.
End InsertLoopValues.

Section Directions.
Context {A : Type} `{Arith A} `{Numpy A}.

Lemma db_lookup_inv (db : gmap Z (gmap Z (HRTF_Engine.spectra A)))
    (el az : Z) (sp : HRTF_Engine.spectra A) :
  HRTF_Engine.db_lookup db el az = inr sp ->
  exists row, db !! el = Some row /\ row !! az = Some sp.
Proof.
  unfold HRTF_Engine.db_lookup. intros E.
  destruct (db !! el) as [row|]; [|discriminate].
  exists row. split; [reflexivity|].
  unfold HRTF_Engine.spectra in *.
  destruct (row !! az) as [sp'|]; [|discriminate].
  now injection E as <-.
Qed.

(** What an entry of a constructed engine's database is. *)
Lemma db_entry_inv (sample_rate : Z) (fft_size : nat)
    (eng : HRTF_Engine.t A) (el az : Z) (sp : HRTF_Engine.spectra A) :
  HRTF_Engine.__init__ sample_rate fft_size = inr eng ->
  HRTF_Engine.db_lookup (HRTF_Engine.hrtf_db eng) el az = inr sp ->
  exists i j,
    0 <= i < 24 /\ 0 <= j < 12 /\ az = i * 15 /\ el = j * 15 - 90 /\
    HRTF_Engine.synthetic_pair sample_rate fft_size 1024 (i * 15) = inr sp.
Proof.
  intros E Hl. apply hrtf_init_db in E as [E _].
  apply db_lookup_inv in Hl as (row & Hrow & Hsp).
  unfold HRTF_Engine._generate_synthetic_hrtf in E.
  set (pair_of := fun az => HRTF_Engine.synthetic_pair sample_rate fft_size
                              1024 (az * 15)).
  set (row_of := fun _ : Z =>
         for_each (insert_body pair_of (fun az => az * 15)) (seqZ 0 24) ∅).
  destruct (insert_loop_values row_of (fun el => el * 15 - 90)
              (seqZ 0 12) ∅ _ el row E Hrow)
    as [He|(j & Hj & Hkj & Hrj)]; [rewrite lookup_empty in He; discriminate|].
  unfold row_of in Hrj.
  destruct (insert_loop_values pair_of (fun az => az * 15)
              (seqZ 0 24) ∅ _ az sp Hrj Hsp)
    as [He|(i & Hi & Hki & Hfi)]; [rewrite lookup_empty in He; discriminate|].
  apply elem_of_seqZ in Hi, Hj.
  exists i, j. repeat split; try lia. exact Hfi.
Qed.

(** X19.  The database of a constructed engine holds the 288 directions
    of the grid and nothing else: a lookup [hrtf_db[el][az]] finds an
    entry exactly when [az] is one of 0, 15, ..., 345 and [el] is one of
    -90, -75, ..., 75 (so there is no entry for the zenith, elevation
    90), and raises [KeyError] otherwise. *)
Theorem hrtf_db_holds_exactly_the_grid (sample_rate : Z) (fft_size : nat)
    (eng : HRTF_Engine.t A) (el az : Z) :
  HRTF_Engine.__init__ sample_rate fft_size = inr eng ->
  let on_grid := exists i j, 0 <= i < 24 /\ 0 <= j < 12 /\
                             az = i * 15 /\ el = j * 15 - 90 in
  (on_grid ->
   exists sp, HRTF_Engine.db_lookup (HRTF_Engine.hrtf_db eng) el az = inr sp)
  /\
  (~ on_grid ->
   HRTF_Engine.db_lookup (HRTF_Engine.hrtf_db eng) el az = inl KeyError).
Proof.
  intros E. cbv zeta. split.
  - intros (i & j & Hi & Hj & -> & ->).
    destruct (db_lookup_grid sample_rate fft_size eng i j E Hi)
      as (row & sp & _ & _ & Hl & _); [lia|].
    exists sp. exact Hl.
  - intros Hoff.
    destruct (HRTF_Engine.db_lookup (HRTF_Engine.hrtf_db eng) el az)
      as [err|sp] eqn:Hl.
    + unfold HRTF_Engine.db_lookup in Hl.
      destruct (_ !! el) as [row|]; [|now injection Hl as <-].
      unfold HRTF_Engine.spectra in *.
      destruct (row !! az); [discriminate | now injection Hl as <-].
    + exfalso. apply Hoff.
      destruct (db_entry_inv _ _ _ _ _ _ E Hl)
        as (i & j & Hi & Hj & Haz & Hel & _).
      exists i, j. repeat split; lia.
Qed.

Lemma ifft_length (X time : list HRTF_Engine.complex) :
  HRTF_Engine.ifft X = inr time -> length time = length X.
Proof.
  unfold HRTF_Engine.ifft. destruct (length X =? 0)%nat; [discriminate|].
  intros E. injection E as <-.
  unfold HRTF_Engine.dft. now rewrite !length_map, length_seq.
Qed.

Lemma broadcast2_same_length {T} (g : T -> T -> T) (a b c : list T) :
  length a = length b -> broadcast2 g a b = inr c -> length c = length a.
Proof.
  unfold broadcast2. intros Hab. rewrite Hab, Nat.eqb_refl.
  intros E. injection E as <-. rewrite length_zip_with. lia.
Qed.

(** X20.  On a constructed engine [spatialize_source] returns two blocks
    of the same length: that of the input block, or the FFT size when the
    input is longer than the FFT size (the input is cut to the FFT size
    before the transform, so the tail of a block that is too long is
    lost). *)
Theorem spatialize_source_lengths (sample_rate : Z) (fft_size : nat)
    (eng : HRTF_Engine.t A) (audio_chunk : list A) (azimuth elevation : A)
    (out_l out_r : list A) :
  HRTF_Engine.__init__ sample_rate fft_size = inr eng ->
  HRTF_Engine.spatialize_source eng audio_chunk azimuth elevation
  = inr (out_l, out_r) ->
  length out_l = Nat.min (length audio_chunk) fft_size /\
  length out_r = Nat.min (length audio_chunk) fft_size.
Proof.
  intros E Es. unfold HRTF_Engine.spatialize_source in Es.
  apply bind_ret_inv in Es as (ir & Hir & Es).
  apply bind_ret_inv in Es as (sf & Hsf & Es).
  apply bind_ret_inv in Es as (pl & Hpl & Es).
  apply bind_ret_inv in Es as (tl & Htl & Es).
  apply bind_ret_inv in Es as (pr & Hpr & Es).
  apply bind_ret_inv in Es as (tr & Htr & Es).
  injection Es as <- <-.
  unfold HRTF_Engine.get_nearest_hrtf in Hir.
  apply bind_ret_inv in Hir as (idx & _ & Hir).
  destruct (db_entry_inv _ _ _ _ _ _ E Hir) as (i & j & _ & _ & _ & _ & Hsp).
  apply synthetic_pair_lengths in Hsp as [Hl Hr].
  destruct (hrtf_init_db _ _ _ E) as [_ Hn]. rewrite Hn in Hsf.
  apply fft_length in Hsf as [Hsf _].
  apply broadcast2_same_length in Hpl; [|congruence].
  apply broadcast2_same_length in Hpr; [|congruence].
  apply ifft_length in Htl, Htr.
  rewrite !length_take, !length_map.
  unfold HRTF_Engine.complex in *. split; lia.
Qed.

(** X21.  A transform length of zero is rejected at construction: when
    the impulse positions fit, [HRTF_Engine(sample_rate, 0)] raises
    [ValueError] (from the first FFT), and so does
    [DSPPipeline(sample_rate, 0)], whose FFT size is twice its block
    size. *)
Theorem zero_block_size_is_rejected (sample_rate : Z) :
  grid_fits sample_rate 1024 = true ->
  HRTF_Engine.__init__ sample_rate 0 = inl ValueError /\
  DSPPipeline.__init__ sample_rate 0 = inl ValueError.
Proof.
  intros Hg.
  assert (HRTF_Engine.__init__ sample_rate 0 = inl ValueError) as E.
  { unfold HRTF_Engine.__init__, HRTF_Engine._generate_synthetic_hrtf.
    change (seqZ 0 12) with (0 :: seqZ 1 11).
    change (seqZ 0 24) with (0 :: seqZ 1 23).
    cbn [for_each].
    unfold grid_fits in Hg. rewrite forallb_forall in Hg.
    specialize (Hg 0). rewrite <- list_elem_of_In in Hg.
    specialize (Hg ltac:(apply elem_of_seqZ; lia)).
    change (0 * 15) with 0 in *.
    unfold HRTF_Engine.synthetic_pair.
    destruct (HRTF_Engine.itd_samples sample_rate 0) as [e|itd];
      [discriminate|].
    apply andb_prop in Hg as [Hl Hr]. apply Z.ltb_lt in Hl, Hr.
    cbn [bind].
    destruct (impulse_responses_returns sample_rate 1024 0 itd Hl Hr)
      as [ir ->].
    reflexivity. }
  split; [exact E|]. unfold DSPPipeline.__init__.
  change (0 * 2)%nat with 0%nat. now rewrite E.
Qed.
End Directions.

Lemma hrtf_db_holds_exactly_the_grid_witness :
  exists eng,
    HRTF_Engine.__init__ (A := Qc) (H0 := stand_in) 96000 2048 = inr eng /\
    let on_grid := exists i j, 0 <= i < 24 /\ 0 <= j < 12 /\
                               345 = i * 15 /\ 75 = j * 15 - 90 in
    (on_grid ->
     exists sp,
       HRTF_Engine.db_lookup (HRTF_Engine.hrtf_db eng) 75 345 = inr sp)
    /\
    (~ on_grid ->
     HRTF_Engine.db_lookup (HRTF_Engine.hrtf_db eng) 75 345 = inl KeyError).
Proof.
  destruct (hrtf_init_returns (H0 := stand_in) 96000 2048 grid_fits_96000)
    as [eng E]; [lia|].
  exists eng. split; [exact E|].
  exact (hrtf_db_holds_exactly_the_grid (H0 := stand_in) 96000 2048 eng
           75 345 E).
Defined.

Lemma zero_block_size_is_rejected_witness :
  HRTF_Engine.__init__ (A := Qc) (H0 := stand_in) 96000 0 = inl ValueError /\
  DSPPipeline.__init__ (A := Qc) (H0 := stand_in) 96000 0 = inl ValueError.
Proof.
  apply (zero_block_size_is_rejected (H0 := stand_in) 96000).
  exact grid_fits_96000.
Defined.

Lemma Qfloor_unique (q : Q) (n : Z) :
  (inject_Z n <= q)%Q -> (q < inject_Z (n + 1))%Q -> Qfloor q = n.
Proof.
  intros Hlo Hhi.
  pose proof (Qfloor_le q) as H1. pose proof (Qlt_floor q) as H2.
  assert (Qfloor q < n + 1)
    by (apply inject_Z_lt_inv; eapply Qle_lt_trans; eassumption).
  assert (n < Qfloor q + 1)
    by (apply inject_Z_lt_inv; eapply Qle_lt_trans; eassumption).
  lia.
Qed.

Lemma Qfloor_add_Z (q : Q) (k : Z) :
  Qfloor (q + inject_Z k) = Qfloor q + k.
Proof.
  pose proof (Qfloor_le q) as H1. pose proof (Qlt_floor q) as H2.
  apply Qfloor_unique.
  - rewrite inject_Z_plus. lra.
  - replace (Qfloor q + k + 1) with ((Qfloor q + 1) + k) by lia.
    rewrite inject_Z_plus. lra.
Qed.

Lemma Qc_mod_360_periodic (x : Qc) (k : Z) :
  Qc_mod (x + of_Z (360 * k))%Qc (of_Z 360) = Qc_mod x (of_Z 360).
Proof.
  apply Qc_is_canon.
  destruct (Qc_mod_360 x) as [E1 _].
  destruct (Qc_mod_360 (x + of_Z (360 * k))%Qc) as [E2 _].
  cbv zeta in E1, E2. rewrite E1, E2. clear E1 E2.
  assert (this ((x + of_Z (360 * k)) / of_Z 360)%Qc
          == this (x / of_Z 360)%Qc + inject_Z k)%Q as Eq.
  { rewrite !this_div, this_plus, !this_of_Z, inject_Z_mult.
    change (inject_Z 360) with 360%Q. field. }
  rewrite (Qfloor_comp _ _ Eq), Qfloor_add_Z.
  rewrite this_plus, this_of_Z, inject_Z_plus, inject_Z_mult.
  change (inject_Z 360) with 360%Q. ring.
Qed.

(** X22.  In exact arithmetic the lookup is periodic in the azimuth:
    an azimuth and the same azimuth plus any whole number of turns (also
    negative ones) select the same grid direction and the same database
    entry. *)
Theorem nearest_hrtf_is_periodic_in_azimuth (self : HRTF_Engine.t Qc)
    (azimuth elevation : Qc) (turns : Z) :
  HRTF_Engine.nearest_index (azimuth + of_Z (360 * turns))%py elevation
  = HRTF_Engine.nearest_index azimuth elevation /\
  HRTF_Engine.get_nearest_hrtf self (azimuth + of_Z (360 * turns))%py
    elevation
  = HRTF_Engine.get_nearest_hrtf self azimuth elevation.
Proof.
  assert (HRTF_Engine.nearest_index (azimuth + of_Z (360 * turns))%py
            elevation
          = HRTF_Engine.nearest_index azimuth elevation) as E.
  { unfold HRTF_Engine.nearest_index. cbn [py_mod add exact].
    now rewrite Qc_mod_360_periodic. }
  split; [exact E|].
  unfold HRTF_Engine.get_nearest_hrtf. now rewrite E.
Qed.

(* --------------------------------------------------------------------- *)
(** ** DSPPipeline: block lengths *)
(* --------------------------------------------------------------------- *)

Section BlockLengths.
Context {A : Type} `{Arith A} `{Numpy A}.

Lemma iadd_length (a b c : list A) : iadd a b = inr c -> length c = length a.
Proof.
  unfold iadd. destruct (Nat.eqb_spec (length b) (length a)) as [E|E].
  - intros Ec. injection Ec as <-. rewrite length_zip_with. lia.
  - destruct b as [|y [|? ?]]; try discriminate.
    intros Ec. injection Ec as <-. apply length_map.
Qed.

Lemma mix_source_lengths (p : DSPPipeline.t A) (listener_pos : vec3 A)
    (inv_quat : Quaternion A) (mixed mixed' : list A * list A)
    (entry : DSPPipeline.source_entry A) :
  DSPPipeline.mix_source p listener_pos inv_quat mixed entry = inr mixed' ->
  length (fst mixed') = length (fst mixed) /\
  length (snd mixed') = length (snd mixed).
Proof.
  unfold DSPPipeline.mix_source.
  destruct entry as [name [chunk [[sx sy] sz]]].
  destruct listener_pos as [[px py_] pz].
  destruct (quat_rotate inv_quat _) as [[lx ly] lz].
  intros E.
  apply bind_ret_inv in E as (pc & _ & E).
  apply bind_ret_inv in E as (lr & _ & E).
  apply bind_ret_inv in E as (ml & Hml & E).
  apply bind_ret_inv in E as (mr & Hmr & E).
  injection E as <-. cbn [fst snd].
  split; eapply iadd_length; eassumption.
Qed.

Lemma mix_sources_lengths (p : DSPPipeline.t A) (listener_pos : vec3 A)
    (inv_quat : Quaternion A)
    (sources : list (DSPPipeline.source_entry A)) :
  forall mixed mixed' : list A * list A,
  for_each (DSPPipeline.mix_source p listener_pos inv_quat) sources mixed
  = inr mixed' ->
  length (fst mixed') = length (fst mixed) /\
  length (snd mixed') = length (snd mixed).
Proof.
  induction sources as [|entry sources IH]; intros mixed mixed' E;
    cbn [for_each] in E.
  - injection E as <-. split; reflexivity.
  - apply bind_ret_inv in E as (m1 & E1 & E).
    apply mix_source_lengths in E1 as [H1 H2].
    apply IH in E as [H3 H4]. split; congruence.
Qed.

Lemma reverb_step_output_length (decay : A) (b : list A) (q : nat)
    (x : list A) :
  (q + length x <= length b)%nat ->
  length (fst (reverb_step decay (b, q) x)) = length x.
Proof.
  intros Hq. unfold reverb_step. cbn [fst snd].
  rewrite length_zip_with, length_map, length_slice_inside; lia.
Qed.

Lemma post_mix_lengths (env env' : EnvironmentDSP.t A) (cs : nat)
    (mixed out : list A * list A) :
  length (fst mixed) = cs -> length (snd mixed) = cs ->
  (cs < length (EnvironmentDSP.reverb_buffer env))%nat ->
  (EnvironmentDSP.ptr env + cs
   <= length (EnvironmentDSP.reverb_buffer env))%nat ->
  DSPPipeline.post_mix env mixed = inr (out, env') ->
  length (fst out) = cs /\ length (snd out) = cs /\
  length (EnvironmentDSP.reverb_buffer env')
  = length (EnvironmentDSP.reverb_buffer env) /\
  (EnvironmentDSP.ptr env' + cs
   <= length (EnvironmentDSP.reverb_buffer env'))%nat.
Proof.
  intros Hl Hr Hlt Hin. unfold DSPPipeline.post_mix.
  set (xl := EnvironmentDSP.apply_eq env (fst mixed)).
  assert (length xl = cs) as Hxl by (unfold xl; now rewrite length_apply_eq).
  rewrite apply_reverb_step by (rewrite Hxl; assumption).
  pose proof (reverb_step_cursor (EnvironmentDSP.reverb_decay env)
                (EnvironmentDSP.reverb_buffer env) (EnvironmentDSP.ptr env)
                xl) as Hc.
  pose proof (reverb_step_output_length (EnvironmentDSP.reverb_decay env)
                (EnvironmentDSP.reverb_buffer env) (EnvironmentDSP.ptr env)
                xl) as Hol.
  rewrite Hxl in Hc, Hol. specialize (Hc Hlt Hin). specialize (Hol Hin).
  cbv zeta in Hc.
  remember (reverb_step (EnvironmentDSP.reverb_decay env)
              (EnvironmentDSP.reverb_buffer env, EnvironmentDSP.ptr env) xl)
    as sl eqn:Esl.
  destruct sl as [ol [b1 p1]]. cbn [fst snd] in Hc, Hol.
  destruct Hc as [Hb Hp].
  cbn [bind fst snd]. rewrite apply_eq_with_reverb.
  set (xr := EnvironmentDSP.apply_eq env (snd mixed)).
  assert (length xr = cs) as Hxr by (unfold xr; now rewrite length_apply_eq).
  rewrite apply_reverb_step;
    cbn [EnvironmentDSP.with_reverb EnvironmentDSP.reverb_buffer
         EnvironmentDSP.ptr EnvironmentDSP.reverb_decay];
    rewrite ?Hxr; try lia.
  pose proof (reverb_step_cursor (EnvironmentDSP.reverb_decay env)
                b1 p1 xr) as Hc2.
  pose proof (reverb_step_output_length (EnvironmentDSP.reverb_decay env)
                b1 p1 xr) as Hor.
  rewrite Hxr in Hc2, Hor.
  specialize (Hc2 ltac:(lia) ltac:(lia)). specialize (Hor ltac:(lia)).
  cbv zeta in Hc2.
  remember (reverb_step (EnvironmentDSP.reverb_decay env) (b1, p1) xr)
    as sr eqn:Esr.
  destruct sr as [or_ [b2 p2]]. cbn [fst snd] in Hc2, Hor.
  cbn [bind fst snd ret]. intros E. injection E as <- <-.
  cbn [fst snd EnvironmentDSP.with_reverb EnvironmentDSP.reverb_buffer
       EnvironmentDSP.ptr].
  repeat split; lia.
Qed.

Lemma ctc_process_lengths (self : CrosstalkCanceller.t A)
    (l_in r_in l_out r_out : list A) :
  length r_in = length l_in ->
  CrosstalkCanceller.process self l_in r_in = inr (l_out, r_out) ->
  length l_out = length l_in /\ length r_out = length l_in.
Proof.
  intros Hlen. unfold CrosstalkCanceller.process. intros E.
  apply bind_ret_inv in E as (lo & Hlo & E).
  apply bind_ret_inv in E as (ro & Hro & E).
  apply bind_ret_inv in E as (m & _ & E).
  apply broadcast2_same_length in Hlo; [|rewrite !length_map; lia].
  apply broadcast2_same_length in Hro; [|rewrite !length_map; lia].
  rewrite length_map in Hlo, Hro.
  destruct (_ <? _)%py; injection E as <- <-;
    rewrite ?length_map; split; lia.
Qed.

Lemma process_lengths (p p' : DSPPipeline.t A) (cs : nat)
    (sources_data : list (DSPPipeline.source_entry A))
    (listener_pos : vec3 A) (listener_quat : Quaternion A)
    (out : list A * list A) :
  DSPPipeline.chunk_size p = cs ->
  (cs < length (EnvironmentDSP.reverb_buffer (DSPPipeline.env p)))%nat ->
  (EnvironmentDSP.ptr (DSPPipeline.env p) + cs
   <= length (EnvironmentDSP.reverb_buffer (DSPPipeline.env p)))%nat ->
  DSPPipeline.process p sources_data listener_pos listener_quat
  = inr (out, p') ->
  length (fst out) = cs /\ length (snd out) = cs /\
  DSPPipeline.hrtf p' = DSPPipeline.hrtf p /\
  DSPPipeline.ctc p' = DSPPipeline.ctc p /\
  DSPPipeline.chunk_size p' = cs /\
  length (EnvironmentDSP.reverb_buffer (DSPPipeline.env p'))
  = length (EnvironmentDSP.reverb_buffer (DSPPipeline.env p)) /\
  (EnvironmentDSP.ptr (DSPPipeline.env p') + cs
   <= length (EnvironmentDSP.reverb_buffer (DSPPipeline.env p')))%nat.
Proof.
  intros Hcs Hlt Hin. unfold DSPPipeline.process. intros E.
  apply bind_ret_inv in E as (q & _ & E).
  apply bind_ret_inv in E as (mixed & Hmix & E).
  apply bind_ret_inv in E as ([po env'] & Hpost & E).
  apply bind_ret_inv in E as ([fl fr] & Hctc & E).
  injection E as <- <-.
  apply mix_sources_lengths in Hmix as [Hml Hmr]. cbn [fst snd] in Hml, Hmr.
  rewrite length_np_zeros, Hcs in Hml, Hmr.
  destruct (post_mix_lengths _ _ cs _ _ Hml Hmr Hlt Hin Hpost)
    as (Hol & Hor & Hb & Hp).
  cbn [fst snd] in Hctc.
  apply ctc_process_lengths in Hctc as [Hfl Hfr]; [|congruence].
  cbn [fst snd DSPPipeline.hrtf DSPPipeline.ctc DSPPipeline.chunk_size
       DSPPipeline.env].
  repeat split; try assumption; congruence.
Qed.

(** X23.  The block size is kept from end to end.  On a pipeline whose
    reverb buffer is longer than a block and holds the cursor window (as
    after construction with a block shorter than the buffer), every block
    that [process] returns has exactly [chunk_size] samples on the left
    and on the right, whatever the sources supplied; the HRTF engine, the
    crosstalk canceller and the block size are never changed, the reverb
    buffer keeps its length, and the cursor window stays inside it. *)
Theorem render_keeps_block_length (cs : nat)
    (blocks : list (list (DSPPipeline.source_entry A) * vec3 A
                    * Quaternion A)) :
  forall (p p' : DSPPipeline.t A) (outs : list (list A * list A)),
  DSPPipeline.chunk_size p = cs ->
  (cs < length (EnvironmentDSP.reverb_buffer (DSPPipeline.env p)))%nat ->
  (EnvironmentDSP.ptr (DSPPipeline.env p) + cs
   <= length (EnvironmentDSP.reverb_buffer (DSPPipeline.env p)))%nat ->
  DSPPipeline.render p blocks = inr (outs, p') ->
  length outs = length blocks /\
  Forall (fun lr => length (fst lr) = cs /\ length (snd lr) = cs) outs /\
  DSPPipeline.hrtf p' = DSPPipeline.hrtf p /\
  DSPPipeline.ctc p' = DSPPipeline.ctc p /\
  DSPPipeline.chunk_size p' = cs /\
  length (EnvironmentDSP.reverb_buffer (DSPPipeline.env p'))
  = length (EnvironmentDSP.reverb_buffer (DSPPipeline.env p)) /\
  (EnvironmentDSP.ptr (DSPPipeline.env p') + cs
   <= length (EnvironmentDSP.reverb_buffer (DSPPipeline.env p')))%nat.
Proof.
  induction blocks as [|[[sources pos] quat] rest IH];
    intros p p' outs Hcs Hlt Hin E; cbn [DSPPipeline.render] in E.
  - injection E as <- <-. repeat split; try assumption. constructor.
  - apply bind_ret_inv in E as ([out p1] & Hproc & E).
    apply bind_ret_inv in E as ([outs1 p2] & Hrest & E).
    injection E as <- <-. cbn [fst snd] in *.
    destruct (process_lengths _ _ cs _ _ _ _ Hcs Hlt Hin Hproc)
      as (Hl & Hr & Hh & Hc & Hcs1 & Hb & Hp).
    destruct (IH _ _ _ Hcs1 ltac:(lia) Hp Hrest)
      as (Hlen & Hall & Hh2 & Hc2 & Hcs2 & Hb2 & Hp2).
    split; [cbn; lia|]. split; [constructor; [split|]; assumption|].
    repeat split; try assumption; congruence.
Qed.
End BlockLengths.

Section WrongLength.
Context {A : Type} `{Arith A} `{Numpy A} `{!ZeroLaws A}.

Lemma ifft_returns (X : list HRTF_Engine.complex) :
  length X <> 0%nat -> exists time, HRTF_Engine.ifft X = inr time.
Proof.
  intros Hn. unfold HRTF_Engine.ifft.
  destruct (Nat.eqb_spec (length X) 0); [contradiction|].
  eexists; reflexivity.
Qed.

(** On an engine that answers every grid direction, [spatialize_source]
    returns for every block and every direction. *)
Lemma spatialize_source_returns (h : HRTF_Engine.t A) (n : nat)
    (audio_chunk : list A) (azimuth elevation : A) :
  hrtf_ready h n ->
  exists out_l out_r,
    HRTF_Engine.spatialize_source h audio_chunk azimuth elevation
    = inr (out_l, out_r) /\
    length out_l = Nat.min (length audio_chunk) n /\
    length out_r = Nat.min (length audio_chunk) n.
Proof.
  intros Hh.
  destruct (get_nearest_hrtf_returns h n azimuth elevation Hh)
    as (sp & Esp & Hl & Hr).
  destruct Hh as (Hn & Hnz & _).
  unfold HRTF_Engine.spatialize_source. rewrite Esp, Hn. cbn [bind].
  destruct (fft_returns audio_chunk n Hnz) as (X & -> & HX). cbn [bind].
  unfold broadcast2.
  unfold HRTF_Engine.complex in *.
  rewrite HX, Hl, Hr, Nat.eqb_refl. cbn [bind ret].
  destruct (ifft_returns (zip_with HRTF_Engine.cmul X (fst sp)))
    as [tl Etl].
  { unfold HRTF_Engine.complex in *. rewrite length_zip_with. lia. }
  destruct (ifft_returns (zip_with HRTF_Engine.cmul X (snd sp)))
    as [tr Etr].
  { unfold HRTF_Engine.complex in *. rewrite length_zip_with. lia. }
  unfold HRTF_Engine.complex in *.
  rewrite Etl. cbn [bind]. rewrite Etr. cbn [bind].
  do 2 eexists. split; [reflexivity|].
  apply ifft_length in Etl, Etr.
  unfold HRTF_Engine.complex in *.
  rewrite !length_take, !length_map, Etl, Etr, !length_zip_with.
  split; lia.
Qed.

Lemma mix_source_wrong_length (p : DSPPipeline.t A) (listener_pos : vec3 A)
    (inv_quat : Quaternion A) (cs : nat) (name : string) (chunk : list A)
    (source_pos : vec3 A) :
  DSPPipeline.chunk_size p = cs -> (0 < cs)%nat ->
  hrtf_ready (DSPPipeline.hrtf p) (cs * 2) ->
  length chunk <> cs -> length chunk <> 1%nat ->
  DSPPipeline.mix_source p listener_pos inv_quat
    (np_zeros cs, np_zeros cs) (name, (chunk, source_pos))
  = inl ValueError.
Proof.
  intros Hcs Hpos Hh Hne H1. destruct source_pos as [[sx sy] sz].
  destruct listener_pos as [[px py_] pz].
  unfold DSPPipeline.mix_source.
  destruct (quat_rotate inv_quat _) as [[lx ly] lz].
  rewrite apply_doppler_static. cbn [bind].
  match goal with
  | |- context [HRTF_Engine.spatialize_source ?h ?c ?az ?el] =>
      destruct (spatialize_source_returns h (cs * 2) c az el Hh)
        as (ol & or_ & -> & Hol & _)
  end.
  rewrite length_map in Hol. cbn [bind fst snd].
  unfold iadd at 1. rewrite length_np_zeros.
  destruct (Nat.eqb_spec (length ol) cs) as [E|_]; [lia|].
  destruct ol as [|y [|y' ol']]; try reflexivity.
  cbn [length] in Hol. lia.
Qed.

Lemma process_wrong_length (p : DSPPipeline.t A) (cs : nat)
    (name : string) (chunk : list A) (source_pos : vec3 A)
    (rest : list (DSPPipeline.source_entry A))
    (listener_pos : vec3 A) (listener_quat : Quaternion A) :
  DSPPipeline.chunk_size p = cs -> (0 < cs)%nat ->
  hrtf_ready (DSPPipeline.hrtf p) (cs * 2) ->
  length chunk <> cs -> length chunk <> 1%nat ->
  (exists q, quat_inverse listener_quat = inr q) ->
  DSPPipeline.process p ((name, (chunk, source_pos)) :: rest)
    listener_pos listener_quat
  = inl ValueError.
Proof.
  intros Hcs Hpos Hh Hne H1 [q Hq]. unfold DSPPipeline.process.
  rewrite Hq. cbn [bind for_each]. rewrite Hcs.
  now rewrite (mix_source_wrong_length p listener_pos q cs).
Qed.

Lemma init_hrtf_ready (sample_rate : Z) (fft_size : nat)
    (h : HRTF_Engine.t A) :
  HRTF_Engine.__init__ sample_rate fft_size = inr h ->
  hrtf_ready h fft_size.
Proof.
  intros Eh. destruct (hrtf_init_db _ _ _ Eh) as [Edb Hn].
  split; [exact Hn|]. split.
  - unfold HRTF_Engine._generate_synthetic_hrtf in Edb.
    destruct (generated_db_keys _ _ _ _ _ _ 0 0 Edb)
      as (row & sp & _ & Hsp & _); [lia | lia |].
    intros ->.
    pose proof (db_lookup_grid _ _ _ 0 0 Eh ltac:(lia) ltac:(lia))
      as (row' & sp' & _ & _ & Hl & _).
    destruct (db_entry_inv _ _ _ _ _ _ Eh Hl) as (i & j & _ & _ & _ & _ & E).
    unfold HRTF_Engine.synthetic_pair in E.
    apply bind_ret_inv in E as (itd & _ & E).
    apply bind_ret_inv in E as (ir & _ & E).
    apply bind_ret_inv in E as (sl & El & _).
    apply fft_length in El as [_ Hnz]. now apply Hnz.
  - intros i j Hi Hj.
    destruct (db_lookup_grid _ _ _ i j Eh Hi Hj)
      as (row & sp & _ & _ & Hl & Hlen). eauto.
Qed.
End WrongLength.

(** X24.  In exact arithmetic, on a constructed pipeline (and on every
    later state of it), a source that supplies a block whose length is
    neither the block size nor 1 makes [process] raise [ValueError]: the
    spatialised block cannot be added to the mix.  (A block of one sample
    is broadcast over the whole mix instead.) *)
Theorem wrong_length_chunk_is_rejected `{Numpy Qc} (sample_rate : Z)
    (cs : nat) (p0 p : DSPPipeline.t Qc) (name : string) (chunk : list Qc)
    (source_pos : vec3 Qc) (rest : list (DSPPipeline.source_entry Qc))
    (listener_pos : vec3 Qc) (listener_quat : Quaternion Qc) :
  DSPPipeline.__init__ sample_rate cs = inr p0 ->
  DSPPipeline.hrtf p = DSPPipeline.hrtf p0 ->
  DSPPipeline.chunk_size p = cs ->
  length chunk <> cs -> length chunk <> 1%nat ->
  (exists q, quat_inverse listener_quat = inr q) ->
  DSPPipeline.process p ((name, (chunk, source_pos)) :: rest)
    listener_pos listener_quat
  = inl ValueError.
Proof.
  intros E Hh Hcs Hne H1 Hq.
  apply pipeline_init_inv in E as (Eh & _ & _ & _).
  pose proof (init_hrtf_ready _ _ _ Eh) as Hr.
  assert (0 < cs)%nat as Hpos by (destruct Hr as (_ & Hnz & _); lia).
  apply process_wrong_length with (cs := cs); try assumption.
  now rewrite Hh.
Qed.

Lemma spatialize_source_lengths_witness :
  exists eng out_l out_r,
    HRTF_Engine.__init__ (A := Qc) (H0 := stand_in) 96000 2048 = inr eng /\
    HRTF_Engine.spatialize_source (H0 := stand_in) eng
      [Q2Qc 1; Q2Qc 2; Q2Qc 3] (Q2Qc 45) (Q2Qc 0) = inr (out_l, out_r) /\
    length out_l = Nat.min 3 2048 /\ length out_r = Nat.min 3 2048.
Proof.
  destruct (hrtf_init_returns (H0 := stand_in) 96000 2048 grid_fits_96000)
    as [eng E]; [lia|].
  destruct (spatialize_source_returns (H0 := stand_in) eng 2048
              [Q2Qc 1; Q2Qc 2; Q2Qc 3] (Q2Qc 45) (Q2Qc 0)
              (init_hrtf_ready (H0 := stand_in) _ _ _ E))
    as (ol & or_ & Es & _).
  exists eng, ol, or_. split; [exact E|]. split; [exact Es|].
  exact (spatialize_source_lengths (H0 := stand_in) 96000 2048 eng _ _ _
           ol or_ E Es).
Defined.

Lemma wrong_length_chunk_is_rejected_witness :
  exists p0,
    DSPPipeline.__init__ (A := Qc) (H0 := stand_in) 96000 1024 = inr p0 /\
    DSPPipeline.process (H0 := stand_in) p0
      [("Bird"%string, ([Q2Qc 1; Q2Qc 2], (Q2Qc 1, Q2Qc 1, Q2Qc 1)))]
      (Q2Qc 0, Q2Qc 0, Q2Qc (8 # 5))
      {| qw := Q2Qc 1; qx := Q2Qc 0; qy := Q2Qc 0; qz := Q2Qc 0 |}
    = inl ValueError.
Proof.
  destruct (hrtf_init_returns (H0 := stand_in) 96000 (1024 * 2)
              grid_fits_96000) as [h Eh]; [lia|].
  pose proof (pipeline_init_returns (H0 := stand_in) 96000 1024 h _ Eh
                (env_init_exact 96000 ltac:(lia))) as E.
  eexists. split; [exact E|].
  apply (@wrong_length_chunk_is_rejected stand_in 96000 1024 _ _ _ _ _ _ _ _
           E eq_refl eq_refl).
  - cbn. lia.
  - cbn. lia.
  - eexists. vm_compute. reflexivity.
Defined.

Lemma render_keeps_block_length_witness :
  exists p0 p' outs,
    DSPPipeline.__init__ (A := Qc) (H0 := stand_in) 96000 1024 = inr p0 /\
    DSPPipeline.render (H0 := stand_in) p0 two_silent_blocks
    = inr (outs, p') /\
    length outs = length two_silent_blocks /\
    Forall (fun lr => length (fst lr) = 1024%nat
                      /\ length (snd lr) = 1024%nat) outs /\
    DSPPipeline.hrtf p' = DSPPipeline.hrtf p0 /\
    DSPPipeline.ctc p' = DSPPipeline.ctc p0 /\
    DSPPipeline.chunk_size p' = 1024%nat /\
    length (EnvironmentDSP.reverb_buffer (DSPPipeline.env p'))
    = length (EnvironmentDSP.reverb_buffer (DSPPipeline.env p0)) /\
    (EnvironmentDSP.ptr (DSPPipeline.env p') + 1024
     <= length (EnvironmentDSP.reverb_buffer (DSPPipeline.env p')))%nat.
Proof.
  destruct (hrtf_init_returns (H0 := stand_in) 96000 (1024 * 2)
              grid_fits_96000) as [h Eh]; [lia|].
  pose proof (pipeline_init_returns (H0 := stand_in) 96000 1024 h _ Eh
                (env_init_exact 96000 ltac:(lia))) as E.
  assert (1024 < length (np_zeros (Z.to_nat (96000 / 2)) : list Qc))%nat
    as Hlt
    by (rewrite length_np_zeros; change (96000 / 2) with 48000; lia).
  destruct (render_silence (H0 := stand_in) 1024 _ two_silent_blocks
              ltac:(lia)
              (init_silent_state (H0 := stand_in) 96000 1024 _ E
                 ltac:(lia) Hlt)
              two_silent_blocks_are_silent) as [p' Hr].
  do 3 eexists. split; [exact E|]. split; [exact Hr|].
  refine (render_keeps_block_length (H0 := stand_in) 1024 two_silent_blocks
            _ p' _ _ _ _ Hr).
  - reflexivity.
  - exact Hlt.
  - cbn [DSPPipeline.env EnvironmentDSP.reverb_buffer EnvironmentDSP.ptr].
    cbn [DSPPipeline.env EnvironmentDSP.reverb_buffer] in Hlt. lia.
Defined.

(* --------------------------------------------------------------------- *)
(** ** The audio callback with no audio files *)
(* --------------------------------------------------------------------- *)

Section LoopInvariant.
Context {T S : Type}.

Lemma for_each_invariant (P : S -> Prop) (body : S -> T -> py S)
    (xs : list T) : forall s s' : S,
  (forall acc x acc', P acc -> body acc x = inr acc' -> P acc') ->
  P s -> for_each body xs s = inr s' -> P s'.
Proof.
  induction xs as [|x xs IH]; intros s s' Hb Hs E; cbn [for_each] in E.
  - now injection E as <-.
  - apply bind_ret_inv in E as (s1 & E1 & E).
    apply (IH s1 s' Hb); [apply (Hb s x s1 Hs E1) | exact E].
Qed.
End LoopInvariant.

Section SilentEngine.
Context {A : Type} `{Arith A} `{Host A}.

Lemma dict_set_Forall {V : Type} (P : V -> Prop) (d : list (string * V))
    (k : string) (v : V) :
  Forall (fun kv => P (snd kv)) d -> P v ->
  Forall (fun kv => P (snd kv)) (dict_set d k v).
Proof.
  intros Hd Hv. induction Hd as [|[k' v'] d Hkv Hd IH]; cbn [dict_set].
  - repeat constructor. exact Hv.
  - destruct (String.eqb k' k); constructor; assumption.
Qed.

Lemma init_sources_silent (sample_rate : Z)
    (srcs : list (AudioSource.t A)) :
  (forall path, os_path_exists path = false) ->
  AudioEngine._init_sources sample_rate [] = inr srcs ->
  Forall (fun s => exists L, AudioSource.audio_data s = np_zeros L) srcs.
Proof.
  intros Hno E. unfold AudioEngine._init_sources in E.
  revert E. apply for_each_invariant; [|constructor].
  intros acc [[name pos] path] acc' Hacc Eb.
  apply bind_ret_inv in Eb as (s & Es & Eb). injection Eb as <-.
  apply Forall_app. split; [exact Hacc|]. repeat constructor.
  unfold AudioSource__init__ in Es. rewrite Hno in Es. cbn [bind ret] in Es.
  destruct (_ <? 0); cbn [bind] in Es; [discriminate|].
  injection Es as <-. eexists. reflexivity.
Qed.

Lemma engine_init_silent (sample_rate : Z) (cs : nat)
    (e : AudioEngine.t A) :
  (forall path, os_path_exists path = false) ->
  AudioEngine.__init__ sample_rate cs = inr e ->
  all_silent e /\ AudioEngine.chunk_size e = cs.
Proof.
  intros Hno E. unfold AudioEngine.__init__ in E.
  apply bind_ret_inv in E as (srcs & Es & E). injection E as <-.
  split; [|reflexivity]. exact (init_sources_silent _ _ Hno Es).
Qed.

Lemma silent_chunk (s : AudioSource.t A) (n : nat) :
  (exists L, AudioSource.audio_data s = np_zeros L) ->
  fst (AudioSource.get_next_chunk s n) = np_zeros n /\
  exists L, AudioSource.audio_data (snd (AudioSource.get_next_chunk s n))
            = np_zeros L.
Proof.
  intros [L HL]. split.
  - rewrite get_next_chunk_padded, HL. apply padded_block_zeros.
  - exists L. exact HL.
Qed.

Lemma get_source_chunks_silent (e : AudioEngine.t A) :
  all_silent e ->
  Forall (fun entry : DSPPipeline.source_entry A =>
            fst (snd entry) = np_zeros (AudioEngine.chunk_size e))
         (fst (AudioEngine.get_source_chunks e)) /\
  all_silent (snd (AudioEngine.get_source_chunks e)) /\
  AudioEngine.chunk_size (snd (AudioEngine.get_source_chunks e))
  = AudioEngine.chunk_size e.
Proof.
  unfold all_silent, AudioEngine.get_source_chunks.
  set (n := AudioEngine.chunk_size e). intros Hs.
  set (step := fun (acc : list (DSPPipeline.source_entry A)
                          * list (AudioSource.t A)) s =>
                 let (chunk, s') := AudioSource.get_next_chunk s n in
                 (dict_set (fst acc) (AudioSource.name s)
                    (chunk, AudioSource.pos s), snd acc ++ [s'])).
  assert (forall srcs acc,
            Forall (fun s => exists L, AudioSource.audio_data s = np_zeros L)
              srcs ->
            Forall (fun entry : DSPPipeline.source_entry A =>
                      fst (snd entry) = np_zeros n) (fst acc) ->
            Forall (fun s => exists L, AudioSource.audio_data s = np_zeros L)
              (snd acc) ->
            Forall (fun entry : DSPPipeline.source_entry A =>
                      fst (snd entry) = np_zeros n)
                   (fst (foldl step acc srcs)) /\
            Forall (fun s => exists L, AudioSource.audio_data s = np_zeros L)
                   (snd (foldl step acc srcs))) as Hfold.
  { induction srcs as [|s srcs IH]; intros acc Hsrcs Hd Hm; cbn [foldl].
    - split; assumption.
    - apply Forall_cons in Hsrcs as [Hs1 Hsrcs].
      destruct (silent_chunk s n Hs1) as [Hc Hs'].
      apply IH; [exact Hsrcs | |]; unfold step;
        destruct (AudioSource.get_next_chunk s n) as [c s'];
        cbn [fst snd] in *.
      + apply (dict_set_Forall (fun v : list A * vec3 A => fst v = np_zeros n));
          [exact Hd | exact Hc].
      + apply Forall_app. split; [exact Hm|]. repeat constructor. exact Hs'. }
  destruct (Hfold (AudioEngine.sources e) ([], []) Hs
              ltac:(constructor) ltac:(constructor)) as [Hd Hm].
  subst step. destruct (foldl _ ([], []) (AudioEngine.sources e))
    as [d moved]. cbn [fst snd AudioEngine.sources AudioEngine.chunk_size] in *.
  split; [exact Hd|]. split; [exact Hm | reflexivity].
Qed.
End SilentEngine.

Section SilentSystem.
Context {A : Type} `{Arith A} `{Numpy A} `{Host A} `{!ZeroLaws A}.

Lemma audio_callbacks_silence (cs : nat)
    (poses : list (vec3 A * Quaternion A)) :
  forall sys : MudumalaiSystem.t A,
  (0 < cs)%nat ->
  all_silent (MudumalaiSystem.audio sys) ->
  AudioEngine.chunk_size (MudumalaiSystem.audio sys) = cs ->
  silent_state cs (MudumalaiSystem.pipeline sys) ->
  Forall (fun pose => exists q, quat_inverse (snd pose) = inr q) poses ->
  exists sys',
    audio_callbacks sys cs poses
    = inr (map (fun _ => (np_zeros cs, np_zeros cs)) poses, sys').
Proof.
  induction poses as [|[pos quat] rest IH];
    intros sys Hcs Hsil Hchunk Hstate Hposes; cbn [audio_callbacks map].
  - eexists; reflexivity.
  - apply Forall_cons in Hposes as [Hq Hrest]. cbn [snd] in Hq.
    unfold MudumalaiSystem._audio_callback.
    cbn [MudumalaiSystem.audio MudumalaiSystem.pipeline
         MudumalaiSystem.current_pos MudumalaiSystem.current_quat].
    destruct (get_source_chunks_silent _ Hsil) as (Hd & Hsil' & Hchunk').
    rewrite Hchunk in Hd, Hchunk'.
    destruct (AudioEngine.get_source_chunks (MudumalaiSystem.audio sys))
      as [d audio1]. cbn [fst snd] in Hd, Hsil', Hchunk'.
    destruct (process_silence cs (MudumalaiSystem.pipeline sys)
                (d, pos, quat) Hcs Hstate) as (p' & Ep & Hstate').
    { split; [exact Hd | exact Hq]. }
    cbn [fst snd] in Ep. rewrite Ep. cbn [bind fst snd].
    unfold MudumalaiSystem.set_column.
    rewrite length_np_zeros, Nat.eqb_refl. cbn [bind ret fst snd].
    edestruct IH as [sys' ->]; [exact Hcs | | | | exact Hrest |];
      [exact Hsil' | exact Hchunk' | exact Hstate' |].
    cbn [bind fst snd]. eexists; reflexivity.
Qed.
End SilentSystem.

(** X25.  In exact arithmetic, when none of the five audio files exists,
    the system plays silence: the engine and the pipeline are constructed
    (every source falls back to five seconds of zeros), and with a block
    shorter than the reverb buffer every audio callback writes
    [frames = chunk_size] zeros to both output columns, for every sequence
    of listener poses with invertible orientations; no callback raises. *)
Theorem missing_files_give_silent_output `{Numpy Qc} `{Host Qc}
    (sample_rate : Z) (cs : nat) (audio : AudioEngine.t Qc)
    (pipeline : DSPPipeline.t Qc) (pos0 : vec3 Qc) (quat0 : Quaternion Qc)
    (poses : list (vec3 Qc * Quaternion Qc)) :
  (forall path, os_path_exists path = false) ->
  AudioEngine.__init__ sample_rate cs = inr audio ->
  DSPPipeline.__init__ sample_rate cs = inr pipeline ->
  (0 < cs)%nat ->
  (cs < length (EnvironmentDSP.reverb_buffer (DSPPipeline.env pipeline)))%nat ->
  Forall (fun pose => exists q, quat_inverse (snd pose) = inr q) poses ->
  exists sys',
    audio_callbacks
      {| MudumalaiSystem.audio := audio;
         MudumalaiSystem.pipeline := pipeline;
         MudumalaiSystem.current_pos := pos0;
         MudumalaiSystem.current_quat := quat0 |} cs poses
    = inr (map (fun _ => (np_zeros cs, np_zeros cs)) poses, sys').
Proof.
  intros Hno Ea Ep Hcs Hlt Hposes.
  destruct (engine_init_silent _ _ _ Hno Ea) as [Hsil Hchunk].
  apply audio_callbacks_silence; try assumption.
  exact (init_silent_state sample_rate cs pipeline Ep Hcs Hlt).
Qed.

Lemma missing_files_give_silent_output_witness :
  exists audio pipeline sys',
    AudioEngine.__init__ (A := Qc) (H0 := no_files) 96000 1024 = inr audio /\
    DSPPipeline.__init__ (A := Qc) (H0 := stand_in) 96000 1024
    = inr pipeline /\
    audio_callbacks (H0 := stand_in)
      {| MudumalaiSystem.audio := audio;
         MudumalaiSystem.pipeline := pipeline;
         MudumalaiSystem.current_pos := (Q2Qc 0, Q2Qc 0, Q2Qc (8 # 5));
         MudumalaiSystem.current_quat :=
           {| qw := Q2Qc 1; qx := Q2Qc 0; qy := Q2Qc 0; qz := Q2Qc 0 |} |}
      1024 two_poses
    = inr ([(np_zeros 1024, np_zeros 1024); (np_zeros 1024, np_zeros 1024)],
           sys').
Proof.
  destruct (hrtf_init_returns (H0 := stand_in) 96000 (1024 * 2)
              grid_fits_96000) as [h Eh]; [lia|].
  pose proof (pipeline_init_returns (H0 := stand_in) 96000 1024 h _ Eh
                (env_init_exact 96000 ltac:(lia))) as Ep.
  assert (exists audio,
            AudioEngine.__init__ (A := Qc) (H0 := no_files) 96000 1024
            = inr audio) as [audio Ea] by (eexists; reflexivity).
  destruct (@missing_files_give_silent_output stand_in no_files 96000 1024
              audio _ (Q2Qc 0, Q2Qc 0, Q2Qc (8 # 5))
              {| qw := Q2Qc 1; qx := Q2Qc 0; qy := Q2Qc 0; qz := Q2Qc 0 |}
              two_poses (fun _ => eq_refl) Ea Ep) as [sys' Hr].
  - lia.
  - cbn [DSPPipeline.env EnvironmentDSP.reverb_buffer].
    rewrite length_np_zeros. change (96000 / 2) with 48000. lia.
  - repeat constructor; eexists; vm_compute; reflexivity.
  - exists audio. eexists. exists sys'. split; [exact Ea|].
    split; [exact Ep | exact Hr].
Defined.

(* --------------------------------------------------------------------- *)
(** ** The Kalman state, and SensorFusion *)
(* --------------------------------------------------------------------- *)

Section KalmanShape.
Context {A : Type} `{Arith A} `{Numpy A}.

Lemma update_position_keeps_matrices (kf kf' : KalmanFilter3D.t A)
    (z : list A) :
  KalmanFilter3D.update_position kf z = inr kf' ->
  KalmanFilter3D.pos_H kf' = KalmanFilter3D.pos_H kf.
Proof.
  unfold KalmanFilter3D.update_position. intros E.
  apply bind_ret_inv in E as (y & _ & E).
  apply bind_ret_inv in E as (Si & _ & E).
  apply bind_ret_inv in E as (x & _ & E).
  now injection E as <-.
Qed.

Lemma kalman_run_keeps_H (steps : list (kalman_step A)) :
  forall kf kf' : KalmanFilter3D.t A,
  kalman_run kf steps = inr kf' ->
  KalmanFilter3D.pos_H kf' = KalmanFilter3D.pos_H kf.
Proof.
  induction steps as [|[|z] rest IH]; intros kf kf' E; cbn [kalman_run] in E.
  - now injection E as <-.
  - now apply IH in E.
  - apply bind_ret_inv in E as (kf1 & E1 & E).
    apply update_position_keeps_matrices in E1. apply IH in E. congruence.
Qed.

(** X26.  On every filter reached from the constructor by [predict] and
    [update_position] calls, a measurement that has neither three
    coordinates nor one raises [ValueError]: the innovation [z - H x]
    cannot be formed.  (A measurement of one coordinate is broadcast to
    all three axes instead of being rejected.) *)
Theorem update_position_rejects_wrong_shape (dt : A)
    (steps : list (kalman_step A)) (kf : KalmanFilter3D.t A) (z : list A) :
  kalman_run (KalmanFilter3D.__init__ dt) steps = inr kf ->
  length z <> 3%nat -> length z <> 1%nat ->
  KalmanFilter3D.update_position kf z = inl ValueError.
Proof.
  intros E H3 H1. apply kalman_run_keeps_H in E.
  unfold KalmanFilter3D.update_position. rewrite E.
  unfold broadcast2 at 1. unfold matvec at 1. rewrite length_map.
  change (length (KalmanFilter3D.pos_H (KalmanFilter3D.__init__ dt)))
    with 3%nat.
  destruct (Nat.eqb_spec (length z) 3); [contradiction|].
  destruct z as [|z0 [|z1 z']]; [reflexivity | cbn in H1; lia |].
  reflexivity.
Qed.
End KalmanShape.

Lemma update_position_rejects_wrong_shape_witness :
  exists kf,
    kalman_run (H0 := stand_in) (KalmanFilter3D.__init__ 0.01%float)
      [Predict; Update [1; 0; 1.6]%float] = inr kf /\
    KalmanFilter3D.update_position (H0 := stand_in) kf [1; 0]%float
    = inl ValueError.
Proof.
  assert (exists kf,
            kalman_run (H0 := stand_in) (KalmanFilter3D.__init__ 0.01%float)
              [Predict; Update [1; 0; 1.6]%float] = inr kf)
    as [kf E] by (eexists; vm_compute; reflexivity).
  exists kf. split; [exact E|].
  apply (update_position_rejects_wrong_shape (H0 := stand_in) _ _ kf _ E);
    cbn; lia.
Defined.

Section StateAlgebra.
Context {A : Type} `{Arith A} `{Numpy A}.
Hypothesis A_field :
  field_theory (of_Z 0) (of_Z 1) add mul sub neg div
               (fun x => of_Z 1 / x)%py eq.
Add Field A_field_state : A_field.

Ltac mat_compute := cbv -[of_Z add sub mul div neg lit].

Lemma predict_state (dt : A) (kf : KalmanFilter3D.t A) (abc : A * A * A)
    (x0 x1 x2 v0 v1 v2 : A) :
  tracks dt kf abc ->
  KalmanFilter3D.pos_state kf = [x0; x1; x2; v0; v1; v2] ->
  KalmanFilter3D.pos_state (KalmanFilter3D.predict kf)
  = [x0 + dt * v0; x1 + dt * v1; x2 + dt * v2; v0; v1; v2]%py.
Proof.
  intros (HF & _) Hx. unfold KalmanFilter3D.predict.
  cbn [KalmanFilter3D.with_state KalmanFilter3D.pos_state].
  rewrite HF, Hx. mat_compute. repeat (f_equal; try ring).
Qed.

Lemma update_state (dt : A) (kf : KalmanFilter3D.t A) (a b c : A)
    (x0 x1 x2 v0 v1 v2 z0 z1 z2 : A) :
  inverts_scalar_matrices ->
  (a + lit 15 100)%py <> of_Z 0 ->
  tracks dt kf (a, b, c) ->
  KalmanFilter3D.pos_state kf = [x0; x1; x2; v0; v1; v2] ->
  exists kf',
    KalmanFilter3D.update_position kf [z0; z1; z2] = inr kf' /\
    let g := (a / (a + lit 15 100))%py in
    let h := (b / (a + lit 15 100))%py in
    KalmanFilter3D.pos_state kf'
    = [x0 + g * (z0 - x0); x1 + g * (z1 - x1); x2 + g * (z2 - x2);
       v0 + h * (z0 - x0); v1 + h * (z1 - x1); v2 + h * (z2 - x2)]%py.
Proof.
  intros Hinv Hs (HF & HH & HQ & HR & Hlen & HP) Hx.
  unfold KalmanFilter3D.update_position. rewrite HH, HR, HP, Hx. cbv zeta.
  replace (madd _ _) with (diagonal 3 (a + lit 15 100)%py).
  2:{ mat_compute. generalize (lit 15 100 : A). intros r.
      repeat (f_equal; try ring). }
  rewrite (Hinv _ Hs).
  eexists. split.
  { cbv -[of_Z add sub mul div neg KalmanFilter3D.with_state lit].
    reflexivity. }
  cbn [KalmanFilter3D.with_state KalmanFilter3D.pos_state].
  revert Hs. generalize (lit 15 100 : A). intros r Hs.
  repeat (f_equal; try (field; exact Hs)).
Qed.
End StateAlgebra.

Section ReachedFilters.
Context `{Numpy Qc}.
Hypothesis inverse_ok : inverts_scalar_matrices.

Lemma reached_tracks (dt : Qc) (steps : list (kalman_step Qc))
    (kf : KalmanFilter3D.t Qc) :
  Forall measurement_ok steps ->
  kalman_run (KalmanFilter3D.__init__ dt) steps = inr kf ->
  exists abc, tracks dt kf abc /\ block_psd abc.
Proof.
  intros Hok E.
  destruct (kalman_run_tracks inverse_ok dt steps (KalmanFilter3D.__init__ dt)
              (of_Z 1, of_Z 0, of_Z 1) Hok (init_tracks exact_field dt))
    as (kf' & abc & Hrun & Htr & Hpsd).
  { repeat split; discriminate. }
  rewrite E in Hrun. injection Hrun as <-. eauto.
Qed.

Lemma tracked_state (dt : Qc) (kf : KalmanFilter3D.t Qc)
    (abc : Qc * Qc * Qc) :
  tracks dt kf abc ->
  exists x0 x1 x2 v0 v1 v2,
    KalmanFilter3D.pos_state kf = [x0; x1; x2; v0; v1; v2].
Proof.
  intros (_ & _ & _ & _ & Hlen & _).
  destruct (KalmanFilter3D.pos_state kf)
    as [|x0 [|x1 [|x2 [|v0 [|v1 [|v2 [|]]]]]]]; try discriminate Hlen.
  eauto 10.
Qed.

Lemma gain_in_unit_interval (a : Qc) :
  (Q2Qc 0 <= a)%Qc ->
  (Q2Qc 0 <= a / (a + lit 15 100))%Qc /\ (a / (a + lit 15 100) < Q2Qc 1)%Qc.
Proof.
  intros Ha. to_Q.
  assert (0 < this a + (15 # 100))%Q as Hpos by lra.
  split.
  - apply Qle_shift_div_l; [exact Hpos | lra].
  - apply Qlt_shift_div_r; [exact Hpos | lra].
Qed.

Lemma reached_update_returns (dt : Qc) (steps : list (kalman_step Qc))
    (kf : KalmanFilter3D.t Qc) (z : list Qc) :
  Forall measurement_ok steps ->
  kalman_run (KalmanFilter3D.__init__ dt) steps = inr kf ->
  length z = 3%nat ->
  exists kf', KalmanFilter3D.update_position kf z = inr kf'.
Proof.
  intros Hok E Hz.
  destruct (reached_tracks dt steps kf Hok E) as (abc & Htr & Hpsd).
  destruct (update_tracks exact_field dt kf abc z inverse_ok
              (innovation_variance_nonzero abc Hpsd) Hz Htr)
    as (kf' & Eu & _).
  eauto.
Qed.
End ReachedFilters.

(** X27.  In exact arithmetic, on every filter reached from
    [KalmanFilter3D(dt)] by [predict] and [update_position] calls (with
    measurements of three coordinates and [np.linalg.inv] inverting the
    multiples of the identity), [predict] moves each position coordinate
    by [dt] times its velocity and leaves the three velocities as they
    are. *)
Theorem predict_moves_position_by_velocity `{Numpy Qc} (dt : Qc)
    (steps : list (kalman_step Qc)) (kf : KalmanFilter3D.t Qc) :
  inverts_scalar_matrices ->
  Forall measurement_ok steps ->
  kalman_run (KalmanFilter3D.__init__ dt) steps = inr kf ->
  exists x0 x1 x2 v0 v1 v2 : Qc,
    KalmanFilter3D.pos_state kf = [x0; x1; x2; v0; v1; v2] /\
    KalmanFilter3D.pos_state (KalmanFilter3D.predict kf)
    = [x0 + dt * v0; x1 + dt * v1; x2 + dt * v2; v0; v1; v2]%Qc.
Proof.
  intros Hinv Hok E.
  destruct (reached_tracks Hinv dt steps kf Hok E) as (abc & Htr & _).
  destruct (tracked_state dt kf abc Htr)
    as (x0 & x1 & x2 & v0 & v1 & v2 & Hx).
  exists x0, x1, x2, v0, v1, v2. split; [exact Hx|].
  exact (predict_state exact_field dt kf abc _ _ _ _ _ _ Htr Hx).
Qed.

(** X28.  In exact arithmetic, on every filter reached from the
    constructor, [update_position([z0, z1, z2])] does not raise and moves
    each position coordinate from its predicted value [x] towards the
    measured one by one common gain: [x + g * (z - x)] with
    [0 <= g < 1], the same [g] on the three axes; each velocity is
    corrected by the same innovation [z - x] times a second common
    factor. *)
Theorem update_position_blends_towards_measurement `{Numpy Qc} (dt : Qc)
    (steps : list (kalman_step Qc)) (kf : KalmanFilter3D.t Qc)
    (z0 z1 z2 : Qc) :
  inverts_scalar_matrices ->
  Forall measurement_ok steps ->
  kalman_run (KalmanFilter3D.__init__ dt) steps = inr kf ->
  exists (kf' : KalmanFilter3D.t Qc) (g h x0 x1 x2 v0 v1 v2 : Qc),
    KalmanFilter3D.update_position kf [z0; z1; z2] = inr kf' /\
    (Q2Qc 0 <= g)%Qc /\ (g < Q2Qc 1)%Qc /\
    KalmanFilter3D.pos_state kf = [x0; x1; x2; v0; v1; v2] /\
    KalmanFilter3D.pos_state kf'
    = [x0 + g * (z0 - x0); x1 + g * (z1 - x1); x2 + g * (z2 - x2);
       v0 + h * (z0 - x0); v1 + h * (z1 - x1); v2 + h * (z2 - x2)]%Qc.
Proof.
  intros Hinv Hok E.
  destruct (reached_tracks Hinv dt steps kf Hok E)
    as ([[a b] c] & Htr & Hpsd).
  destruct (tracked_state dt kf _ Htr)
    as (x0 & x1 & x2 & v0 & v1 & v2 & Hx).
  destruct (update_state exact_field dt kf a b c x0 x1 x2 v0 v1 v2 z0 z1 z2
              Hinv (innovation_variance_nonzero (a, b, c) Hpsd) Htr Hx)
    as (kf' & Eu & Hs).
  cbv zeta in Hs.
  destruct (gain_in_unit_interval a (proj1 Hpsd)) as [Hg0 Hg1].
  exists kf', (a / (a + lit 15 100))%Qc, (b / (a + lit 15 100))%Qc,
    x0, x1, x2, v0, v1, v2.
  repeat (split; [assumption|]). exact Hs.
Qed.

(** X29.  In exact arithmetic a position measurement never increases an
    uncertainty: on every filter reached from the constructor,
    [update_position] leaves every diagonal entry of the covariance [P]
    (the variances of the three positions and the three velocities) at or
    below its value before the update, and not below zero. *)
Theorem update_position_never_increases_variance `{Numpy Qc} (dt : Qc)
    (steps : list (kalman_step Qc)) (kf kf' : KalmanFilter3D.t Qc)
    (z : list Qc) (i : nat) :
  inverts_scalar_matrices ->
  Forall measurement_ok steps ->
  kalman_run (KalmanFilter3D.__init__ dt) steps = inr kf ->
  KalmanFilter3D.update_position kf z = inr kf' ->
  length z = 3%nat -> (i < 6)%nat ->
  (Q2Qc 0 <= mget (KalmanFilter3D.pos_P kf') i i)%Qc /\
  (mget (KalmanFilter3D.pos_P kf') i i
   <= mget (KalmanFilter3D.pos_P kf) i i)%Qc.
Proof.
  intros Hinv Hok E Eu Hz Hi.
  destruct (reached_tracks Hinv dt steps kf Hok E)
    as ([[a b] c] & Htr & Hpsd).
  destruct (update_tracks exact_field dt kf (a, b, c) z Hinv
              (innovation_variance_nonzero (a, b, c) Hpsd) Hz Htr)
    as (kf2 & Eu2 & Htr2).
  rewrite Eu in Eu2. injection Eu2 as <-.
  pose proof (updated_psd (a, b, c) Hpsd) as Hpsd2.
  destruct Htr as (_ & _ & _ & _ & _ & HP).
  destruct Htr2 as (_ & _ & _ & _ & _ & HP2).
  rewrite HP, HP2.
  destruct Hpsd as (Ha & Hc & Hd).
  unfold updated, block_psd in Hpsd2. destruct Hpsd2 as (Ha2 & Hc2 & _).
  assert ((a - a * a / (a + lit 15 100))%py <= a
          /\ (c - b * b / (a + lit 15 100))%py <= c)%Qc as [Hla Hlc].
  { clear -Ha Hc Hd. to_Q.
    assert (0 < this a + (15 # 100))%Q as Hpos by lra.
    assert (0 <= this a * this a / (this a + (15 # 100)))%Q
      by (apply Qle_shift_div_l; [exact Hpos | nra]).
    assert (0 <= this b * this b / (this a + (15 # 100)))%Q
      by (apply Qle_shift_div_l; [exact Hpos | nra]).
    split; lra. }
  do 6 (destruct i as [|i]; [split; assumption|]). lia.
Qed.

Lemma one_fix :
  exists kf,
    kalman_run (H0 := stand_in) (KalmanFilter3D.__init__ (lit 1 100 : Qc))
      [Predict; Update [of_Z 1; of_Z 0; lit 16 10]] = inr kf.
Proof. eexists. vm_compute. reflexivity. Defined.

Lemma one_fix_ok :
  Forall measurement_ok
    [Predict; Update [of_Z 1; of_Z 0; lit 16 10 : Qc]].
Proof. repeat constructor. Qed.

Lemma predict_moves_position_by_velocity_witness :
  exists (kf : KalmanFilter3D.t Qc) (x0 x1 x2 v0 v1 v2 : Qc),
    kalman_run (H0 := stand_in) (KalmanFilter3D.__init__ (lit 1 100 : Qc))
      [Predict; Update [of_Z 1; of_Z 0; lit 16 10]] = inr kf /\
    KalmanFilter3D.pos_state kf = [x0; x1; x2; v0; v1; v2] /\
    KalmanFilter3D.pos_state (KalmanFilter3D.predict kf)
    = [x0 + lit 1 100 * v0; x1 + lit 1 100 * v1; x2 + lit 1 100 * v2;
       v0; v1; v2]%Qc.
Proof.
  destruct one_fix as [kf E].
  destruct (@predict_moves_position_by_velocity stand_in (lit 1 100) _ kf
              (stand_in_inverts_scalar_matrices exact_field Qc_eqb_false)
              one_fix_ok E)
    as (x0 & x1 & x2 & v0 & v1 & v2 & Hx & Hp).
  exists kf, x0, x1, x2, v0, v1, v2. repeat split; assumption.
Defined.

Lemma update_position_blends_towards_measurement_witness :
  exists (kf kf' : KalmanFilter3D.t Qc) (g h x0 x1 x2 v0 v1 v2 : Qc),
    kalman_run (H0 := stand_in) (KalmanFilter3D.__init__ (lit 1 100 : Qc))
      [Predict; Update [of_Z 1; of_Z 0; lit 16 10]] = inr kf /\
    KalmanFilter3D.update_position (H0 := stand_in) kf
      [Q2Qc 2; Q2Qc 0; Q2Qc 1] = inr kf' /\
    (Q2Qc 0 <= g)%Qc /\ (g < Q2Qc 1)%Qc /\
    KalmanFilter3D.pos_state kf = [x0; x1; x2; v0; v1; v2] /\
    KalmanFilter3D.pos_state kf'
    = [x0 + g * (Q2Qc 2 - x0); x1 + g * (Q2Qc 0 - x1);
       x2 + g * (Q2Qc 1 - x2);
       v0 + h * (Q2Qc 2 - x0); v1 + h * (Q2Qc 0 - x1);
       v2 + h * (Q2Qc 1 - x2)]%Qc.
Proof.
  destruct one_fix as [kf E].
  destruct (@update_position_blends_towards_measurement stand_in
              (lit 1 100) _ kf (Q2Qc 2) (Q2Qc 0) (Q2Qc 1)
              (stand_in_inverts_scalar_matrices exact_field Qc_eqb_false)
              one_fix_ok E)
    as (kf' & g & h & x0 & x1 & x2 & v0 & v1 & v2 & Hu & Hr).
  exists kf, kf', g, h, x0, x1, x2, v0, v1, v2.
  split; [exact E|]. split; [exact Hu | exact Hr].
Defined.

Lemma update_position_never_increases_variance_witness :
  exists kf kf' : KalmanFilter3D.t Qc,
    kalman_run (H0 := stand_in) (KalmanFilter3D.__init__ (lit 1 100 : Qc))
      [Predict; Update [of_Z 1; of_Z 0; lit 16 10]] = inr kf /\
    KalmanFilter3D.update_position (H0 := stand_in) kf
      [Q2Qc 2; Q2Qc 0; Q2Qc 1] = inr kf' /\
    (Q2Qc 0 <= mget (KalmanFilter3D.pos_P kf') 3 3)%Qc /\
    (mget (KalmanFilter3D.pos_P kf') 3 3
     <= mget (KalmanFilter3D.pos_P kf) 3 3)%Qc.
Proof.
  destruct one_fix as [kf E].
  assert (exists kf',
            KalmanFilter3D.update_position (H0 := stand_in) kf
              [Q2Qc 2; Q2Qc 0; Q2Qc 1] = inr kf') as [kf' Eu].
  { apply (reached_update_returns (H := stand_in)
             (stand_in_inverts_scalar_matrices exact_field Qc_eqb_false)
             (lit 1 100) _ kf _ one_fix_ok E).
    reflexivity. }
  exists kf, kf'. split; [exact E|]. split; [exact Eu|].
  apply (@update_position_never_increases_variance stand_in (lit 1 100) _
           kf kf' _ 3%nat
           (stand_in_inverts_scalar_matrices exact_field Qc_eqb_false)
           one_fix_ok E Eu); [reflexivity | lia].
Defined.

Section Fusion.
Context `{Numpy Qc} `{Pyquaternion Qc}.
Hypothesis inverse_ok : inverts_scalar_matrices.

Lemma fusion_update_returns (s : SensorFusion.t Qc)
    (d : SensorFusion.raw Qc) (abc : Qc * Qc * Qc) :
  tracks (lit 1 100) (SensorFusion.kf s) abc -> block_psd abc ->
  raw_ok d ->
  exists pos q s' abc',
    SensorFusion.update s d = inr ((pos, q), s') /\
    length pos = 3%nat /\
    SensorFusion.current_pos s' = pos /\
    SensorFusion.current_quat s' = q /\
    tracks (lit 1 100) (SensorFusion.kf s') abc' /\ block_psd abc'.
Proof.
  intros Htr Hpsd ((z & Hz & Hlen) & (qm & Hq)).
  unfold SensorFusion.update. rewrite Hz, Hq.
  cbn [SensorFusion.getitem bind ret].
  pose proof (predict_tracks exact_field _ _ _ Htr) as Htr1.
  pose proof (predicted_psd (lit 1 100) abc Hpsd) as Hpsd1.
  destruct (update_tracks exact_field _ _ _ z inverse_ok
              (innovation_variance_nonzero _ Hpsd1) Hlen Htr1)
    as (kf2 & Eu & Htr2).
  rewrite Eu. cbn [bind].
  do 4 eexists. split; [reflexivity|].
  cbn [SensorFusion.kf SensorFusion.current_pos SensorFusion.current_quat].
  split.
  - destruct Htr2 as (_ & _ & _ & _ & Hl & _).
    unfold slice. rewrite length_take, length_drop, Hl. reflexivity.
  - repeat (split; [reflexivity|]). split; [exact Htr2|].
    apply updated_psd. exact Hpsd1.
Qed.

Lemma fusion_run_returns (data : list (SensorFusion.raw Qc)) :
  forall (s : SensorFusion.t Qc) (abc : Qc * Qc * Qc),
  tracks (lit 1 100) (SensorFusion.kf s) abc -> block_psd abc ->
  Forall raw_ok data ->
  exists outs s',
    fusion_run s data = inr (outs, s') /\
    length outs = length data /\
    Forall (fun o => length (fst o) = 3%nat) outs.
Proof.
  induction data as [|d rest IH]; intros s abc Htr Hpsd Hok.
  - exists [], s. repeat split. constructor.
  - apply Forall_cons in Hok as [Hd Hrest]. cbn [fusion_run].
    destruct (fusion_update_returns s d abc Htr Hpsd Hd)
      as (pos & q & s1 & abc1 & Eu & Hlen & _ & _ & Htr1 & Hpsd1).
    rewrite Eu. cbn [bind fst snd].
    destruct (IH s1 abc1 Htr1 Hpsd1 Hrest) as (outs & s' & Er & Hl & Hall).
    rewrite Er. cbn [bind fst snd ret].
    exists ((pos, q) :: outs), s'. split; [reflexivity|].
    split; [cbn; lia|]. constructor; assumption.
Qed.
End Fusion.

(** X30.  In exact arithmetic (with [np.linalg.inv] inverting the
    multiples of the identity, and whatever [Quaternion.slerp] returns),
    [SensorFusion.update] never raises on raw data that carry a position
    of three coordinates and an orientation: from the constructed fusion
    state, every call of every sequence returns, and the position it
    reports has three coordinates. *)
Theorem sensor_fusion_never_raises `{Numpy Qc} `{Pyquaternion Qc}
    (data : list (SensorFusion.raw Qc)) :
  inverts_scalar_matrices ->
  Forall raw_ok data ->
  exists outs s',
    fusion_run SensorFusion.__init__ data = inr (outs, s') /\
    length outs = length data /\
    Forall (fun o => length (fst o) = 3%nat) outs.
Proof.
  intros Hinv Hok.
  apply (fusion_run_returns Hinv data SensorFusion.__init__
           (of_Z 1, of_Z 0, of_Z 1)); [| |exact Hok].
  - exact (init_tracks exact_field (lit 1 100)).
  - repeat split; discriminate.
Qed.

Lemma sensor_fusion_never_raises_witness :
  exists outs s',
    fusion_run (H0 := stand_in) (H1 := blend_slerp) SensorFusion.__init__
      [ {| SensorFusion.raw_pos := Some [lit 1 10; lit 1 10; lit 165 100];
           SensorFusion.raw_quat :=
             Some {| qw := Q2Qc 1; qx := Q2Qc 0; qy := Q2Qc (1 # 10);
                     qz := Q2Qc 0 |} |} ]
    = inr (outs, s') /\
    length outs = 1%nat /\
    Forall (fun o => length (fst o) = 3%nat) outs.
Proof.
  apply (@sensor_fusion_never_raises stand_in blend_slerp).
  - exact (stand_in_inverts_scalar_matrices exact_field Qc_eqb_false).
  - repeat constructor; eexists; try split; reflexivity.
Defined.
